(** * WorldEndArchive standalone reader: recovery ingestion, normalizer
    and browsing

    A shallow embedding of [src/standalone/reader.py] (class [ArchiveReader]).

    Conventions of the model.
    - Python [str] values are Rocq [string]s over 8-bit characters; the
      texts considered are ASCII.
    - JSON numbers are integers ([Z]); number literals with a fraction or
      an exponent, and the constants NaN and Infinity, are outside the
      modelled value domain and the document parser gives no value for them.
    - [self.database] is a JSON value threaded through the methods
      explicitly; a method that may leave through an exception returns an
      [outcome] or an [option].
    - [hash] (salted per process for strings) and [datetime.now] are
      parameters of the model. *)

From Stdlib Require Import Bool Ascii String List ZArith NArith Arith Lia
  Permutation.
Import ListNotations.

Open Scope string_scope.
Open Scope bool_scope.
Open Scope list_scope.
Open Scope nat_scope.

(** ** Characters and text primitives *)

Module Text.

Definition dquote : ascii := "034"%char.
Definition squote : ascii := "039"%char.
Definition backslash : ascii := "092"%char.
Definition backtick : ascii := "096"%char.

(** [lit s] is [s] with every backtick turned into a double quote; it is
    only a way of writing text constants that contain double quotes. *)
Fixpoint lit (s : string) : string :=
  match s with
  | EmptyString => EmptyString
  | String c t => String (if Ascii.eqb c backtick then dquote else c) (lit t)
  end.

(** [str.isspace] / the regex class [\s] on ASCII characters: TAB, LF, VT,
    FF, CR, the separators FS GS RS US, and SPACE. *)
Definition py_isspace (c : ascii) : bool :=
  let n := nat_of_ascii c in
  ((9 <=? n) && (n <=? 13)) || ((28 <=? n) && (n <=? 32)).

Definition is_digit (c : ascii) : bool :=
  let n := nat_of_ascii c in (48 <=? n) && (n <=? 57).

(** The class [[a-zA-Z0-9_]]. *)
Definition is_word (c : ascii) : bool :=
  let n := nat_of_ascii c in
  ((97 <=? n) && (n <=? 122)) || ((65 <=? n) && (n <=? 90))
  || ((48 <=? n) && (n <=? 57)) || (n =? 95).

(** [s[n:]] *)
Fixpoint drop (n : nat) (s : string) : string :=
  match n, s with
  | O, _ => s
  | S n', String _ t => drop n' t
  | S _, EmptyString => EmptyString
  end.

(** [s[:n]] *)
Fixpoint take (n : nat) (s : string) : string :=
  match n, s with
  | O, _ => EmptyString
  | S n', String c t => String c (take n' t)
  | S _, EmptyString => EmptyString
  end.

(** [s[a:b]] for [0 <= a], [0 <= b]. *)
Definition slice (a b : nat) (s : string) : string := take (b - a) (drop a s).

(** [s.startswith(p)] *)
Fixpoint startswith (p s : string) : bool :=
  match p, s with
  | EmptyString, _ => true
  | String a p', String b s' => Ascii.eqb a b && startswith p' s'
  | String _ _, EmptyString => false
  end.

(** [s.find(sub)], as an offset from the head of [s]. *)
Fixpoint find (sub s : string) : option nat :=
  if startswith sub s then Some 0
  else match s with
       | EmptyString => None
       | String _ t => option_map S (find sub t)
       end.

(** [s.find(sub, start)] for [0 <= start]. *)
Definition find_from (sub s : string) (start : nat) : option nat :=
  if String.length s <? start then None
  else option_map (fun i => start + i) (find sub (drop start s)).

(** [sub in s] *)
Definition contains (sub s : string) : bool :=
  match find sub s with Some _ => true | None => false end.

(** [s.lstrip()] *)
Fixpoint lstrip (s : string) : string :=
  match s with
  | String c t => if py_isspace c then lstrip t else s
  | EmptyString => EmptyString
  end.

Fixpoint rev_string (s acc : string) : string :=
  match s with
  | EmptyString => acc
  | String c t => rev_string t (String c acc)
  end.

(** [s.rstrip()] and [s.strip()] *)
Definition rstrip (s : string) : string :=
  rev_string (lstrip (rev_string s EmptyString)) EmptyString.

Definition strip (s : string) : string := rstrip (lstrip s).

(** [s.replace(a, b)] for single characters [a], [b]. *)
Fixpoint replace_char (a b : ascii) (s : string) : string :=
  match s with
  | EmptyString => EmptyString
  | String c t => String (if Ascii.eqb c a then b else c) (replace_char a b t)
  end.

(** [s.split(sep)] for a single-character separator: the pieces between
    the separators, empty pieces included. *)
Fixpoint split_on (sep : ascii) (s : string) (cur : string) : list string :=
  match s with
  | EmptyString => [rev_string cur EmptyString]
  | String c t =>
      if Ascii.eqb c sep then rev_string cur EmptyString :: split_on sep t EmptyString
      else split_on sep t (String c cur)
  end.

Definition split (sep : ascii) (s : string) : list string :=
  split_on sep s EmptyString.

Definition nonempty (s : string) : bool :=
  match s with EmptyString => false | String _ _ => true end.

(** [len(s)] as a binary number, for the comparisons with the size limits. *)
Definition len (s : string) : N := N.of_nat (String.length s).

(** [s[-n:]] for [0 < n]. *)
Definition last_chars (n : N) (s : string) : string :=
  drop (N.to_nat (len s - n)) s.

(** [f.read(n)]: the next [n] characters of what is left of the file, and
    the rest. *)
Fixpoint read (n : N) (s : string) : string * string :=
  match s with
  | EmptyString => (EmptyString, EmptyString)
  | String c t =>
      if N.eqb n 0 then (EmptyString, s)
      else let (a, b) := read (N.pred n) t in (String c a, b)
  end.

End Text.

Import Text.

(** ** JSON values as Python objects *)

Set Warnings "-register-all".

Inductive json : Type :=
| JNull
| JBool (b : bool)
| JInt (z : Z)
| JStr (s : string)
| JArr (l : list json)
| JObj (m : list (string * json)).

(** A [dict] keeps its keys in insertion order and has each key once. *)
Definition dict := list (string * json).

Module Py.

(** [d.get(k)] on the entries of a dict; [None] is Python's missing key. *)
Fixpoint dict_get (k : string) (m : dict) : option json :=
  match m with
  | [] => None
  | (k', v) :: m' => if String.eqb k k' then Some v else dict_get k m'
  end.

(** [d[k] = v]: overwrite in place, or append a new key at the end. *)
Fixpoint dict_set (k : string) (v : json) (m : dict) : dict :=
  match m with
  | [] => [(k, v)]
  | (k', v') :: m' =>
      if String.eqb k k' then (k', v) :: m' else (k', v') :: dict_set k v m'
  end.

(** [k in d] *)
Definition dict_has (k : string) (m : dict) : bool :=
  match dict_get k m with Some _ => true | None => false end.

(** [d.update(e)]: the keys of [e] are written into [d] in their order. *)
Definition dict_update (d e : dict) : dict :=
  fold_left (fun acc kv => dict_set (fst kv) (snd kv) acc) e d.

(** [isinstance(x, dict)] *)
Definition is_dict (x : json) : bool :=
  match x with JObj _ => true | _ => false end.

(** [x.get(k)] where [x] is known to be a dict: a missing key reads as the
    Python value [None], which is also what JSON [null] parses to. *)
Definition get (k : string) (x : json) : json :=
  match x with
  | JObj m => match dict_get k m with Some v => v | None => JNull end
  | _ => JNull
  end.

(** [k in x] for a dict [x]. *)
Definition has (k : string) (x : json) : bool :=
  match x with JObj m => dict_has k m | _ => false end.

(** [x[k] = v] for a dict [x]. *)
Definition set (k : string) (v : json) (x : json) : json :=
  match x with JObj m => JObj (dict_set k v m) | _ => x end.

(** [x.get(k, default)] for a dict [x]. *)
Definition get_default (k : string) (default : json) (x : json) : json :=
  match x with
  | JObj m => match dict_get k m with Some v => v | None => default end
  | _ => default
  end.

(** Truth value of an object: [None], [False], [0] and the empty string,
    list and dict are false. *)
Definition truthy (x : json) : bool :=
  match x with
  | JNull => false
  | JBool b => b
  | JInt z => negb (Z.eqb z 0)
  | JStr s => nonempty s
  | JArr l => match l with [] => false | _ => true end
  | JObj m => match m with [] => false | _ => true end
  end.

(** Lists and dicts cannot be hashed; [hash], set membership and set
    insertion raise [TypeError] on them. *)
Definition hashable (x : json) : bool :=
  match x with JArr _ | JObj _ => false | _ => true end.

(** [a == b].  [bool] is a subclass of [int] ([True == 1]); lists compare
    element-wise; dicts compare as mappings, whatever the key order. *)
Fixpoint eq (a b : json) {struct a} : bool :=
  match a, b with
  | JNull, JNull => true
  | JBool x, JBool y => Bool.eqb x y
  | JBool x, JInt y => Z.eqb (Z.b2z x) y
  | JInt x, JBool y => Z.eqb x (Z.b2z y)
  | JInt x, JInt y => Z.eqb x y
  | JStr x, JStr y => String.eqb x y
  | JArr x, JArr y =>
      (fix eq_list (x y : list json) {struct x} : bool :=
         match x, y with
         | [], [] => true
         | u :: x', v :: y' => eq u v && eq_list x' y'
         | _, _ => false
         end) x y
  | JObj x, JObj y =>
      Nat.eqb (List.length x) (List.length y) &&
      (fix eq_items (x : dict) : bool :=
         match x with
         | [] => true
         | (k, u) :: x' =>
             match dict_get k y with
             | Some v => eq u v
             | None => false
             end && eq_items x'
         end) x
  | _, _ => false
  end.

(** [len(x)]; raises [TypeError] for [None], booleans and integers. *)
Definition py_len (x : json) : option nat :=
  match x with
  | JStr s => Some (String.length s)
  | JArr l => Some (List.length l)
  | JObj m => Some (List.length m)
  | _ => None
  end.

(** [for v in x]: the values a [for] loop visits, or [None] when [x] is
    not iterable ([TypeError]).  A string yields its characters, a dict its
    keys. *)
Fixpoint chars (s : string) : list json :=
  match s with
  | EmptyString => []
  | String c t => JStr (String c EmptyString) :: chars t
  end.

Definition iterate (x : json) : option (list json) :=
  match x with
  | JArr l => Some l
  | JStr s => Some (chars s)
  | JObj m => Some (map (fun kv => JStr (fst kv)) m)
  | _ => None
  end.

End Py.

(** ** The bracket scanner

    The scan of [process_structured_json] (for the braces of one page
    object) and of [extract_other_data] (for the brackets of the
    [page_topics] array) is the same loop over [buffer[start:]] with the
    flags [depth], [in_quotes] and [escape_next]. *)

Module Scanner.

Record flags := Flags { depth : Z; in_quotes : bool; escape_next : bool }.

Definition start_flags : flags := Flags 0 false false.

(** The outcome of the [for i in range(start, len(buffer))] loop: the
    index [i] at which [depth] came back to 0, or the end of the buffer
    with the depth reached there. *)
Inductive scan_result :=
| Closed (i : nat)
| Exhausted (d : Z).

(** One character of the loop body; [inl] carries the flags on, [inr tt]
    is the point where the body finds [depth == 0]. *)
Definition step (opener closer : ascii) (f : flags) (c : ascii) : flags + unit :=
  if escape_next f then inl (Flags (depth f) (in_quotes f) false)
  else if Ascii.eqb c backslash then inl (Flags (depth f) (in_quotes f) true)
  else if Ascii.eqb c dquote then inl (Flags (depth f) (negb (in_quotes f)) false)
  else if negb (in_quotes f) then
    if Ascii.eqb c opener then inl (Flags (depth f + 1) (in_quotes f) false)
    else if Ascii.eqb c closer then
      if Z.eqb (depth f - 1) 0 then inr tt
      else inl (Flags (depth f - 1) (in_quotes f) false)
    else inl f
  else inl f.

(** The loop from index [i], where [s] is [buffer[i:]]. *)
Fixpoint scan_loop (opener closer : ascii) (s : string) (i : nat) (f : flags)
  : scan_result :=
  match s with
  | EmptyString => Exhausted (depth f)
  | String c t =>
      match step opener closer f c with
      | inr _ => Closed i
      | inl f' => scan_loop opener closer t (S i) f'
      end
  end.

(** The scan of [buffer] from index [start]. *)
Definition scan (opener closer : ascii) (buffer : string) (start : nat)
  : scan_result :=
  scan_loop opener closer (drop start buffer) start start_flags.

Definition scan_object := scan "{"%char "}"%char.
Definition scan_array := scan "["%char "]"%char.

End Scanner.

(** ** Regular expressions

    A backtracking matcher with the priorities of Python's [re]: the
    alternatives of [|] are tried left to right, a greedy star tries one
    more iteration before leaving, a lazy star tries leaving first.  The
    patterns of the reader are written below as terms of [regex]. *)

Module Re.

Inductive regex : Type :=
| Chr (p : ascii -> bool)          (* one character of a class *)
| Eps
| Seq (a b : regex)
| Alt (a b : regex)
| Star (greedy : bool) (a : regex)
| Grp (n : nat) (a : regex).       (* capturing group number [n] *)

(** The spans [(start, end)] of the groups matched so far. *)
Definition captures := list (nat * (nat * nat)).

Record found := Found { m_start : nat; m_end : nat; m_caps : captures }.

Section Matcher.

Context {R : Type}.

(** A matcher in continuation style: position, text from there on,
    captures so far, and what to do after the match. *)
Definition cont := nat -> string -> captures -> option R.
Definition matcher := nat -> string -> captures -> cont -> option R.

(** The iterations of a star over [body], at most [fuel] of them.  An
    iteration that consumes nothing is not repeated. *)
Fixpoint star_loop (body : matcher) (greedy : bool) (k : cont) (fuel : nat)
  (pos : nat) (rest : string) (caps : captures) {struct fuel} : option R :=
  match fuel with
  | O => k pos rest caps
  | S fuel' =>
      let again :=
        body pos rest caps
          (fun pos' rest' caps' =>
             if pos <? pos' then star_loop body greedy k fuel' pos' rest' caps'
             else None) in
      if greedy then
        match again with Some x => Some x | None => k pos rest caps end
      else
        match k pos rest caps with Some x => Some x | None => again end
  end.

(** [rmatch r pos rest caps k]: match [r] at index [pos], where [rest] is
    the text from [pos] on, and go on with [k]; [None] makes the matcher
    backtrack. *)
Fixpoint rmatch (r : regex) (pos : nat) (rest : string) (caps : captures)
  (k : cont) {struct r} : option R :=
  match r with
  | Chr p =>
      match rest with
      | String c t => if p c then k (S pos) t caps else None
      | EmptyString => None
      end
  | Eps => k pos rest caps
  | Seq a b =>
      rmatch a pos rest caps (fun pos' rest' caps' => rmatch b pos' rest' caps' k)
  | Alt a b =>
      match rmatch a pos rest caps k with
      | Some x => Some x
      | None => rmatch b pos rest caps k
      end
  | Star greedy a =>
      star_loop (rmatch a) greedy k (String.length rest) pos rest caps
  | Grp n a =>
      rmatch a pos rest caps
        (fun pos' rest' caps' => k pos' rest' ((n, (pos, pos')) :: caps'))
  end.

End Matcher.

(** A match of [r] starting exactly at [pos]. *)
Definition match_at (r : regex) (pos : nat) (rest : string) : option found :=
  rmatch r pos rest [] (fun e _ caps => Some (Found pos e caps)).

(** [re.search]: the match at the leftmost index that has one; [rest] is
    the text from [pos] on. *)
Fixpoint search_from (r : regex) (pos : nat) (rest : string) : option found :=
  match match_at r pos rest with
  | Some m => Some m
  | None =>
      match rest with
      | EmptyString => None
      | String _ t => search_from r (S pos) t
      end
  end.

Definition search (r : regex) (text : string) : option found :=
  search_from r 0 text.

(** [pattern.finditer]: the successive matches, each search starting where
    the previous match ended (one further when that match was empty). *)
Fixpoint finditer_from (fuel : nat) (r : regex) (pos : nat) (rest : string)
  : list found :=
  match fuel with
  | O => []
  | S fuel' =>
      match search_from r pos rest with
      | None => []
      | Some m =>
          let e := if m_start m <? m_end m then m_end m else S (m_end m) in
          m :: (if String.length rest <? e - pos then []
                else finditer_from fuel' r e (drop (e - pos) rest))
      end
  end.

Definition finditer (r : regex) (text : string) : list found :=
  finditer_from (S (String.length text)) r 0 text.

(** [m.group(0)] and [m.group(n)] *)
Definition group0 (text : string) (m : found) : string :=
  slice (m_start m) (m_end m) text.

Fixpoint cap_get (n : nat) (caps : captures) : option (nat * nat) :=
  match caps with
  | [] => None
  | (n', span) :: caps' => if Nat.eqb n n' then Some span else cap_get n caps'
  end.

Definition group (n : nat) (text : string) (m : found) : string :=
  match cap_get n (m_caps m) with
  | Some (a, b) => slice a b text
  | None => EmptyString
  end.

(** [m.start(n)] *)
Definition group_start (n : nat) (m : found) : option nat :=
  option_map fst (cap_get n (m_caps m)).

(** [re.sub(r, template, text)]: every match replaced by the expansion of
    the template on its groups. *)
Definition sub (r : regex) (template : string -> found -> string) (text : string)
  : string :=
  let ms := finditer r text in
  let step acc m :=
    let '(out, last) := acc in
    (out ++ slice last (m_start m) text ++ template text m, m_end m)%string in
  let '(out, last) := fold_left step ms (EmptyString, 0) in
  (out ++ drop last text)%string.

(** Notation for writing patterns. *)
Definition any : regex := Chr (fun _ => true).                 (* [\s\S] *)
Definition ws : regex := Chr py_isspace.                        (* \s *)
Definition ch (c : ascii) : regex := Chr (Ascii.eqb c).
Definition not_ch (c : ascii) : regex := Chr (fun x => negb (Ascii.eqb c x)).

Fixpoint str (s : string) : regex :=
  match s with
  | EmptyString => Eps
  | String c t => Seq (ch c) (str t)
  end.

Fixpoint seq (rs : list regex) : regex :=
  match rs with
  | [] => Eps
  | [r] => r
  | r :: rs' => Seq r (seq rs')
  end.

Fixpoint alt (rs : list regex) : regex :=
  match rs with
  | [] => Chr (fun _ => false)
  | [r] => r
  | r :: rs' => Alt r (alt rs')
  end.

Definition star (r : regex) : regex := Star true r.             (* r*  *)
Definition lazy (r : regex) : regex := Star false r.            (* r*? *)
Definition plus (r : regex) : regex := Seq r (Star true r).     (* r+  *)
Definition lazy_plus (r : regex) : regex := Seq r (Star false r). (* r{1,}? *)

End Re.

(** ** [json.loads]

    The document grammar of Python's [json] decoder on the modelled value
    domain: whitespace is SPACE, TAB, LF and CR; a string may not hold a
    raw control character; a repeated key keeps its first position and its
    last value; anything but whitespace after the value is an error.
    [None] stands for [json.JSONDecodeError]. *)

Module Json.

Definition is_json_ws (c : ascii) : bool :=
  let n := nat_of_ascii c in (n =? 32) || (n =? 9) || (n =? 10) || (n =? 13).

Fixpoint skip_ws (s : string) : string :=
  match s with
  | String c t => if is_json_ws c then skip_ws t else s
  | EmptyString => EmptyString
  end.

Definition hex_digit (c : ascii) : option nat :=
  let n := nat_of_ascii c in
  if (48 <=? n) && (n <=? 57) then Some (n - 48)
  else if (97 <=? n) && (n <=? 102) then Some (n - 87)
  else if (65 <=? n) && (n <=? 70) then Some (n - 55)
  else None.

(** The four hex digits of a [\u] escape; code points above 255 are
    outside the modelled character set. *)
Definition unicode_escape (a b c d : ascii) : option ascii :=
  match hex_digit a, hex_digit b, hex_digit c, hex_digit d with
  | Some x, Some y, Some z, Some w =>
      let n := ((x * 16 + y) * 16 + z) * 16 + w in
      if n <? 256 then Some (ascii_of_nat n) else None
  | _, _, _, _ => None
  end.

(** The body of a string literal after its opening quote: the decoded
    string and the text after the closing quote. *)
Fixpoint scanstring (s : string) (acc : string) : option (string * string) :=
  match s with
  | EmptyString => None
  | String c t =>
      if Ascii.eqb c dquote then Some (rev_string acc EmptyString, t)
      else if Ascii.eqb c backslash then
        match t with
        | EmptyString => None
        | String e t' =>
            let simple x := scanstring t' (String x acc) in
            if Ascii.eqb e dquote then simple dquote
            else if Ascii.eqb e backslash then simple backslash
            else if Ascii.eqb e "/"%char then simple "/"%char
            else if Ascii.eqb e "b"%char then simple "008"%char
            else if Ascii.eqb e "f"%char then simple "012"%char
            else if Ascii.eqb e "n"%char then simple "010"%char
            else if Ascii.eqb e "r"%char then simple "013"%char
            else if Ascii.eqb e "t"%char then simple "009"%char
            else if Ascii.eqb e "u"%char then
              match t' with
              | String h1 (String h2 (String h3 (String h4 t4))) =>
                  match unicode_escape h1 h2 h3 h4 with
                  | Some x => scanstring t4 (String x acc)
                  | None => None
                  end
              | _ => None
              end
            else None
        end
      else if nat_of_ascii c <? 32 then None
      else scanstring t (String c acc)
  end.

(** The digits at the head of [s], as a number, and what follows them. *)
Fixpoint digits (s : string) (acc : Z) : Z * string :=
  match s with
  | String c t =>
      if is_digit c then digits t (10 * acc + Z.of_nat (nat_of_ascii c - 48))%Z
      else (acc, s)
  | EmptyString => (acc, s)
  end.

(** An integer literal: an optional minus sign, then either 0 or a digit
    string without a leading 0.  A following [.], [e] or [E] would make it
    a float literal (or an error), which has no value here. *)
Definition number (s : string) : option (json * string) :=
  let (neg, body) :=
    match s with
    | String "-"%char t => (true, t)
    | _ => (false, s)
    end in
  match body with
  | String c t =>
      if is_digit c then
        let (n, rest) :=
          if Ascii.eqb c "0"%char then (0%Z, t) else digits body 0%Z in
        match rest with
        | String d _ =>
            if Ascii.eqb d "."%char || Ascii.eqb d "e"%char || Ascii.eqb d "E"%char
            then None
            else Some (JInt (if neg then (- n)%Z else n), rest)
        | EmptyString => Some (JInt (if neg then (- n)%Z else n), rest)
        end
      else None
  | EmptyString => None
  end.

(** One value at the head of [s] (no leading whitespace), the members of
    an object after its opening brace, and the elements of an array after
    its opening bracket.  [fuel] bounds the number of calls. *)
Fixpoint value (fuel : nat) (s : string) {struct fuel} : option (json * string) :=
  match fuel with
  | O => None
  | S fuel' =>
      match s with
      | EmptyString => None
      | String c t =>
          if Ascii.eqb c dquote then
            match scanstring t EmptyString with
            | Some (x, rest) => Some (JStr x, rest)
            | None => None
            end
          else if Ascii.eqb c "{"%char then
            match skip_ws t with
            | String "}"%char rest => Some (JObj [], rest)
            | t' => members fuel' t' []
            end
          else if Ascii.eqb c "["%char then
            match skip_ws t with
            | String "]"%char rest => Some (JArr [], rest)
            | t' => elements fuel' t' []
            end
          else if startswith "null" s then Some (JNull, drop 4 s)
          else if startswith "true" s then Some (JBool true, drop 4 s)
          else if startswith "false" s then Some (JBool false, drop 5 s)
          else number s
      end
  end

with members (fuel : nat) (s : string) (acc : dict) {struct fuel}
  : option (json * string) :=
  match fuel with
  | O => None
  | S fuel' =>
      match s with
      | String c t =>
          if Ascii.eqb c dquote then
            match scanstring t EmptyString with
            | Some (key, rest) =>
                match skip_ws rest with
                | String ":"%char rest1 =>
                    match value fuel' (skip_ws rest1) with
                    | Some (v, rest2) =>
                        let acc' := Py.dict_set key v acc in
                        match skip_ws rest2 with
                        | String "}"%char rest3 => Some (JObj acc', rest3)
                        | String ","%char rest3 => members fuel' (skip_ws rest3) acc'
                        | _ => None
                        end
                    | None => None
                    end
                | _ => None
                end
            | None => None
            end
          else None
      | EmptyString => None
      end
  end

with elements (fuel : nat) (s : string) (acc : list json) {struct fuel}
  : option (json * string) :=
  match fuel with
  | O => None
  | S fuel' =>
      match value fuel' s with
      | Some (v, rest) =>
          match skip_ws rest with
          | String "]"%char rest1 => Some (JArr (acc ++ [v]), rest1)
          | String ","%char rest1 => elements fuel' (skip_ws rest1) (acc ++ [v])
          | _ => None
          end
      | None => None
      end
  end.

(** [json.loads(text)] *)
Definition loads (text : string) : option json :=
  match value (2 * String.length text + 2) (skip_ws text) with
  | Some (v, rest) =>
      match skip_ws rest with
      | EmptyString => Some v
      | String _ _ => None
      end
  | None => None
  end.

End Json.

Import Py.

(** ** The patterns of the reader *)

Module Patterns.

Import Re.

Definition quoted (key : string) : regex :=
  seq [ch dquote; str key; ch dquote].

(** The quoted key followed by [\s*:\s*]. *)
Definition key_colon (key : string) : regex :=
  seq [quoted key; star ws; ch ":"; star ws].

(** The database wrapper searched by [extract_full_database]: a brace,
    lazily anything, the quoted key pages with its colon, a bracket, lazily
    anything, a closing bracket, lazily anything, a closing brace. *)
Definition db_pattern : regex :=
  seq [ch "{"; lazy any; key_colon "pages"; ch "["; lazy any; ch "]";
       lazy any; ch "}"].

(** The quoted key with its colon, then group 1: a bracket, lazily
    anything ([[\s\S]*?]), and a closing bracket. *)
Definition array_pattern (key : string) : regex :=
  seq [key_colon key; Grp 1 (seq [ch "["; lazy any; ch "]"])].

Definition pages_pattern : regex := array_pattern "pages".
Definition topics_pattern : regex := array_pattern "page_topics".

(** The quoted key settings with its colon, then group 1: a brace, lazily
    anything, and a closing brace. *)
Definition settings_pattern : regex :=
  seq [key_colon "settings"; Grp 1 (seq [ch "{"; lazy any; ch "}"])].

(** [(?:id|url|title|html_content|date_archived|description)] *)
Definition page_keys : regex :=
  alt (map str ["id"; "url"; "title"; "html_content"; "date_archived";
                "description"]).

(** [(?:id|topic|page_id)] *)
Definition topic_keys : regex :=
  alt (map str ["id"; "topic"; "page_id"]).

(** An opening brace, whitespace, a quote and one of [keys], lazily
    anything, then lazily one or more times a fully quoted key of [keys]
    followed lazily by anything, then a closing brace. *)
Definition object_pattern (keys : regex) : regex :=
  seq [ch "{"; star ws; ch dquote; keys; lazy any;
       lazy_plus (seq [ch dquote; keys; ch dquote; lazy any]);
       ch "}"].

Definition page_pattern : regex := object_pattern page_keys.
Definition topic_pattern : regex := object_pattern topic_keys.

(** A comma, whitespace, and as group 1 a closing brace or bracket. *)
Definition trailing_comma : regex :=
  seq [ch ","; star ws; Grp 1 (Alt (ch "}") (ch "]"))].

(** Three groups: an opening brace or a comma with the whitespace after
    it; a non-empty run of word characters; whitespace and a colon. *)
Definition bare_key : regex :=
  seq [Grp 1 (Seq (Alt (ch "{") (ch ",")) (star ws));
       Grp 2 (plus (Chr is_word));
       Grp 3 (Seq (star ws) (ch ":"))].

(** The quoted key, [\s*:\s*], and a quoted non-empty run of characters
    other than the double quote, which is group 1. *)
Definition string_field (key : string) : regex :=
  seq [key_colon key; ch dquote; Grp 1 (plus (not_ch dquote)); ch dquote].

End Patterns.

(** ** The reader *)

(** How a method leaves: normally, or through an exception that is not
    caught inside it; either way with the database as it stands. *)
Inductive outcome : Type :=
| Done (db : json)
| Raised (db : json).

Definition state_of (o : outcome) : json :=
  match o with Done db | Raised db => db end.

(** The database of [__init__] and of the reset in [load_large_file]. *)
Definition empty_database : json :=
  JObj [("pages", JArr []); ("page_topics", JArr []);
        ("settings", JObj []); ("crawl_queue", JArr [])].

(** [10 * 1024 * 1024], [20 * 1024 * 1024], [5 * 1024 * 1024] and the other
    size constants of the source. *)
Definition structured_chunk_size : N := 10485760.
Definition structured_buffer_max : N := 20971520.
Definition structured_buffer_keep : N := 5242880.
Definition unstructured_chunk_size : N := 5242880.
Definition unstructured_buffer_keep : N := 20000.
Definition start_chunk_size : N := 51200.
Definition large_file_bytes : N := 104857600.
Definition context_radius : nat := 500.

(** [cleanup_json] *)
Definition cleanup_json (json_str : string) : string :=
  let s1 := replace_char squote dquote json_str in
  let s2 := Re.sub Patterns.trailing_comma (fun t m => Re.group 1 t m) s1 in
  Re.sub Patterns.bare_key
    (fun t m =>
       (Re.group 1 t m ++ String dquote (Re.group 2 t m)
        ++ String dquote (Re.group 3 t m))%string) s2.

(** [is_valid_page] *)
Definition is_valid_page (page_obj : json) : bool :=
  is_dict page_obj &&
  (has "url" page_obj || has "title" page_obj || has "id" page_obj).

(** [any(cond(x) for x in xs)] where [cond] calls [x.get]: the generator
    stops at the first true condition, and raises at an [x] that is not a
    dict ([None] here) if it gets that far. *)
Fixpoint any_get (cond : json -> bool) (xs : list json) : option bool :=
  match xs with
  | [] => Some false
  | x :: xs' =>
      if is_dict x then (if cond x then Some true else any_get cond xs')
      else None
  end.

Section Reader.

(** [py_hash x] is [hash(x)] for a hashable [x]; [now i] is the reading of
    [datetime.datetime.now().isoformat()] taken for the page at position
    [i] of the loop that stamps it. *)
Variable py_hash : json -> Z.
Variable now : nat -> string.

(** *** [verify_and_fix_structure] *)

Definition ensure_key (k : string) (v : json) (db : json) : json :=
  if has k db then db else set k v db.

(** The body of the loop over the pages; [None] is the [TypeError] of
    [hash] on a url that is a list or a dict. *)
Definition fix_page (i : nat) (page : json) : option json :=
  if negb (is_dict page) then Some page
  else
    let with_id :=
      if negb (has "id" page) && has "url" page then
        if hashable (get "url" page)
        then Some (set "id" (JInt (py_hash (get "url" page) mod 10000000)) page)
        else None
      else Some page in
    match with_id with
    | None => None
    | Some p1 =>
        let p2 := if has "title" p1 then p1 else set "title" (JStr "Untitled") p1 in
        Some (if has "date_archived" p2 then p2
              else set "date_archived" (JStr (now i)) p2)
    end.

(** The loop over the pages from position [i]: the pages as the loop
    leaves them, and whether it ran to its end. *)
Fixpoint fix_pages (i : nat) (ps : list json) : list json * bool :=
  match ps with
  | [] => ([], true)
  | p :: ps' =>
      match fix_page i p with
      | None => (p :: ps', false)
      | Some p' => let (r, ok) := fix_pages (S i) ps' in (p' :: r, ok)
      end
  end.

(** The set comprehension [{p.get("id") for p in pages if p.get("id")}],
    as the list of its elements; [None] when a page has no [get] or a
    truthy id cannot be hashed. *)
Fixpoint page_ids (ps : list json) : option (list json) :=
  match ps with
  | [] => Some []
  | p :: ps' =>
      if is_dict p then
        let v := get "id" p in
        if truthy v then
          if hashable v then option_map (cons v) (page_ids ps') else None
        else page_ids ps'
      else None
  end.

(** [x in page_ids] for a hashable [x]. *)
Definition id_in (x : json) (ids : list json) : bool :=
  existsb (fun v => eq v x) ids.

(** The loop that collects [valid_topics]; [None] when a [page_id] cannot
    be hashed for the membership test. *)
Fixpoint valid_topics (ids : list json) (ts : list json) : option (list json) :=
  match ts with
  | [] => Some []
  | t :: ts' =>
      if negb (is_dict t) then valid_topics ids ts'
      else if negb (has "topic" t) || negb (has "page_id" t) then valid_topics ids ts'
      else if hashable (get "page_id" t) then
        option_map (fun r => if id_in (get "page_id" t) ids then t :: r else r)
                   (valid_topics ids ts')
      else None
  end.

Definition verify_and_fix_structure (db : json) : outcome :=
  if negb (is_dict db) then Done empty_database
  else
    let db := ensure_key "pages" (JArr []) db in
    let db := ensure_key "page_topics" (JArr []) db in
    let db := ensure_key "settings" (JObj []) db in
    let db := ensure_key "crawl_queue" (JArr []) db in
    match iterate (get "pages" db) with
    | None => Raised db
    | Some ps =>
        let (ps', ok) := fix_pages 0 ps in
        (* the pages are changed in place, inside the list they are in *)
        let db' := match get "pages" db with
                   | JArr _ => set "pages" (JArr ps') db
                   | _ => db
                   end in
        if negb ok then Raised db'
        else
          match page_ids ps' with
          | None => Raised db'
          | Some ids =>
              match iterate (get "page_topics" db') with
              | None => Raised db'
              | Some ts =>
                  match valid_topics ids ts with
                  | None => Raised db'
                  | Some valid => Done (set "page_topics" (JArr valid) db')
                  end
              end
          end
    end.

(** *** [print_stats]

    Printing aside, it may write [settings["total_size_raw"]]; every
    exception it can raise comes before that write, so [None] leaves the
    database as it was. *)

Definition topic_rel_ok (t : json) : bool :=
  if is_dict t && truthy (get "topic" t) then hashable (get "topic" t) else true.

Definition page_topics_ok (page : json) : bool :=
  if is_dict page && truthy (get "topics" page) then
    match get "topics" page with
    | JArr l => forallb hashable l
    | _ => true
    end
  else true.

(** [len(page["html_content"].encode('utf-8'))] summed over the pages. *)
Fixpoint content_size (ps : list json) : option nat :=
  match ps with
  | [] => Some 0
  | p :: ps' =>
      if is_dict p && truthy (get "html_content" p) then
        match get "html_content" p with
        | JStr s => option_map (Nat.add (String.length s)) (content_size ps')
        | _ => None
        end
      else content_size ps'
  end.

Definition print_stats (db : json) : option json :=
  if negb (is_dict db) then None
  else
    match iterate (get_default "page_topics" (JArr []) db),
          iterate (get_default "pages" (JArr []) db),
          py_len (get_default "pages" (JArr []) db),
          py_len (get_default "crawl_queue" (JArr []) db) with
    | Some ts, Some ps, Some _, Some _ =>
        if forallb topic_rel_ok ts && forallb page_topics_ok ps then
          let settings := get_default "settings" (JObj []) db in
          if negb (is_dict settings) then None
          else if truthy (get "total_size_raw" settings) then Some db
          else
            match content_size ps with
            | None => None
            | Some total_size =>
                if 0 <? total_size then
                  (* self.database.setdefault("settings", {})[...] = total_size *)
                  Some (set "settings"
                          (set "total_size_raw" (JInt (Z.of_nat total_size)) settings)
                          db)
                else Some db
            end
        else None
    | _, _, _, _ => None
    end.

(** *** [extract_objects] and [extract_topics] *)

(** The duplicate test of [extract_objects] for a page already held. *)
Definition same_page (page_obj p : json) : bool :=
  eq (get "url" p) (get "url" page_obj)
  || (truthy (get "id" p) && eq (get "id" p) (get "id" page_obj)).

(** The body of the loop over the page matches.  Every exception is caught
    by the loop ([except Exception: continue]) and leaves the database as
    it was. *)
Definition extract_page (db : json) (page_json : string) : json :=
  if contains (lit "`url`") page_json || contains (lit "`title`") page_json
     || contains (lit "`html_content`") page_json then
    match Json.loads (cleanup_json page_json) with
    | Some page_obj =>
        if is_valid_page page_obj then
          match get "pages" db with
          | JArr ps =>
              match any_get (same_page page_obj) ps with
              | Some false => set "pages" (JArr (ps ++ [page_obj])) db
              | _ => db
              end
          | _ => db
          end
        else db
    | None => db
    end
  else db.

Definition same_topic (topic_obj t : json) : bool :=
  eq (get "topic" t) (get "topic" topic_obj)
  && eq (get "page_id" t) (get "page_id" topic_obj).

(** The body of the loop over the topic matches, in [extract_objects] and
    in [extract_topics]. *)
Definition extract_topic (db : json) (topic_json : string) : json :=
  if contains (lit "`topic`") topic_json && contains (lit "`page_id`") topic_json then
    match Json.loads (cleanup_json topic_json) with
    | Some topic_obj =>
        if has "topic" topic_obj && has "page_id" topic_obj then
          match get "page_topics" db with
          | JArr ts =>
              match any_get (same_topic topic_obj) ts with
              | Some false => set "page_topics" (JArr (ts ++ [topic_obj])) db
              | _ => db
              end
          | _ => db
          end
        else db
    | None => db
    end
  else db.

(** The settings step of [extract_objects]: the first settings object the
    pattern finds is cleaned, parsed and merged with [dict.update]. *)
Definition merge_settings (db : json) (text : string) : json :=
  match Re.search Patterns.settings_pattern text with
  | Some m =>
      match Json.loads (cleanup_json (Re.group 1 text m)) with
      | Some (JObj settings_obj) =>
          match get "settings" db with
          | JObj settings => set "settings" (JObj (dict_update settings settings_obj)) db
          | _ => db
          end
      | _ => db
      end
  | None => db
  end.

Definition matches (r : Re.regex) (text : string) : list string :=
  map (Re.group0 text) (Re.finditer r text).

Definition extract_objects (db : json) (text : string) : json :=
  let db := fold_left extract_page (matches Patterns.page_pattern text) db in
  let db := fold_left extract_topic (matches Patterns.topic_pattern text) db in
  merge_settings db text.

Definition extract_topics (db : json) (text : string) : json :=
  fold_left extract_topic (matches Patterns.topic_pattern text) db.

(** *** [extract_other_data] *)

(** The settings step of [extract_other_data] and of
    [extract_full_database]: the parsed object is assigned. *)
Definition assign_settings (db : json) (text : string) : json :=
  match Re.search Patterns.settings_pattern text with
  | Some m =>
      match Json.loads (Re.group 1 text m) with
      | Some (JObj settings_obj) => set "settings" (JObj settings_obj) db
      | _ => db
      end
  | None => db
  end.

Definition extract_other_data (db : json) (text : string) : json :=
  let db :=
    match Re.search Patterns.topics_pattern text with
    | Some m =>
        match Re.group_start 1 m with
        | Some topics_start =>
            match Scanner.scan_array text topics_start with
            | Scanner.Closed i =>
                let topics_json := slice topics_start (i + 1) text in
                match Json.loads topics_json with
                | Some (JArr topics_list) => set "page_topics" (JArr topics_list) db
                | Some _ => db
                | None => extract_topics db topics_json
                end
            | Scanner.Exhausted _ => db
            end
        | None => db
        end
    | None => db
    end in
  assign_settings db text.

(** *** [extract_full_database] *)

Definition extract_full_database (db : json) (text : string) : json :=
  let whole :=
    match Re.search Patterns.db_pattern text with
    | Some m =>
        match Json.loads (Re.group0 text m) with
        | Some db_obj => if is_dict db_obj && has "pages" db_obj then Some db_obj else None
        | None => None
        end
    | None => None
    end in
  match whole with
  | Some db_obj => db_obj
  | None =>
      let db :=
        match Re.search Patterns.pages_pattern text with
        | Some m =>
            match Json.loads (Re.group 1 text m) with
            | Some (JArr pages_list) => set "pages" (JArr pages_list) db
            | Some _ => db
            | None => extract_objects db text
            end
        | None => extract_objects db text
        end in
      let db :=
        match Re.search Patterns.topics_pattern text with
        | Some m =>
            match Json.loads (Re.group 1 text m) with
            | Some (JArr topics_list) => set "page_topics" (JArr topics_list) db
            | _ => db
            end
        | None => db
        end in
      assign_settings db text
  end.

(** *** [recover_basic_pages] *)

(** The first group-1 text the pattern of [key] finds in [context], or
    the default. *)
Definition nearby (key : string) (default : string) (context : string) : string :=
  match Re.search (Patterns.string_field key) context with
  | Some m => Re.group 1 context m
  | None => default
  end.

(** The body of the loop for the match number [i].  The method is called
    when [len(self.database["pages"]) == 0], on a list to which it appends
    dicts only, so the test on the pages held cannot raise; the cases in
    which it would are written here as leaving the database alone. *)
Definition recover_page (text : string) (db : json) (im : nat * Re.found) : json :=
  let (i, m) := im in
  let url := Re.group 1 text m in
  match get "pages" db with
  | JArr ps =>
      match any_get (fun p => eq (get "url" p) (JStr url)) ps with
      | Some false =>
          let context_start := Re.m_start m - context_radius in
          let context_end := Nat.min (String.length text) (Re.m_end m + context_radius) in
          let context := slice context_start context_end text in
          let title := nearby "title" "Unknown" context in
          let description :=
            nearby "description" "Recovered from partially corrupt data" context in
          set "pages"
            (JArr (ps ++ [JObj [("id", JInt (Z.of_nat i + 1));
                                ("url", JStr url);
                                ("title", JStr title);
                                ("description", JStr description);
                                ("date_archived", JStr (now i))]]))
            db
      | _ => db
      end
  | _ => db
  end.

Fixpoint enumerate {A : Type} (i : nat) (l : list A) : list (nat * A) :=
  match l with
  | [] => []
  | x :: l' => (i, x) :: enumerate (S i) l'
  end.

Definition recover_basic_pages (db : json) (text : string) : json :=
  fold_left (recover_page text)
    (enumerate 0 (Re.finditer (Patterns.string_field "url") text)) db.

(** *** The end of every successful strategy

    [verify_and_fix_structure(); print_stats(); return True].  [Raised] is
    an exception out of one of the two calls, with the database as that
    call left it. *)
Definition finish (db : json) : outcome :=
  match verify_and_fix_structure db with
  | Done db1 =>
      match print_stats db1 with
      | Some db2 => Done db2
      | None => Raised db1
      end
  | Raised db1 => Raised db1
  end.

(** [len(self.database["pages"]) > 0]; [None] when it raises. *)
Definition has_pages (db : json) : option bool :=
  option_map (fun n => 0 <? n) (py_len (get "pages" db)).

(** *** [process_unstructured_json] *)

(** The loop over the chunks of the file: the buffer and the database
    after the last chunk.  [rest] is what is left of the file. *)
Fixpoint unstructured_chunks (fuel : nat) (rest buffer : string) (db : json)
  : string * json :=
  match fuel with
  | O => (buffer, db)
  | S fuel' =>
      let (chunk, rest') := read unstructured_chunk_size rest in
      if negb (nonempty chunk) then (buffer, db)
      else
        let buffer := (buffer ++ chunk)%string in
        let db := extract_objects db buffer in
        let buffer :=
          if (unstructured_buffer_keep <? len buffer)%N
          then last_chars unstructured_buffer_keep buffer else buffer in
        unstructured_chunks fuel' rest' buffer db
  end.

Definition process_unstructured_json (db : json) (file : string) : bool * json :=
  let (buffer, db) := unstructured_chunks (S (String.length file)) file EmptyString db in
  let db := extract_objects db buffer in
  match has_pages db with
  | None => (false, db)
  | Some nonempty_pages =>
      let db := if nonempty_pages then db else recover_basic_pages db buffer in
      match has_pages db with
      | Some true =>
          match finish db with
          | Done db' => (true, db')
          | Raised db' => (false, db')
          end
      | _ => (false, db)
      end
  end.

(** *** [process_structured_json] *)

(** What the loop [while in_pages_array] hands back to the loop over the
    chunks. *)
Inductive pages_scan : Type :=
| NeedMore (buffer : string) (db : json)      (* left by [break], array open *)
| ArrayClosed (db : json)                      (* [in_pages_array = False] *)
| Escaped (db : json).                         (* an exception not caught *)

(** The [try] around one complete object: only [json.JSONDecodeError] is
    caught there. *)
Definition admit_object (db : json) (obj_text : string) : outcome :=
  match Json.loads obj_text with
  | None => Done db
  | Some page_obj =>
      if is_valid_page page_obj then
        match get "pages" db with
        | JArr ps =>
            match any_get (fun p => eq (get "url" p) (get "url" page_obj)) ps with
            | Some true => Done db
            | Some false => Done (set "pages" (JArr (ps ++ [page_obj])) db)
            | None => Raised db
            end
        | _ => Raised db
        end
      else Done db
  end.

(** [while in_pages_array]: one turn per complete object taken off the
    front of the buffer. *)
Fixpoint pages_loop (fuel : nat) (buffer : string) (db : json) : pages_scan :=
  match fuel with
  | O => NeedMore buffer db
  | S fuel' =>
      match find "{" buffer with
      | None => NeedMore buffer db
      | Some obj_start =>
          match Scanner.scan_object buffer obj_start with
          | Scanner.Closed i =>
              match admit_object db (slice obj_start (i + 1) buffer) with
              | Raised db' => Escaped db'
              | Done db' =>
                  let buffer' := drop (i + 1) buffer in
                  if startswith "]" (lstrip buffer')
                  then ArrayClosed (extract_other_data db' buffer')
                  else pages_loop fuel' buffer' db'
              end
          | Scanner.Exhausted d =>
              if negb (Z.eqb d 0) then NeedMore buffer db
              else pages_loop fuel' buffer db
          end
      end
  end.

(** The loop over the chunks; [in_pages_array] says whether the opening
    bracket of the pages array has been passed. *)
Fixpoint structured_chunks (fuel : nat) (rest buffer : string)
  (in_pages_array : bool) (db : json) : outcome :=
  match fuel with
  | O => Done db
  | S fuel' =>
      let (chunk, rest') := read structured_chunk_size rest in
      if negb (nonempty chunk) then Done db
      else
        let buffer := (buffer ++ chunk)%string in
        let (buffer, in_pages_array) :=
          if in_pages_array then (buffer, true)
          else
            match find (lit "`pages`:") buffer with
            | Some pages_pos =>
                match find_from "[" buffer pages_pos with
                | Some array_start => (drop (array_start + 1) buffer, true)
                | None => (buffer, false)
                end
            | None => (buffer, false)
            end in
        if in_pages_array then
          match pages_loop (S (String.length buffer)) buffer db with
          | Escaped db' => Raised db'
          | ArrayClosed db' => Done db'
          | NeedMore buffer' db' =>
              let buffer' :=
                if (structured_buffer_max <? len buffer')%N
                then last_chars structured_buffer_keep buffer' else buffer' in
              structured_chunks fuel' rest' buffer' true db'
          end
        else Done db
  end.

Definition process_structured_json (db : json) (file : string) : bool * json :=
  match structured_chunks (S (String.length file)) file EmptyString false db with
  | Raised db' => process_unstructured_json db' file
  | Done db' =>
      match has_pages db' with
      | None => process_unstructured_json db' file
      | Some true =>
          match finish db' with
          | Done db'' => (true, db'')
          | Raised db'' => process_unstructured_json db'' file
          end
      | Some false => process_unstructured_json db' file
      end
  end.

(** *** [load_large_file] and [load_file] *)

Definition load_large_file (file : string) : bool * json :=
  let db := empty_database in
  let (start_chunk, _) := read start_chunk_size file in
  if startswith "{" (strip start_chunk) then
    match find (lit "`pages`") start_chunk with
    | Some pages_pos =>
        if 0 <? pages_pos then process_structured_json db file
        else process_unstructured_json db file
    | None => process_unstructured_json db file
    end
  else process_unstructured_json db file.

(** [load_file] of a fresh reader; [file] is the content of the file at
    [file_path], or [None] when there is no such file. *)
Definition load_file (file : option string) : bool * json :=
  match file with
  | None => (false, empty_database)
  | Some raw_data =>
      if (large_file_bytes <? len raw_data)%N then load_large_file raw_data
      else
        match Json.loads raw_data with
        | Some db =>
            (* the message printed first reads len(self.database.get('pages', [])) *)
            if is_dict db then
              match py_len (get_default "pages" (JArr []) db) with
              | Some _ =>
                  match finish db with
                  | Done db' => (true, db')
                  | Raised _ => load_large_file raw_data
                  end
              | None => load_large_file raw_data
              end
            else load_large_file raw_data
        | None =>
            let db := extract_full_database empty_database raw_data in
            match py_len (get_default "pages" (JArr []) db) with
            | Some n =>
                if 0 <? n then
                  match finish db with
                  | Done db' => (true, db')
                  | Raised _ => load_large_file raw_data
                  end
                else load_large_file raw_data
            | None => load_large_file raw_data
            end
        end
  end.

(** *** [get_page_topics] *)

(** [[t.strip() for t in s.split(",") if t.strip()]] *)
Definition split_topics (s : string) : list string :=
  filter nonempty (map strip (split "," s)).

(** The list comprehension over [self.database["page_topics"]]; [None]
    when a relation has no [get]. *)
Fixpoint topics_of (page_id : json) (ts : list json) : option (list json) :=
  match ts with
  | [] => Some []
  | t :: ts' =>
      if is_dict t then
        option_map
          (fun r => if eq (get "page_id" t) page_id && truthy (get "topic" t)
                    then get "topic" t :: r else r)
          (topics_of page_id ts')
      else None
  end.

(** [get_page_topics(page)] for a dict [page]; [None] is an exception
    ([AttributeError] when truthy inline topics are not a string). *)
Definition get_page_topics (db : json) (page : json) : option (list json) :=
  if truthy (get "topics" page) then
    match get "topics" page with
    | JStr s => Some (map JStr (split_topics s))
    | _ => None
    end
  else if truthy (get "page_topics" db) then
    let page_id := get "id" page in
    if truthy page_id then
      match iterate (get "page_topics" db) with
      | Some ts => topics_of page_id ts
      | None => None
      end
    else Some []
  else Some [].

End Reader.

(** ** Browsing the archive *)

(** *** Text and order primitives of the browsing methods *)

(** [c.lower()] for a character below 256: the capitals of ASCII and of
    Latin-1 (192 to 222, but the multiplication sign 215) move up by 32. *)
Definition lower_char (c : ascii) : ascii :=
  let n := nat_of_ascii c in
  if ((65 <=? n) && (n <=? 90))
     || ((192 <=? n) && (n <=? 222) && negb (n =? 215))
  then ascii_of_nat (n + 32) else c.

(** [s.lower()] *)
Fixpoint lower (s : string) : string :=
  match s with
  | EmptyString => EmptyString
  | String c s' => String (lower_char c) (lower s')
  end.

(** [s < t] on strings: by code points, a proper prefix first. *)
Fixpoint str_lt (s t : string) : bool :=
  match s, t with
  | _, EmptyString => false
  | EmptyString, String _ _ => true
  | String a s', String b t' =>
      if nat_of_ascii a <? nat_of_ascii b then true
      else if nat_of_ascii b <? nat_of_ascii a then false
      else str_lt s' t'
  end.

(** The number an [int] or a [bool] compares as. *)
Definition num (x : json) : option Z :=
  match x with
  | JInt z => Some z
  | JBool b => Some (Z.b2z b)
  | _ => None
  end.

(** [a < b]; [None] is the [TypeError] of an unordered pair.  Numbers
    compare by value and strings by code points; two lists compare at the
    first position where their elements are not [==], or by length when
    there is none; [None] and dicts are ordered with nothing. *)
Fixpoint py_lt (a b : json) {struct a} : option bool :=
  match a, b with
  | JStr s, JStr t => Some (str_lt s t)
  | JArr xs, JArr ys =>
      (fix lt_list (xs ys : list json) {struct xs} : option bool :=
         match xs, ys with
         | [], [] => Some false
         | [], _ :: _ => Some true
         | _ :: _, [] => Some false
         | x :: xs', y :: ys' => if eq x y then lt_list xs' ys' else py_lt x y
         end) xs ys
  | _, _ =>
      match num a, num b with
      | Some m, Some n => Some (m <? n)%Z
      | _, _ => None
      end
  end.

Definition comparable (a b : json) : bool :=
  match py_lt a b, py_lt b a with
  | Some _, Some _ => true
  | _, _ => false
  end.

Fixpoint all_pairs {A : Type} (r : A -> A -> bool) (l : list A) : bool :=
  match l with
  | [] => true
  | x :: l' => forallb (r x) l' && all_pairs r l'
  end.

(** [list.sort] and [sorted] on items with their keys.  The keys are
    computed before anything is compared, and fewer than two items are not
    compared at all.  The sort raises [TypeError] exactly when two of the
    keys are unordered; otherwise it is stable: items with equal keys keep
    their order, with [reverse=True] as well. *)
Fixpoint insert_desc (x : json * json) (l : list (json * json))
  : list (json * json) :=
  match l with
  | [] => [x]
  | y :: l' =>
      match py_lt (fst x) (fst y) with
      | Some true => y :: insert_desc x l'
      | _ => x :: l
      end
  end.

Fixpoint insert_asc (x : json * json) (l : list (json * json))
  : list (json * json) :=
  match l with
  | [] => [x]
  | y :: l' =>
      match py_lt (fst y) (fst x) with
      | Some true => y :: insert_asc x l'
      | _ => x :: l
      end
  end.

(** [items.sort(key=..., reverse=True)] *)
Definition sort_desc (keyed : list (json * json)) : option (list json) :=
  if all_pairs comparable (map fst keyed)
  then Some (map snd (fold_right insert_desc [] keyed))
  else None.

(** [sorted(items)] *)
Definition sorted (items : list json) : option (list json) :=
  if all_pairs comparable items
  then Some (map snd (fold_right insert_asc [] (map (fun x => (x, x)) items)))
  else None.

(** A loop that keeps the items passing a test which may raise. *)
Fixpoint filter_opt {A : Type} (f : A -> option bool) (l : list A)
  : option (list A) :=
  match l with
  | [] => Some []
  | x :: l' =>
      match f x with
      | Some b => option_map (fun r => if b then x :: r else r) (filter_opt f l')
      | None => None
      end
  end.

Definition is_str (x : json) : bool :=
  match x with JStr _ => true | _ => false end.

(** *** [get_unique_topics] *)

(** The first loop: the inline topics of every page, split as in
    [get_page_topics]; [None] when a page has no [get] or truthy topics
    without [split]. *)
Fixpoint inline_topics (ps : list json) : option (list json) :=
  match ps with
  | [] => Some []
  | page :: ps' =>
      if is_dict page then
        if truthy (get "topics" page) then
          match get "topics" page with
          | JStr s => option_map (app (map JStr (split_topics s))) (inline_topics ps')
          | _ => None
          end
        else inline_topics ps'
      else None
  end.

(** The second loop: the truthy topics of the relations; [None] when a
    relation has no [get] or its topic cannot be hashed. *)
Fixpoint relation_topics (ts : list json) : option (list json) :=
  match ts with
  | [] => Some []
  | topic_rel :: ts' =>
      if is_dict topic_rel then
        if truthy (get "topic" topic_rel) then
          if hashable (get "topic" topic_rel) then
            option_map (cons (get "topic" topic_rel)) (relation_topics ts')
          else None
        else relation_topics ts'
      else None
  end.

(** The elements of the set built by adding [xs] in order: an element
    equal to one already there is not added. *)
Fixpoint set_of (seen xs : list json) : list json :=
  match xs with
  | [] => seen
  | x :: xs' =>
      if existsb (fun y => eq y x) seen then set_of seen xs'
      else set_of (seen ++ [x]) xs'
  end.

Definition get_unique_topics (db : json) : option (list json) :=
  if is_dict db then
    match iterate (get_default "pages" (JArr []) db) with
    | Some ps =>
        match inline_topics ps with
        | Some inline =>
            match iterate (get_default "page_topics" (JArr []) db) with
            | Some ts =>
                match relation_topics ts with
                | Some rels => sorted (set_of [] (inline ++ rels))
                | None => None
                end
            | None => None
            end
        | None => None
        end
    | None => None
    end
  else None.

(** *** [search] *)

(** The topic test of [search] for one page: every active topic is among
    the topics of the page. *)
Definition has_topics (db : json) (active_topics : list json) (page : json)
  : option bool :=
  if is_dict page then
    option_map
      (fun page_topics =>
         forallb (fun topic => existsb (fun t => eq t topic) page_topics)
           active_topics)
      (get_page_topics db page)
  else None.

(** [page.get(f) and query_lower in page[f].lower()], as a truth value. *)
Definition field_has (query_lower f : string) (page : json) : option bool :=
  if truthy (get f page) then
    match get f page with
    | JStr s => Some (contains query_lower (lower s))
    | _ => None
    end
  else Some false.

(** The text test of [search] for one page. *)
Definition text_match (query_lower : string) (page : json) : option bool :=
  if is_dict page then
    match field_has query_lower "title" page with
    | Some true => Some true
    | Some false =>
        match field_has query_lower "url" page with
        | Some true => Some true
        | Some false => field_has query_lower "description" page
        | None => None
        end
    | None => None
    end
  else None.

(** The key of the final sort, for each result. *)
Fixpoint date_keys (results : list json) : option (list (json * json)) :=
  match results with
  | [] => Some []
  | p :: results' =>
      if is_dict p then
        option_map (cons (get_default "date_archived" (JStr "") p, p))
          (date_keys results')
      else None
  end.

(** [search()]: the [filtered_results] it leaves, for the database, the
    set of active topics and the query; [None] when it raises.  A copy
    of the pages that is a string stays one until a filter runs, and has
    no [sort]. *)
Definition search (db : json) (active_topics : list json) (search_query : string)
  : option (list json) :=
  if is_dict db then
    let pages := get_default "pages" (JArr []) db in
    match pages with
    | JArr _ | JStr _ =>
        match iterate pages with
        | Some results =>
            let by_topic :=
              match active_topics with
              | [] => Some (results, is_str pages)
              | _ :: _ =>
                  option_map (fun r => (r, false))
                    (filter_opt (has_topics db active_topics) results)
              end in
            match by_topic with
            | Some (results, still_str) =>
                let by_text :=
                  if nonempty search_query then
                    option_map (fun r => (r, false))
                      (filter_opt (text_match (lower search_query)) results)
                  else Some (results, still_str) in
                match by_text with
                | Some (results, still_str) =>
                    if still_str then None
                    else
                      match date_keys results with
                      | Some keyed => sort_desc keyed
                      | None => None
                      end
                | None => None
                end
            | None => None
            end
        | None => None
        end
    | _ => None
    end
  else None.

(** *** [display_results], [view_page] and the page turns of [search_menu] *)

Definition results_per_page : Z := 10.

(** [l[lo:hi]] for integers [lo] and [hi]; a negative index counts from
    the end. *)
Definition py_slice {A : Type} (lo hi : Z) (l : list A) : list A :=
  let n := Z.of_nat (List.length l) in
  let norm := fun i => if (i <? 0)%Z then Z.max (i + n) 0 else Z.min i n in
  firstn (Z.to_nat (norm hi - norm lo)) (skipn (Z.to_nat (norm lo)) l).

Definition total_pages (filtered_results : list json) : Z :=
  (Z.of_nat (List.length filtered_results) + results_per_page - 1)
  / results_per_page.

(** The entries of the loop of [display_results]: the results of the
    current page, each with the number printed before it. *)
Definition page_entries (filtered_results : list json) (current_page : Z)
  : list (Z * json) :=
  let total_results := Z.of_nat (List.length filtered_results) in
  let start_idx := ((current_page - 1) * results_per_page)%Z in
  let end_idx := Z.min (start_idx + results_per_page) total_results in
  map (fun ip => ((start_idx + Z.of_nat (fst ip))%Z, snd ip))
    (enumerate 1 (py_slice start_idx end_idx filtered_results)).

(** The date of an entry prints: it is falsy or a string (a string that
    is no ISO date is printed as it is). *)
Definition date_prints (page : json) : bool :=
  let date := get_default "date_archived" (JStr "") page in
  negb (truthy date) || is_str date.

(** The body of the loop for the entries in turn: the entries whose
    numbered title line is printed, and whether the loop ends without an
    exception.  The page must have [get] and its topics must be found
    before the title line; the date and the joined topics come after. *)
Fixpoint print_entries (db : json) (entries : list (Z * json))
  : list (Z * json) * bool :=
  match entries with
  | [] => ([], true)
  | (idx, page) :: rest =>
      if is_dict page then
        match get_page_topics db page with
        | Some topics =>
            if date_prints page && forallb is_str topics then
              let (printed, ok) := print_entries db rest in
              ((idx, page) :: printed, ok)
            else ([(idx, page)], false)
        | None => ([], false)
        end
      else ([], false)
  end.

(** [display_results()]: nothing is listed for no results. *)
Definition display_results (db : json) (filtered_results : list json)
  (current_page : Z) : list (Z * json) * bool :=
  match filtered_results with
  | [] => ([], true)
  | _ :: _ => print_entries db (page_entries filtered_results current_page)
  end.

(** [view_page(index)]: the result it goes on to show, [None] when it
    prints one of its two refusals. *)
Definition view_page (filtered_results : list json) (index : Z) : option json :=
  match filtered_results with
  | [] => None
  | _ :: _ =>
      if (index <? 1)%Z || (Z.of_nat (List.length filtered_results) <? index)%Z
      then None
      else nth_error filtered_results (Z.to_nat (index - 1))
  end.

(** The choices 2 and 3 of [search_menu]: the new [current_page]. *)
Inductive turn : Type := NextPage | PreviousPage.

Definition turn_page (filtered_results : list json) (current_page : Z) (t : turn)
  : Z :=
  match t with
  | NextPage =>
      if (current_page <? total_pages filtered_results)%Z
      then (current_page + 1)%Z else current_page
  | PreviousPage =>
      if (1 <? current_page)%Z then (current_page - 1)%Z else current_page
  end.

(** ** Notions used by the statements *)

(** Text in which the brackets [opener]/[closer] are balanced and every
    quoted string is closed: ordinary characters, quoted strings whose
    content is opaque (any character, or a backslash and the character it
    escapes), and bracketed groups. *)
Inductive string_body : string -> Prop :=
| sb_end : string_body EmptyString
| sb_char (c : ascii) (s : string) :
    c <> dquote -> c <> backslash -> string_body s -> string_body (String c s)
| sb_escape (c : ascii) (s : string) :
    string_body s -> string_body (String backslash (String c s)).

Inductive balanced (opener closer : ascii) : string -> Prop :=
| bal_end : balanced opener closer EmptyString
| bal_char (c : ascii) (s : string) :
    c <> opener -> c <> closer -> c <> dquote -> c <> backslash ->
    balanced opener closer s -> balanced opener closer (String c s)
| bal_string (q s : string) :
    string_body q -> balanced opener closer s ->
    balanced opener closer (String dquote (q ++ String dquote s))
| bal_group (a s : string) :
    balanced opener closer a -> balanced opener closer s ->
    balanced opener closer (String opener (a ++ String closer s)).

(** [R] holds of every pair of an earlier and a later element. *)
Fixpoint pairwise {A : Type} (R : A -> A -> Prop) (l : list A) : Prop :=
  match l with
  | [] => True
  | x :: l' => Forall (R x) l' /\ pairwise R l'
  end.

(** No two pages have equal values of [get('url')]. *)
Definition url_distinct (ps : list json) : Prop :=
  pairwise (fun p q => eq (get "url" p) (get "url" q) = false) ps.

(** The settings object that the settings step of [extract_objects] finds
    in [text]: empty when there is none that parses to a dict. *)
Definition found_settings (text : string) : dict :=
  match Re.search Patterns.settings_pattern text with
  | Some m =>
      match Json.loads (cleanup_json (Re.group 1 text m)) with
      | Some (JObj settings_obj) => settings_obj
      | _ => []
      end
  | None => []
  end.

(** A database dict that has its four keys, and the database after the
    normalizer has supplied the missing ones. *)
Definition four_keys (db : json) : Prop :=
  is_dict db = true /\ has "pages" db = true /\ has "page_topics" db = true /\
  has "settings" db = true /\ has "crawl_queue" db = true.

Definition with_keys (db : json) : json :=
  ensure_key "crawl_queue" (JArr [])
    (ensure_key "settings" (JObj [])
       (ensure_key "page_topics" (JArr [])
          (ensure_key "pages" (JArr []) db))).

(** A small database used to instantiate the statements: two pages, the
    second with a title only, and three relations, of which the first
    refers to the first page. *)
Definition sample_db : json :=
  JObj [("pages",
         JArr [JObj [("id", JInt 1); ("url", JStr "http://a")];
               JObj [("title", JStr "no url")]]);
        ("page_topics",
         JArr [JObj [("topic", JStr "x"); ("page_id", JInt 1)];
               JObj [("topic", JStr "y"); ("page_id", JInt 2)];
               JObj [("topic", JStr "z"); ("page_id", JNull)]])].

Definition sample_hash (x : json) : Z := 0.
Definition sample_clock (i : nat) : string := "2024-01-01T00:00:00".

(** The settings object that the settings step of [extract_other_data]
    and of [extract_full_database] finds in [text], if any. *)
Definition parsed_settings (text : string) : option dict :=
  match Re.search Patterns.settings_pattern text with
  | Some m =>
      match Json.loads (Re.group 1 text m) with
      | Some (JObj settings_obj) => Some settings_obj
      | _ => None
      end
  | None => None
  end.

(** In a run of the matcher, the continuation [k] was entered at an index
    at or after [pos], with the text from that index on, and gave [x]. *)
Definition reaches {R : Type} (pos : nat) (rest : string) (k : @Re.cont R) (x : R)
  : Prop :=
  exists pos' rest' caps',
    k pos' rest' caps' = Some x /\ pos <= pos' /\
    rest' = drop (pos' - pos) rest /\ pos' - pos <= String.length rest.

(** The database is a dict whose pages are a list without two equal
    urls. *)
Definition pages_distinct (db : json) : Prop :=
  is_dict db = true /\ exists ps, get "pages" db = JArr ps /\ url_distinct ps.

(** Every page of the list is a dict with a title. *)
Definition pages_titled (ps : list json) : Prop :=
  Forall (fun p => is_dict p = true /\ has "title" p = true) ps.

(** The page that [recover_basic_pages] builds for the match number [k]:
    the five keys in this order, the id one more than [k]. *)
Definition salvaged_page (now : nat -> string) (k : nat) (p : json) : Prop :=
  exists url title description,
    p = JObj [("id", JInt (Z.of_nat k + 1)); ("url", JStr url);
              ("title", JStr title); ("description", JStr description);
              ("date_archived", JStr (now k))].

(** [added_after held new]: every element of [new] passes [ok], and
    [fresh] against every element that stands before it in [held ++ new]. *)
Fixpoint added_after (ok : json -> Prop) (fresh : json -> json -> bool)
  (held new : list json) : Prop :=
  match new with
  | [] => True
  | x :: new' =>
      ok x /\ Forall (fun p => fresh x p = false) held
      /\ added_after ok fresh (held ++ [x]) new'
  end.

(** The sort key of [search] for a result. *)
Definition date_of (p : json) : json := get_default "date_archived" (JStr "") p.

(** The result [p] carries the date string [s]. *)
Definition dated (s : string) (p : json) : bool :=
  match date_of p with
  | JStr t => String.eqb s t
  | _ => false
  end.

(** The page [p] passes the two filters of [search]. *)
Definition passes (db : json) (active_topics : list json) (search_query : string)
  (p : json) : bool :=
  match active_topics with
  | [] => true
  | _ :: _ =>
      match has_topics db active_topics p with Some true => true | _ => false end
  end
  && (if nonempty search_query then
        match text_match (lower search_query) p with
        | Some true => true
        | _ => false
        end
      else true).

(** A small archive for the browsing methods. *)
Definition sample_archive : json :=
  JObj [("pages",
         JArr [JObj [("title", JStr "Alpha"); ("date_archived", JStr "2020-05-01");
                     ("topics", JStr "news, science")];
               JObj [("url", JStr "http://alpha.example");
                     ("date_archived", JStr "2021-01-01"); ("id", JInt 7)];
               JObj [("title", JStr "Beta"); ("date_archived", JStr "2022-01-01")]]);
        ("page_topics", JArr [JObj [("topic", JStr "news"); ("page_id", JInt 7)]])].




(** Every character of [s] passes [P]. *)
Fixpoint all_chars (P : ascii -> bool) (s : string) : bool :=
  match s with
  | EmptyString => true
  | String c t => P c && all_chars P t
  end.

(** ** Dictionaries *)

Lemma dict_get_set_same (k : string) (v : json) (m : dict) :
  dict_get k (dict_set k v m) = Some v.
Proof.
  induction m as [|[k' v'] m IH]; simpl.
  - now rewrite String.eqb_refl.
  - destruct (String.eqb k k') eqn:E; simpl; rewrite E; auto.
Qed.

Lemma dict_get_set_other (k k' : string) (v : json) (m : dict) :
  k <> k' -> dict_get k (dict_set k' v m) = dict_get k m.
Proof.
  intros Hne. induction m as [|[k0 v0] m IH]; simpl.
  - apply String.eqb_neq in Hne. now rewrite Hne.
  - destruct (String.eqb k' k0) eqn:E; simpl.
    + apply String.eqb_eq in E; subst k0.
      apply String.eqb_neq in Hne. now rewrite Hne.
    + destruct (String.eqb k k0); auto.
Qed.

Lemma dict_set_same_value (k : string) (v : json) (m : dict) :
  dict_get k m = Some v -> dict_set k v m = m.
Proof.
  induction m as [|[k' v'] m IH]; simpl; intros H.
  - discriminate.
  - destruct (String.eqb k k') eqn:E.
    + now inversion H.
    + now rewrite IH.
Qed.

Lemma is_dict_set (k : string) (v x : json) : is_dict (set k v x) = is_dict x.
Proof. now destruct x. Qed.

Lemma has_set_same (k : string) (v x : json) :
  is_dict x = true -> has k (set k v x) = true.
Proof.
  destruct x; try discriminate. intros _. simpl. unfold dict_has.
  now rewrite dict_get_set_same.
Qed.

Lemma has_set_other (k k' : string) (v x : json) :
  k <> k' -> has k (set k' v x) = has k x.
Proof.
  intros H. destruct x; auto. simpl. unfold dict_has.
  now rewrite dict_get_set_other.
Qed.

Lemma get_set_same (k : string) (v x : json) :
  is_dict x = true -> get k (set k v x) = v.
Proof.
  destruct x; try discriminate. intros _. simpl. now rewrite dict_get_set_same.
Qed.

Lemma get_set_other (k k' : string) (v x : json) :
  k <> k' -> get k (set k' v x) = get k x.
Proof.
  intros H. destruct x; auto. simpl. now rewrite dict_get_set_other.
Qed.

Lemma set_same_value (k : string) (x : json) :
  has k x = true -> set k (get k x) x = x.
Proof.
  destruct x; auto. simpl. unfold dict_has.
  destruct (dict_get k m) eqn:E; try discriminate. intros _.
  now rewrite dict_set_same_value.
Qed.

Lemma set_set_same (k : string) (v w x : json) :
  set k v (set k w x) = set k v x.
Proof.
  destruct x; auto. simpl. f_equal.
  induction m as [|[k' v'] m IH]; simpl.
  - now rewrite String.eqb_refl.
  - destruct (String.eqb k k') eqn:E; simpl; rewrite E; auto. now rewrite IH.
Qed.

Lemma ensure_key_has (k : string) (v x : json) :
  is_dict x = true -> has k (ensure_key k v x) = true.
Proof.
  intros H. unfold ensure_key. destruct (has k x) eqn:E; auto.
  now apply has_set_same.
Qed.

Lemma ensure_key_has_other (k k' : string) (v x : json) :
  has k x = true -> has k (ensure_key k' v x) = true.
Proof.
  intros H. unfold ensure_key. destruct (has k' x) eqn:E; auto.
  destruct (String.eqb k k') eqn:Ek.
  - apply String.eqb_eq in Ek. subst. congruence.
  - apply String.eqb_neq in Ek. now rewrite has_set_other.
Qed.

Lemma is_dict_ensure_key (k : string) (v x : json) :
  is_dict (ensure_key k v x) = is_dict x.
Proof. unfold ensure_key. destruct (has k x); auto using is_dict_set. Qed.

Lemma ensure_key_id (k : string) (v x : json) :
  has k x = true -> ensure_key k v x = x.
Proof. unfold ensure_key. now intros ->. Qed.

(** ** The normalizer *)

Section Normalizer.

Variable py_hash : json -> Z.

(** The body of the page loop adds keys and changes none that is there. *)
Lemma fix_page_dict (now : nat -> string) (i : nat) (p p' : json) :
  fix_page py_hash now i p = Some p' -> is_dict p' = is_dict p.
Proof.
  unfold fix_page. destruct (is_dict p) eqn:D; simpl.
  - destruct (negb (has "id" p) && has "url" p);
      [destruct (hashable (get "url" p)); [|discriminate]|];
      intros H; inversion H; subst; clear H;
      repeat match goal with
             | |- context [if ?b then _ else _] => destruct b
             end; rewrite ?is_dict_set; auto.
  - intros H; inversion H; subst; auto.
Qed.

Lemma fix_page_title (now : nat -> string) (i : nat) (p p' : json) :
  fix_page py_hash now i p = Some p' -> is_dict p = true -> has "title" p' = true.
Proof.
  unfold fix_page. intros H D. rewrite D in H. simpl in H.
  destruct (negb (has "id" p) && has "url" p);
    [destruct (hashable (get "url" p)); [|discriminate]|];
    inversion H; subst; clear H.
  - set (p1 := set "id" _ p). assert (D1 : is_dict p1 = true) by (subst p1; now rewrite is_dict_set).
    destruct (has "title" p1) eqn:T.
    + destruct (has "date_archived" p1); auto. rewrite has_set_other; auto. discriminate.
    + destruct (has "date_archived" (set "title" (JStr "Untitled") p1)).
      * apply has_set_same; auto.
      * rewrite has_set_other by discriminate. apply has_set_same; auto.
  - destruct (has "title" p) eqn:T.
    + destruct (has "date_archived" p); auto. rewrite has_set_other; auto. discriminate.
    + destruct (has "date_archived" (set "title" (JStr "Untitled") p)).
      * apply has_set_same; auto.
      * rewrite has_set_other by discriminate. apply has_set_same; auto.
Qed.

(** Only the keys id, title and date_archived are written. *)
Lemma fix_page_get (now : nat -> string) (i : nat) (p p' : json) (k : string) :
  fix_page py_hash now i p = Some p' ->
  k <> "id" -> k <> "title" -> k <> "date_archived" ->
  get k p' = get k p /\ has k p' = has k p.
Proof.
  unfold fix_page. intros H K1 K2 K3. destruct (is_dict p); simpl in H.
  - destruct (negb (has "id" p) && has "url" p);
      [destruct (hashable (get "url" p)); [|discriminate]|];
      inversion H; subst; clear H;
      repeat match goal with
             | |- context [if ?b then _ else _] => destruct b
             end; rewrite ?get_set_other, ?has_set_other by assumption; auto.
  - inversion H; subst; auto.
Qed.

(** A page without url and without id gets no id. *)
Lemma fix_page_no_id (now : nat -> string) (i : nat) (p p' : json) :
  fix_page py_hash now i p = Some p' ->
  has "url" p = false -> has "id" p = false -> has "id" p' = false.
Proof.
  unfold fix_page. intros H U I. destruct (is_dict p); simpl in H.
  - rewrite U, I in H. simpl in H. inversion H; subst; clear H.
    repeat match goal with
           | |- context [if ?b then _ else _] => destruct b
           end; rewrite ?has_set_other by discriminate; auto.
  - inversion H; subst; auto.
Qed.

(** Running the body again on its own result changes nothing, whatever
    the clock shows then. *)
Lemma fix_page_again (now now' : nat -> string) (i j : nat) (p p' : json) :
  fix_page py_hash now i p = Some p' -> fix_page py_hash now' j p' = Some p'.
Proof.
  intros H. destruct (is_dict p) eqn:D.
  - pose proof (fix_page_title _ _ _ _ H D) as T.
    assert (D' : is_dict p' = true) by (erewrite fix_page_dict; eauto).
    assert (A : has "date_archived" p' = true).
    { revert H. unfold fix_page. rewrite D. simpl.
      destruct (negb (has "id" p) && has "url" p);
        [destruct (hashable (get "url" p)); [|discriminate]|];
        intros H; inversion H; subst; clear H;
        match goal with
        | |- context [if has "date_archived" ?x then _ else _] =>
            destruct (has "date_archived" x) eqn:E; auto;
            apply has_set_same
        end;
        repeat match goal with
               | |- context [if ?b then _ else _] => destruct b
               end; rewrite ?is_dict_set; auto. }
    assert (I : negb (has "id" p') && has "url" p' = false).
    { destruct (has "id" p') eqn:I'; auto. simpl.
      destruct (fix_page_get _ _ _ _ "url" H) as [_ U]; try discriminate.
      rewrite U. revert H I'. unfold fix_page. rewrite D. simpl.
      destruct (has "id" p) eqn:Ip; simpl.
      - intros H; inversion H; subst; clear H.
        repeat match goal with
               | |- context [if ?b then _ else _] => destruct b
               end; rewrite ?has_set_other by discriminate; congruence.
      - destruct (has "url" p) eqn:Up; auto.
        destruct (hashable (get "url" p)); [|discriminate].
        intros H; inversion H; subst; clear H.
        repeat match goal with
               | |- context [if ?b then _ else _] => destruct b
               end; rewrite ?has_set_other by discriminate;
          rewrite has_set_same; auto; discriminate. }
    unfold fix_page. rewrite D', I. simpl. now rewrite T, A.
  - unfold fix_page in H. rewrite D in H. simpl in H. inversion H; subst.
    unfold fix_page. now rewrite D.
Qed.

(** Whether the body raises does not depend on the clock or the position. *)
Lemma fix_page_raises (now now' : nat -> string) (i j : nat) (p : json) :
  fix_page py_hash now i p = None -> fix_page py_hash now' j p = None.
Proof.
  unfold fix_page. destruct (is_dict p); simpl; [|discriminate].
  destruct (negb (has "id" p) && has "url" p);
    [destruct (hashable (get "url" p)); auto|]; discriminate.
Qed.

Lemma fix_pages_again (now now' : nat -> string) (ps : list json) :
  forall i j ps' ok,
    fix_pages py_hash now i ps = (ps', ok) ->
    fix_pages py_hash now' j ps' = (ps', ok).
Proof.
  induction ps as [|p ps IH]; simpl; intros i j ps' ok H.
  - inversion H; subst; auto.
  - destruct (fix_page py_hash now i p) as [p'|] eqn:E.
    + destruct (fix_pages py_hash now (S i) ps) as [r ok'] eqn:F.
      inversion H; subst; clear H. simpl.
      rewrite (fix_page_again _ now' _ j _ _ E).
      now rewrite (IH _ (S j) _ _ F).
    + inversion H; subst; clear H. simpl.
      now rewrite (fix_page_raises _ now' _ j _ E).
Qed.

(** The loop keeps the positions, and changes each page by its body. *)
Lemma fix_pages_nth (now : nat -> string) (ps : list json) :
  forall i ps' k p,
    fix_pages py_hash now i ps = (ps', true) ->
    nth_error ps k = Some p ->
    exists p', nth_error ps' k = Some p' /\ fix_page py_hash now (i + k) p = Some p'.
Proof.
  induction ps as [|q ps IH]; simpl; intros i ps' k p H N.
  - destruct k; discriminate.
  - destruct (fix_page py_hash now i q) as [q'|] eqn:E; [|inversion H].
    destruct (fix_pages py_hash now (S i) ps) as [r ok'] eqn:F.
    inversion H; subst; clear H.
    destruct k; simpl in *.
    + inversion N; subst. exists q'. now rewrite Nat.add_0_r.
    + destruct (IH _ _ _ _ F N) as [p' [A B]]. exists p'. split; auto.
      now replace (i + S k) with (S i + k) by lia.
Qed.

Lemma fix_pages_in (now : nat -> string) (ps : list json) :
  forall i ps' p',
    fix_pages py_hash now i ps = (ps', true) ->
    In p' ps' -> exists p j, In p ps /\ fix_page py_hash now j p = Some p'.
Proof.
  induction ps as [|q ps IH]; simpl; intros i ps' p' H N.
  - inversion H; subst. destruct N.
  - destruct (fix_page py_hash now i q) as [q'|] eqn:E; [|inversion H].
    destruct (fix_pages py_hash now (S i) ps) as [r ok'] eqn:F.
    inversion H; subst; clear H. destruct N as [->|N].
    + exists q, i. auto.
    + destruct (IH _ _ _ F N) as [p [j [A B]]]. exists p, j. auto.
Qed.

(** The urls are left as they are, also when the loop is cut short. *)
Lemma fix_pages_urls (now : nat -> string) (ps : list json) :
  forall i ps' ok,
    fix_pages py_hash now i ps = (ps', ok) ->
    map (get "url") ps' = map (get "url") ps.
Proof.
  induction ps as [|q ps IH]; simpl; intros i ps' ok H.
  - inversion H; subst; auto.
  - destruct (fix_page py_hash now i q) as [q'|] eqn:E.
    + destruct (fix_pages py_hash now (S i) ps) as [r ok'] eqn:F.
      inversion H; subst; clear H. simpl.
      destruct (fix_page_get _ _ _ _ "url" E) as [G _]; try discriminate.
      rewrite G. f_equal. eauto.
    + inversion H; subst; auto.
Qed.

Lemma page_ids_spec (ps : list json) :
  forall ids, page_ids ps = Some ids ->
    Forall (fun p => is_dict p = true) ps /\
    forall v, In v ids <-> exists p, In p ps /\ get "id" p = v /\ truthy v = true.
Proof.
  induction ps as [|p ps IH]; simpl; intros ids H.
  - inversion H; subst. split; [constructor|].
    intros v; split; [intros []|intros [p [[] _]]].
  - destruct (is_dict p) eqn:D; [|discriminate].
    destruct (truthy (get "id" p)) eqn:T.
    + destruct (hashable (get "id" p)); [|discriminate].
      destruct (page_ids ps) as [r|]; [|discriminate].
      inversion H; subst; clear H. destruct (IH _ eq_refl) as [A B].
      split; [now constructor|]. intros v; split.
      * intros [<-|Hv]; [exists p; simpl; auto|].
        apply B in Hv. destruct Hv as [q [Q1 Q2]]. exists q; simpl; auto.
      * intros [q [[<-|Q1] [Q2 Q3]]]; [left; auto|right].
        apply B. exists q; auto.
    + destruct (IH _ H) as [A B]. split; [now constructor|].
      intros v; split.
      * intros Hv. apply B in Hv. destruct Hv as [q [Q1 Q2]]. exists q; simpl; auto.
      * intros [q [[<-|Q1] [Q2 Q3]]]; [congruence|]. apply B. exists q; auto.
Qed.

(** The relations kept are relations of the list, each with a topic and a
    page_id that is among the ids. *)
Lemma valid_topics_spec (ids ts : list json) :
  forall valid, valid_topics ids ts = Some valid ->
    forall t, In t valid ->
      In t ts /\ is_dict t = true /\ has "topic" t = true /\
      has "page_id" t = true /\ hashable (get "page_id" t) = true /\
      id_in (get "page_id" t) ids = true.
Proof.
  induction ts as [|t0 ts IH]; simpl; intros valid H t N.
  - inversion H; subst. destruct N.
  - destruct (is_dict t0) eqn:D; simpl in H.
    + destruct (has "topic" t0) eqn:T; simpl in H.
      * destruct (has "page_id" t0) eqn:P; simpl in H.
        -- destruct (hashable (get "page_id" t0)) eqn:Hh; [|discriminate].
           destruct (valid_topics ids ts) as [r|]; [|discriminate].
           simpl in H. inversion H; subst; clear H.
           destruct (id_in (get "page_id" t0) ids) eqn:I.
           ++ destruct N as [<-|N]; [intuition|].
              destruct (IH _ eq_refl _ N); intuition.
           ++ destruct (IH _ eq_refl _ N); intuition.
        -- destruct (IH _ H _ N); intuition.
      * destruct (IH _ H _ N); intuition.
    + destruct (IH _ H _ N); intuition.
Qed.

(** Filtering what was kept keeps all of it. *)
Lemma valid_topics_again (ids ts : list json) :
  forall valid, valid_topics ids ts = Some valid -> valid_topics ids valid = Some valid.
Proof.
  induction ts as [|t0 ts IH]; simpl; intros valid H.
  - inversion H; subst; auto.
  - destruct (is_dict t0) eqn:D; simpl in H; auto.
    destruct (has "topic" t0) eqn:T; simpl in H; auto.
    destruct (has "page_id" t0) eqn:P; simpl in H; auto.
    destruct (hashable (get "page_id" t0)) eqn:Hh; [|discriminate].
    destruct (valid_topics ids ts) as [r|]; [|discriminate].
    simpl in H. inversion H; subst; clear H.
    destruct (id_in (get "page_id" t0) ids) eqn:I; auto.
    simpl. rewrite D, T, P, Hh. simpl. rewrite (IH _ eq_refl). simpl. now rewrite I.
Qed.

Lemma with_keys_four (db : json) : is_dict db = true -> four_keys (with_keys db).
Proof.
  intros D. unfold four_keys, with_keys.
  repeat split; rewrite ?is_dict_ensure_key; auto;
    repeat (first [ apply ensure_key_has; rewrite ?is_dict_ensure_key; assumption
                  | apply ensure_key_has_other ]).
Qed.

Lemma with_keys_id (db : json) : four_keys db -> with_keys db = db.
Proof.
  intros (D & A & B & C & E). unfold with_keys.
  now rewrite (ensure_key_id "pages"), (ensure_key_id "page_topics"),
    (ensure_key_id "settings"), (ensure_key_id "crawl_queue").
Qed.

Lemma four_keys_set (k : string) (v db : json) : four_keys db -> four_keys (set k v db).
Proof.
  intros (D & A & B & C & E). unfold four_keys. rewrite is_dict_set.
  assert (forall k', has k' db = true -> has k' (set k v db) = true).
  { intros k' H. destruct (String.eqb k' k) eqn:Ek.
    - apply String.eqb_eq in Ek; subst. now apply has_set_same.
    - apply String.eqb_neq in Ek. now rewrite has_set_other. }
  auto 10.
Qed.
(** The normalizer after its first steps, on a dict with the four keys. *)
Lemma verify_with_keys (now : nat -> string) (db : json) :
  is_dict db = true ->
  verify_and_fix_structure py_hash now db =
  let db := with_keys db in
  match iterate (get "pages" db) with
  | None => Raised db
  | Some ps =>
      let (ps', ok) := fix_pages py_hash now 0 ps in
      let db' := match get "pages" db with
                 | JArr _ => set "pages" (JArr ps') db
                 | _ => db
                 end in
      if negb ok then Raised db'
      else
        match page_ids ps' with
        | None => Raised db'
        | Some ids =>
            match iterate (get "page_topics" db') with
            | None => Raised db'
            | Some ts =>
                match valid_topics ids ts with
                | None => Raised db'
                | Some valid => Done (set "page_topics" (JArr valid) db')
                end
            end
        end
  end.
Proof. intros D. unfold verify_and_fix_structure, with_keys. now rewrite D. Qed.

(** What a normal return of the normalizer on a dict tells. *)
Lemma verify_done (now : nat -> string) (db db' : json) :
  is_dict db = true ->
  verify_and_fix_structure py_hash now db = Done db' ->
  exists ps ps' ids ts valid,
    iterate (get "pages" (with_keys db)) = Some ps /\
    fix_pages py_hash now 0 ps = (ps', true) /\
    page_ids ps' = Some ids /\
    iterate (get "page_topics" (with_keys db)) = Some ts /\
    valid_topics ids ts = Some valid /\
    iterate (get "pages" db') = Some ps' /\
    get "page_topics" db' = JArr valid /\
    four_keys db' /\
    (forall l, get "pages" (with_keys db) = JArr l -> get "pages" db' = JArr ps').
Proof.
  intros D H. rewrite verify_with_keys in H by assumption. cbv zeta in H.
  pose proof (with_keys_four db D) as K. set (d := with_keys db) in *.
  destruct (iterate (get "pages" d)) as [ps|] eqn:I; [|discriminate].
  destruct (fix_pages py_hash now 0 ps) as [ps' ok] eqn:F.
  destruct ok; simpl in H; [|destruct (get "pages" d); discriminate].
  destruct (page_ids ps') as [ids|] eqn:P;
    [|destruct (get "pages" d); discriminate].
  assert (D1 : is_dict d = true) by apply K.
  set (d' := match get "pages" d with JArr _ => set "pages" (JArr ps') d | _ => d end) in *.
  assert (T : get "page_topics" d' = get "page_topics" d).
  { subst d'. destruct (get "pages" d); auto. now rewrite get_set_other. }
  assert (K' : four_keys d').
  { subst d'. destruct (get "pages" d); auto using four_keys_set. }
  assert (G : iterate (get "pages" d') = Some ps').
  { subst d'. destruct (get "pages" d) eqn:E; simpl in I; try discriminate.
    - inversion I; subst. rewrite E. simpl.
      assert (ps' = chars s); [|congruence].
      clear - F. revert F. generalize 0. generalize ps'. clear.
      induction s as [|c s IH]; simpl; intros ps' n F.
      + now inversion F.
      + destruct (fix_pages py_hash now (S n) (chars s)) as [r ok] eqn:F'.
        inversion F; subst. f_equal. eauto.
    - rewrite get_set_same; auto.
    - inversion I; subst. rewrite E. simpl.
      assert (ps' = map (fun kv => JStr (fst kv)) m); [|congruence].
      clear - F. revert F. generalize 0. generalize ps'. clear.
      induction m as [|c s IH]; simpl; intros ps' n F.
      + now inversion F.
      + destruct (fix_pages py_hash now (S n) (map (fun kv => JStr (fst kv)) s)) as [r ok] eqn:F'.
        inversion F; subst. f_equal. eauto. }
  rewrite T in H.
  destruct (iterate (get "page_topics" d)) as [ts|] eqn:IT; [|discriminate].
  destruct (valid_topics ids ts) as [valid|] eqn:V; [|discriminate].
  inversion H; subst db'; clear H.
  exists ps, ps', ids, ts, valid. repeat split; auto.
  - rewrite get_set_other by discriminate. exact G.
  - rewrite get_set_same; auto. apply K'.
  - rewrite is_dict_set. apply K'.
  - destruct K' as (_ & A & _). rewrite has_set_other; auto. discriminate.
  - apply has_set_same. apply K'.
  - destruct K' as (_ & _ & _ & A & _). rewrite has_set_other; auto. discriminate.
  - destruct K' as (_ & _ & _ & _ & A). rewrite has_set_other; auto. discriminate.
  - intros l E. rewrite get_set_other by discriminate. subst d'. rewrite E.
    rewrite get_set_same; auto.
Qed.
Lemma truthy_get_has (k : string) (x : json) :
  truthy (get k x) = true -> has k x = true.
Proof.
  destruct x; simpl; try discriminate. unfold dict_has.
  destruct (dict_get k m); auto; discriminate.
Qed.

Lemma get_with_keys (k : string) (db : json) :
  has k db = true -> get k (with_keys db) = get k db.
Proof.
  intros H. unfold with_keys.
  assert (E : forall k' v x, has k x = true ->
                get k (ensure_key k' v x) = get k x /\ has k (ensure_key k' v x) = true).
  { intros k' v x Hx. unfold ensure_key. destruct (has k' x) eqn:Hk; auto.
    destruct (String.eqb k k') eqn:Ek.
    - apply String.eqb_eq in Ek. subst. congruence.
    - apply String.eqb_neq in Ek. now rewrite get_set_other, has_set_other. }
  destruct (E "pages" (JArr []) db H) as [A1 B1]. rewrite <- A1.
  destruct (E "page_topics" (JArr []) _ B1) as [A2 B2]. rewrite <- A2.
  destruct (E "settings" (JObj []) _ B2) as [A3 B3]. rewrite <- A3.
  destruct (E "crawl_queue" (JArr []) _ B3) as [A4 B4]. now rewrite <- A4.
Qed.

Lemma id_in_spec (x : json) (ids : list json) :
  id_in x ids = true <-> exists v, In v ids /\ eq v x = true.
Proof. unfold id_in. apply existsb_exists. Qed.

(** Nothing but [None] is equal to [None]. *)
Lemma eq_none_r (x : json) : eq x JNull = true -> x = JNull.
Proof. destruct x; simpl; try discriminate; auto. Qed.

Lemma eq_none_l (x : json) : eq JNull x = true -> x = JNull.
Proof. destruct x; simpl; try discriminate; auto. Qed.

(** On values that can be hashed, [==] does not depend on the side. *)
Lemma eq_sym_hashable (a b : json) : hashable a = true -> eq a b = eq b a.
Proof.
  destruct a, b; simpl; intros H; try reflexivity; try discriminate.
  - now destruct b, b0.
  - apply Z.eqb_sym.
  - apply Z.eqb_sym.
  - apply Z.eqb_sym.
  - apply String.eqb_sym.
Qed.

(** C2.  Referential integrity after the normalizer: when
    [verify_and_fix_structure] returns, [page_topics] is a list in which
    every relation has a [page_id] equal to the [id] of some entry of
    [pages]; so a relation whose [page_id] equals no entry's id is not in
    it. *)
Theorem normalizer_referential_integrity (now : nat -> string) (db db' : json) :
  verify_and_fix_structure py_hash now db = Done db' ->
  exists ps ts,
    iterate (get "pages" db') = Some ps /\
    get "page_topics" db' = JArr ts /\
    (forall t, In t ts ->
       exists p, In p ps /\ has "id" p = true /\
                 eq (get "id" p) (get "page_id" t) = true) /\
    (forall t, (forall p, In p ps -> eq (get "id" p) (get "page_id" t) = false) ->
               ~ In t ts).
Proof.
  intros H.
  assert (X : exists ps ts,
             iterate (get "pages" db') = Some ps /\
             get "page_topics" db' = JArr ts /\
             (forall t, In t ts ->
                exists p, In p ps /\ has "id" p = true /\
                          eq (get "id" p) (get "page_id" t) = true)).
  { destruct (is_dict db) eqn:D.
    - destruct (verify_done now db db' D H)
        as (ps & ps' & ids & ts & valid & _ & _ & P & _ & V & G & T & _).
      exists ps', valid. repeat split; auto. intros t N.
      destruct (valid_topics_spec _ _ _ V t N) as (_ & _ & _ & _ & _ & M).
      apply id_in_spec in M. destruct M as [v [Hv E]].
      destruct (page_ids_spec _ _ P) as [_ B]. apply B in Hv.
      destruct Hv as [p [Hp [Hid Ht]]]. exists p. subst v.
      auto using truthy_get_has.
    - unfold verify_and_fix_structure in H. rewrite D in H. simpl in H.
      inversion H; subst. exists [], []. repeat split; auto. intros t []. }
  destruct X as (ps & ts & A & B & C). exists ps, ts. repeat split; auto.
  intros t Hno N. destruct (C t N) as [p [Hp [_ E]]]. rewrite (Hno p Hp) in E.
  discriminate.
Qed.

(** C10.  An entry that has neither [url] nor [id] gets no [id] from the
    normalizer (it gets a title at most), and no relation that is kept
    has a [page_id] equal to what [get('id')] gives for that entry. *)
Theorem normalizer_no_id_without_url (now : nat -> string) (db db' : json)
  (ps : list json) (k : nat) (p : json) :
  verify_and_fix_structure py_hash now db = Done db' ->
  get "pages" db = JArr ps ->
  nth_error ps k = Some p ->
  has "url" p = false ->
  has "id" p = false ->
  exists ps' p' ts,
    get "pages" db' = JArr ps' /\ nth_error ps' k = Some p' /\
    has "id" p' = false /\ has "title" p' = true /\
    get "page_topics" db' = JArr ts /\
    forall t, In t ts ->
      eq (get "id" p') (get "page_id" t) = false /\
      eq (get "page_id" t) (get "id" p') = false.
Proof.
  intros H G N U I.
  assert (D : is_dict db = true) by (destruct db; try discriminate; auto).
  assert (Hp : has "pages" db = true).
  { destruct db; try discriminate. simpl in *. unfold dict_has.
    destruct (dict_get "pages" m); auto; discriminate. }
  destruct (verify_done now db db' D H)
    as (ps0 & ps' & ids & ts & valid & It & F & P & _ & V & _ & T & _ & L).
  rewrite (get_with_keys _ _ Hp), G in It, L. simpl in It. inversion It; subst ps0.
  destruct (fix_pages_nth now ps 0 ps' k p F N) as [p' [N' E]].
  exists ps', p', valid. split; [eapply L; eauto|]. split; auto.
  assert (Dp : is_dict p' = true).
  { destruct (page_ids_spec _ _ P) as [A _]. rewrite Forall_forall in A.
    apply A. eapply nth_error_In; eauto. }
  assert (I' : has "id" p' = false) by (eapply fix_page_no_id; eauto).
  split; auto. split.
  { eapply fix_page_title; eauto. erewrite <- fix_page_dict; eauto. }
  split; auto. intros t Ht.
  assert (Gid : get "id" p' = JNull).
  { destruct p'; try discriminate. simpl in *. unfold dict_has in I'.
    destruct (dict_get "id" m); auto; discriminate. }
  rewrite Gid.
  destruct (valid_topics_spec _ _ _ V t Ht) as (_ & _ & _ & _ & _ & M).
  apply id_in_spec in M. destruct M as [v [Hv E']].
  destruct (page_ids_spec _ _ P) as [_ B]. apply B in Hv.
  destruct Hv as [q [_ [_ Tv]]].
  split.
  - destruct (eq JNull (get "page_id" t)) eqn:X; auto.
    apply eq_none_l in X. rewrite X in E'. apply eq_none_r in E'. subst v. discriminate.
  - destruct (eq (get "page_id" t) JNull) eqn:X; auto.
    apply eq_none_r in X. rewrite X in E'. apply eq_none_r in E'. subst v. discriminate.
Qed.
Lemma fix_pages_not_dict (now : nat -> string) (ps : list json) :
  Forall (fun p => is_dict p = false) ps ->
  forall i, fix_pages py_hash now i ps = (ps, true).
Proof.
  induction 1 as [|p ps Hp _ IH]; intros i; simpl; auto.
  unfold fix_page. rewrite Hp. simpl. now rewrite IH.
Qed.

Lemma iterate_not_list (x : json) (ps : list json) :
  iterate x = Some ps -> (forall l, x <> JArr l) ->
  Forall (fun p => is_dict p = false) ps.
Proof.
  destruct x; simpl; intros H Hl; try discriminate; inversion H; subst.
  - clear. induction s; simpl; auto.
  - now destruct (Hl ps).
  - clear. induction m; simpl; auto.
Qed.

(** The database after the loop over the pages: it holds the pages as the
    loop left them, and a second run of the loop leaves it as it is. *)
Lemma pages_after_loop (now now' : nat -> string) (d : json) (ps ps' : list json)
  (ok : bool) :
  is_dict d = true ->
  iterate (get "pages" d) = Some ps ->
  fix_pages py_hash now 0 ps = (ps', ok) ->
  let d' := match get "pages" d with
            | JArr _ => set "pages" (JArr ps') d
            | _ => d
            end in
  iterate (get "pages" d') = Some ps' /\
  fix_pages py_hash now' 0 ps' = (ps', ok) /\
  match get "pages" d' with
  | JArr _ => set "pages" (JArr ps') d'
  | _ => d'
  end = d'.
Proof.
  intros D I F d'. pose proof (fix_pages_again now now' ps 0 0 ps' ok F) as F'.
  destruct (get "pages" d) eqn:E; subst d'; rewrite ?E;
    try (simpl in I; discriminate).
  - assert (N : Forall (fun p => is_dict p = false) ps).
    { apply (iterate_not_list (JStr s)); auto. discriminate. }
    rewrite (fix_pages_not_dict now ps N 0) in F. inversion F; subst. auto.
  - rewrite get_set_same by assumption. simpl. rewrite set_set_same. auto.
  - assert (N : Forall (fun p => is_dict p = false) ps).
    { apply (iterate_not_list (JObj m)); auto. discriminate. }
    rewrite (fix_pages_not_dict now ps N 0) in F. inversion F; subst. auto.
Qed.

(** C3.  The normalizer is idempotent: run on the database it has left
    (normally or through an exception), it leaves the same database in the
    same way, whatever the clock shows during the second run. *)
Theorem normalizer_idempotent (now now' : nat -> string) (db : json) :
  verify_and_fix_structure py_hash now'
    (state_of (verify_and_fix_structure py_hash now db))
  = verify_and_fix_structure py_hash now db.
Proof.
  destruct (is_dict db) eqn:D.
  2: { unfold verify_and_fix_structure at 2 3. rewrite D. reflexivity. }
  rewrite (verify_with_keys now db D). cbv zeta.
  pose proof (with_keys_four db D) as K. set (d := with_keys db) in *.
  assert (Dd : is_dict d = true) by apply K.
  destruct (iterate (get "pages" d)) as [ps|] eqn:I.
  2: { simpl. rewrite verify_with_keys by assumption. rewrite (with_keys_id d K).
       cbv zeta. now rewrite I. }
  destruct (fix_pages py_hash now 0 ps) as [ps' ok] eqn:F.
  destruct (pages_after_loop now now' d ps ps' ok Dd I F) as (I' & F' & S').
  set (d' := match get "pages" d with JArr _ => set "pages" (JArr ps') d | _ => d end) in *.
  assert (K' : four_keys d').
  { subst d'. destruct (get "pages" d); auto using four_keys_set. }
  assert (Dd' : is_dict d' = true) by apply K'.
  (* the second run, started from [d'] *)
  assert (R : verify_and_fix_structure py_hash now' d' =
              if negb ok then Raised d'
              else match page_ids ps' with
                   | None => Raised d'
                   | Some ids =>
                       match iterate (get "page_topics" d') with
                       | None => Raised d'
                       | Some ts =>
                           match valid_topics ids ts with
                           | None => Raised d'
                           | Some valid => Done (set "page_topics" (JArr valid) d')
                           end
                       end
                   end).
  { rewrite verify_with_keys by assumption. rewrite (with_keys_id d' K'). cbv zeta.
    rewrite I', F', S'. reflexivity. }
  destruct ok; simpl negb; cbv iota; [|simpl; rewrite R; reflexivity].
  destruct (page_ids ps') as [ids|] eqn:P; [|simpl; rewrite R; reflexivity].
  destruct (iterate (get "page_topics" d')) as [ts|] eqn:IT;
    [|simpl; rewrite R; reflexivity].
  destruct (valid_topics ids ts) as [valid|] eqn:V;
    [|simpl; rewrite R; reflexivity].
  (* the first run returned normally *)
  simpl state_of. set (s := set "page_topics" (JArr valid) d').
  assert (Ks : four_keys s) by (apply four_keys_set; assumption).
  assert (Gp : get "pages" s = get "pages" d').
  { subst s. now rewrite get_set_other by discriminate. }
  rewrite verify_with_keys by apply Ks. rewrite (with_keys_id s Ks). cbv zeta.
  rewrite Gp, I', F'. simpl negb. cbv iota. rewrite P.
  assert (Ss : match get "pages" d' with
               | JArr _ => set "pages" (JArr ps') s
               | _ => s
               end = s).
  { destruct (get "pages" d') eqn:E; auto.
    replace (JArr ps') with (get "pages" s)
      by (simpl in I'; congruence).
    apply set_same_value. apply Ks. }
  rewrite Ss.
  assert (Gt : get "page_topics" s = JArr valid).
  { subst s. now rewrite get_set_same. }
  rewrite Gt. simpl iterate. cbv iota. rewrite (valid_topics_again _ _ _ V).
  subst s. now rewrite set_set_same.
Qed.
End Normalizer.

(** ** Text *)

Lemma append_assoc (a b c : string) : ((a ++ b) ++ c = a ++ (b ++ c))%string.
Proof. induction a; simpl; congruence. Qed.

Lemma append_nil_r (a : string) : (a ++ EmptyString)%string = a.
Proof. induction a; simpl; congruence. Qed.

Lemma length_append (a b : string) :
  String.length (a ++ b) = String.length a + String.length b.
Proof. induction a; simpl; auto. Qed.

Lemma drop_append (a b : string) : drop (String.length a) (a ++ b) = b.
Proof. induction a; simpl; auto. Qed.

Lemma take_append (a b : string) : take (String.length a) (a ++ b) = a.
Proof. induction a; simpl; congruence. Qed.

Lemma take_drop (n : nat) (s : string) : (take n s ++ drop n s)%string = s.
Proof.
  revert s. induction n; intros s; simpl; auto.
  destruct s; simpl; auto. now rewrite IHn.
Qed.

Lemma length_take (n : nat) (s : string) :
  n <= String.length s -> String.length (take n s) = n.
Proof.
  revert s. induction n; intros s H; simpl; auto.
  destruct s; simpl in *; [lia|]. rewrite IHn; auto. lia.
Qed.

(** ** The bracket scanner *)

Section ScannerFacts.

Import Scanner.

Variables opener closer : ascii.
Hypothesis opener_not_closer : opener <> closer.
Hypothesis opener_plain : opener <> dquote /\ opener <> backslash.
Hypothesis closer_plain : closer <> dquote /\ closer <> backslash.

Local Abbreviation loop := (scan_loop opener closer).

Lemma neq_eqb (a b : ascii) : a <> b -> Ascii.eqb a b = false.
Proof. intros H. now apply Ascii.eqb_neq. Qed.

(** Inside a quoted string the scan goes on to the closing quote and
    leaves the depth alone. *)
Lemma scan_string_body (q : string) :
  string_body q ->
  forall rest i d,
    loop (q ++ String dquote rest) i (Flags d true false)
    = loop rest (i + String.length q + 1) (Flags d false false).
Proof.
  induction 1 as [|c s Hq Hb _ IH|c s _ IH]; intros rest i d.
  - simpl. unfold step. simpl. f_equal. lia.
  - simpl. unfold step. simpl.
    rewrite (neq_eqb _ _ Hb), (neq_eqb _ _ Hq).
    rewrite IH. f_equal. lia.
  - simpl. unfold step. simpl.
    rewrite IH. f_equal. lia.
Qed.

(** Over balanced text, at a depth of one or more and outside a string,
    the scan comes out as it went in. *)
Lemma scan_balanced (s : string) :
  balanced opener closer s ->
  forall rest i d,
    (1 <= d)%Z ->
    loop (s ++ rest) i (Flags d false false)
    = loop rest (i + String.length s) (Flags d false false).
Proof.
  induction 1 as [|c s Ho Hc Hq Hb _ IH|q s Hq _ IH|a s _ IHa _ IHs];
    intros rest i d Hd.
  - simpl. f_equal. lia.
  - simpl. unfold step. simpl.
    rewrite (neq_eqb _ _ Hb), (neq_eqb _ _ Hq), (neq_eqb _ _ Ho), (neq_eqb _ _ Hc).
    rewrite IH by assumption. f_equal. lia.
  - simpl. unfold step. simpl.
    rewrite append_assoc. simpl.
    rewrite scan_string_body by assumption. rewrite IH by assumption.
    f_equal. rewrite length_append. simpl. lia.
  - destruct opener_plain as [O1 O2]. destruct closer_plain as [C1 C2].
    simpl. unfold step. simpl.
    rewrite (neq_eqb _ _ O2), (neq_eqb _ _ O1), Ascii.eqb_refl.
    rewrite append_assoc. simpl.
    rewrite IHa by lia. simpl. unfold step. simpl.
    rewrite (neq_eqb _ _ C2), (neq_eqb _ _ C1).
    rewrite (neq_eqb closer opener) by congruence. rewrite Ascii.eqb_refl.
    replace (d + 1 - 1)%Z with d by lia.
    destruct (Z.eqb_spec d 0); [lia|].
    rewrite IHs by assumption.
    f_equal. rewrite length_append. simpl. lia.
Qed.

(** A scan that starts at a depth of one or more never runs out of text
    at depth 0. *)
Lemma scan_exhausted_depth (s : string) :
  forall i d q e d',
    (1 <= d)%Z ->
    loop s i (Flags d q e) = Exhausted d' -> (1 <= d')%Z.
Proof.
  induction s as [|c s IH]; intros i d q e d' Hd; simpl.
  - intros H. inversion H; subst. exact Hd.
  - unfold step. simpl.
    destruct e; [apply IH; assumption|].
    destruct (Ascii.eqb c backslash); [apply IH; assumption|].
    destruct (Ascii.eqb c dquote); [apply IH; assumption|].
    destruct q; simpl; [apply IH; assumption|].
    destruct (Ascii.eqb c opener); [apply IH; lia|].
    destruct (Ascii.eqb c closer); [|apply IH; assumption].
    destruct (Z.eqb_spec (d - 1) 0); [discriminate|]. apply IH. lia.
Qed.

(** A scan that closes beyond a prefix runs out of text on that prefix. *)
Lemma scan_prefix (u v : string) :
  forall i f j,
    loop (u ++ v) i f = Closed j -> i + String.length u <= j ->
    exists d, loop u i f = Exhausted d.
Proof.
  induction u as [|c u IH]; intros i f j H L; simpl in *.
  - eauto.
  - destruct (step opener closer f c) as [f'|] eqn:E.
    + apply (IH (S i) f' j); auto. lia.
    + inversion H; subst. lia.
Qed.

(** The scan from an opener. *)
Lemma scan_from_opener (pre s : string) :
  scan opener closer (pre ++ String opener s) (String.length pre)
  = loop s (S (String.length pre)) (Flags 1 false false).
Proof.
  destruct opener_plain as [O1 O2].
  unfold scan. rewrite drop_append. simpl. unfold step. simpl.
  now rewrite (neq_eqb _ _ O2), (neq_eqb _ _ O1), Ascii.eqb_refl.
Qed.

(** The scanner on a balanced group: from the index of the opener it
    returns the index of the closer of the group, whatever follows; and on
    a buffer that ends inside the group it runs out at a non-zero depth. *)
Lemma scan_group (pre body rest : string) :
  balanced opener closer body ->
  scan opener closer (pre ++ String opener (body ++ String closer rest))
    (String.length pre)
  = Closed (String.length pre + String.length body + 1).
Proof.
  destruct closer_plain as [C1 C2].
  intros B. rewrite scan_from_opener.
  rewrite scan_balanced by (auto; lia).
  simpl. unfold step. simpl.
  rewrite (neq_eqb _ _ C2), (neq_eqb _ _ C1).
  rewrite (neq_eqb closer opener) by congruence. rewrite Ascii.eqb_refl.
  simpl. f_equal. lia.
Qed.

Lemma scan_group_cut (pre body : string) (n : nat) :
  balanced opener closer body ->
  n <= String.length body ->
  exists d,
    scan opener closer (pre ++ String opener (take n body)) (String.length pre)
    = Exhausted d /\ d <> 0%Z.
Proof.
  intros B L. rewrite scan_from_opener.
  pose proof (scan_group pre body EmptyString B) as G.
  rewrite scan_from_opener in G.
  rewrite <- (take_drop n body) in G at 1. rewrite append_assoc in G.
  destruct (scan_prefix _ _ _ _ _ G) as [d Hd].
  { rewrite length_take by assumption. lia. }
  exists d. split; auto.
  apply scan_exhausted_depth in Hd; lia.
Qed.

End ScannerFacts.

(** C4.  The bracket scanner.  On a buffer that holds, from the index of
    an opening brace, a group whose content is balanced (strings opaque,
    escapes included), the scan returns the index of the closing brace of
    the group, whatever comes before and after; on a buffer that ends
    inside the group it runs out of text at a non-zero depth, which is how
    the caller learns that the object is incomplete; and on the buffer of
    the example it returns 40, the index of the last character. *)
Theorem bracket_scanner_correct (pre body rest : string) :
  balanced "{" "}" body ->
  Scanner.scan_object (pre ++ String "{" (body ++ String "}" rest))
    (String.length pre)
  = Scanner.Closed (String.length pre + String.length body + 1)
  /\ (forall n, n <= String.length body ->
        exists d,
          Scanner.scan_object (pre ++ String "{" (take n body)) (String.length pre)
          = Scanner.Exhausted d /\ d <> 0%Z)
  /\ (let buffer := lit "{`content`:`a {nested} \`quoted\` brace`}" in
      Scanner.scan_object buffer 0 = Scanner.Closed 40
      /\ String.length buffer = 41
      /\ find "}" buffer = Some 21).
Proof.
  intros B.
  assert (O : "{"%char <> "}"%char) by discriminate.
  assert (P : "{"%char <> dquote /\ "{"%char <> backslash) by (split; discriminate).
  assert (Q : "}"%char <> dquote /\ "}"%char <> backslash) by (split; discriminate).
  split; [|split].
  - apply scan_group; assumption.
  - intros n L. apply scan_group_cut; assumption.
  - repeat split; reflexivity.
Qed.

(** The scanner theorem at a sample buffer: an object inside an array,
    with a closing brace inside a string. *)
Lemma bracket_scanner_correct_witness :
  Scanner.scan_object (lit "[{`a`:`}`}, {`b`:1}]") 1 = Scanner.Closed 9
  /\ exists d, Scanner.scan_object (lit "[{`a`:`}") 1 = Scanner.Exhausted d /\ d <> 0%Z.
Proof.
  assert (B : balanced "{" "}" (lit "`a`:`}`")).
  { apply (bal_string "{" "}" "a" (String ":" (String dquote (String "}" (String dquote EmptyString))))).
    - apply sb_char; [discriminate|discriminate|apply sb_end].
    - apply bal_char; try discriminate.
      apply (bal_string "{" "}" "}" EmptyString).
      + apply sb_char; [discriminate|discriminate|apply sb_end].
      + apply bal_end. }
  destruct (bracket_scanner_correct "[" (lit "`a`:`}`") (lit ", {`b`:1}]") B)
    as [C [I _]].
  split.
  - exact C.
  - apply (I 6). simpl. lia.
Defined.

(** ** The normalizer on the sample database *)

(** Referential integrity at the sample database. *)
Lemma normalizer_referential_integrity_witness :
  let db' := state_of (verify_and_fix_structure sample_hash sample_clock sample_db) in
  exists ps ts,
    iterate (get "pages" db') = Some ps /\
    get "page_topics" db' = JArr ts /\
    (forall t, In t ts ->
       exists p, In p ps /\ has "id" p = true /\
                 eq (get "id" p) (get "page_id" t) = true) /\
    (forall t, (forall p, In p ps -> eq (get "id" p) (get "page_id" t) = false) ->
               ~ In t ts).
Proof.
  apply (normalizer_referential_integrity sample_hash sample_clock sample_db).
  vm_compute. reflexivity.
Defined.

(** The second page of the sample database has neither url nor id. *)
Lemma normalizer_no_id_without_url_witness :
  let db' := state_of (verify_and_fix_structure sample_hash sample_clock sample_db) in
  exists ps' p' ts,
    get "pages" db' = JArr ps' /\ nth_error ps' 1 = Some p' /\
    has "id" p' = false /\ has "title" p' = true /\
    get "page_topics" db' = JArr ts /\
    forall t, In t ts ->
      eq (get "id" p') (get "page_id" t) = false /\
      eq (get "page_id" t) (get "id" p') = false.
Proof.
  apply (normalizer_no_id_without_url sample_hash sample_clock sample_db _
           [JObj [("id", JInt 1); ("url", JStr "http://a")];
            JObj [("title", JStr "no url")]]
           1 (JObj [("title", JStr "no url")])).
  - vm_compute. reflexivity.
  - reflexivity.
  - reflexivity.
  - reflexivity.
  - reflexivity.
Defined.

(** The normalizer evaluated on the sample database. *)
Example normalizer_on_sample :
  verify_and_fix_structure sample_hash sample_clock sample_db
  = Done (JObj [("pages",
                 JArr [JObj [("id", JInt 1); ("url", JStr "http://a");
                             ("title", JStr "Untitled");
                             ("date_archived", JStr "2024-01-01T00:00:00")];
                       JObj [("title", JStr "no url");
                             ("date_archived", JStr "2024-01-01T00:00:00")]]);
                ("page_topics", JArr [JObj [("topic", JStr "x"); ("page_id", JInt 1)]]);
                ("settings", JObj []); ("crawl_queue", JArr [])]).
Proof. vm_compute. reflexivity. Qed.

(** ** Salvage, topic lookup, settings *)

(** C8.  The text that holds nothing but a url field: the whole-document
    parse fails, the pattern extractor finds no page in it, and
    [load_file] succeeds with the one page that [recover_basic_pages]
    builds, with id 1, the default title and the default description. *)
Theorem salvage_single_url (py_hash : json -> Z) (now : nat -> string) :
  let text := lit "`url`: `http://example.com/a`" in
  let page := JObj [("id", JInt 1);
                    ("url", JStr "http://example.com/a");
                    ("title", JStr "Unknown");
                    ("description", JStr "Recovered from partially corrupt data");
                    ("date_archived", JStr (now 0))] in
  Json.loads text = None
  /\ get "pages" (extract_full_database empty_database text) = JArr []
  /\ get "pages" (extract_objects empty_database text) = JArr []
  /\ get "pages" (recover_basic_pages now empty_database text) = JArr [page]
  /\ load_file py_hash now (Some text)
     = (true, JObj [("pages", JArr [page]); ("page_topics", JArr []);
                    ("settings", JObj []); ("crawl_queue", JArr [])]).
Proof. cbv zeta. repeat split; vm_compute; reflexivity. Qed.

(** C9 (the code against the claim).  Inline topics that are a non-empty
    list make [get_page_topics] raise, though [print_stats] accepts them;
    inline topics that are a non-empty string are split on commas, trimmed,
    and the empty pieces dropped. *)
Theorem get_page_topics_inline (db : json) (fields : dict) :
  (forall x xs,
      get_page_topics db (JObj (("topics", JArr (x :: xs)) :: fields)) = None
      /\ page_topics_ok (JObj (("topics", JArr (x :: xs)) :: fields))
         = forallb hashable (x :: xs))
  /\ (forall c s,
         get_page_topics db (JObj (("topics", JStr (String c s)) :: fields))
         = Some (map JStr (split_topics (String c s))))
  /\ get_page_topics
       (JObj [("page_topics", JArr [JObj [("topic", JStr "x"); ("page_id", JInt 1)]])])
       (JObj [("id", JInt 1); ("topics", JArr [JStr "a"; JStr "b"])]) = None
  /\ split_topics " a, b ,,c " = ["a"; "b"; "c"].
Proof.
  split; [|split; [|split]].
  - intros x xs. split; reflexivity.
  - intros c s. reflexivity.
  - reflexivity.
  - reflexivity.
Qed.

(** The relations used when there are no inline topics: those whose
    page_id equals a truthy id of the page and whose topic is truthy. *)
Lemma get_page_topics_relations (db : json) (page : json) (ts : list json) :
  truthy (get "topics" page) = false ->
  get "page_topics" db = JArr ts ->
  Forall (fun t => is_dict t = true) ts ->
  get_page_topics db page
  = Some (if truthy (get "id" page)
          then map (get "topic")
                 (filter (fun t => eq (get "page_id" t) (get "id" page)
                                   && truthy (get "topic" t)) ts)
          else []).
Proof.
  intros T G F. unfold get_page_topics. rewrite T, G.
  destruct ts as [|t0 ts0]; [simpl; now destruct (truthy (get "id" page))|].
  simpl truthy. cbv iota. destruct (truthy (get "id" page)); auto.
  simpl iterate. cbv iota. clear G. induction F as [|t ts Ht _ IH]; auto.
  simpl. rewrite Ht, IH. simpl.
  now destruct (eq (get "page_id" t) (get "id" page) && truthy (get "topic" t)).
Qed.

Lemma dict_get_app (k : string) (a b : dict) :
  dict_get k (a ++ b)
  = match dict_get k a with Some v => Some v | None => dict_get k b end.
Proof.
  induction a as [|[k' v'] a IH]; simpl; auto.
  destruct (String.eqb k k'); auto.
Qed.

(** [d.update(e)] read at a key: the last value [e] gives to the key, or
    the value it had in [d] when [e] does not mention it. *)
Lemma dict_get_update (k : string) (e : dict) :
  forall d,
    dict_get k (dict_update d e)
    = match dict_get k (rev e) with
      | Some v => Some v
      | None => dict_get k d
      end.
Proof.
  unfold dict_update. induction e as [|[k0 v0] e IH]; intros d; simpl; auto.
  rewrite IH, dict_get_app. simpl.
  destruct (dict_get k (rev e)); auto.
  destruct (String.eqb k k0) eqn:E.
  - apply String.eqb_eq in E. subst. apply dict_get_set_same.
  - apply String.eqb_neq in E. now apply dict_get_set_other.
Qed.

Lemma dict_get_rev_none (k : string) (e : dict) :
  dict_get k e = None -> dict_get k (rev e) = None.
Proof.
  induction e as [|[k0 v0] e IH]; simpl; auto.
  destruct (String.eqb k k0) eqn:E; [discriminate|]. intros H.
  rewrite dict_get_app, (IH H). simpl. now rewrite E.
Qed.

(** The loops of [extract_objects] over pages and relations leave every
    other key of the database alone. *)
Lemma extract_page_get (k : string) (db : json) (page_json : string) :
  k <> "pages" -> get k (extract_page db page_json) = get k db.
Proof.
  intros H. unfold extract_page.
  repeat match goal with
         | |- context [match ?x with _ => _ end] => destruct x
         end; auto; now rewrite get_set_other.
Qed.

Lemma extract_topic_get (k : string) (db : json) (topic_json : string) :
  k <> "page_topics" -> get k (extract_topic db topic_json) = get k db.
Proof.
  intros H. unfold extract_topic.
  repeat match goal with
         | |- context [match ?x with _ => _ end] => destruct x
         end; auto; now rewrite get_set_other.
Qed.

Lemma fold_left_get {A : Type} (f : json -> A -> json) (k : string) (l : list A) :
  (forall db x, get k (f db x) = get k db) ->
  forall db, get k (fold_left f l db) = get k db.
Proof.
  intros H. induction l as [|x l IH]; intros db; simpl; auto.
  now rewrite IH, H.
Qed.

Lemma is_dict_get (k : string) (db : json) (d : dict) :
  get k db = JObj d -> is_dict db = true.
Proof. destruct db; simpl; auto; discriminate. Qed.

(** C6, as the code has it.  [extract_objects] merges the settings object
    it finds into the settings it has, with [dict.update]: a key the new
    object mentions takes its value, every other key keeps its own; the
    fragments of the example, extracted one after the other, leave both
    keys.  The settings step of [extract_other_data] assigns the object it
    finds in place of the settings. *)
Theorem extract_objects_merges_settings (db : json) (text : string) (d : dict) :
  get "settings" db = JObj d ->
  get "settings" (extract_objects db text)
  = JObj (dict_update d (found_settings text))
  /\ (forall k, dict_get k (found_settings text) = None ->
        dict_get k (dict_update d (found_settings text)) = dict_get k d)
  /\ (forall k v, dict_get k (rev (found_settings text)) = Some v ->
        dict_get k (dict_update d (found_settings text)) = Some v)
  /\ get "settings"
       (extract_objects (extract_objects empty_database (lit "`settings`: {`a`:1}"))
          (lit "`settings`: {`b`:2}"))
     = JObj [("a", JInt 1); ("b", JInt 2)]
  /\ get "settings" (extract_other_data db text)
     = match parsed_settings text with
       | Some e => JObj e
       | None => JObj d
       end.
Proof.
  intros G. pose proof (is_dict_get _ _ _ G) as D.
  split; [|split; [|split; [|split]]].
  - unfold extract_objects, merge_settings, found_settings.
    set (db1 := fold_left extract_topic _ _).
    assert (G1 : get "settings" db1 = JObj d).
    { subst db1. rewrite fold_left_get; [rewrite fold_left_get; auto|].
      - intros. apply extract_page_get. discriminate.
      - intros. apply extract_topic_get. discriminate. }
    assert (D1 : is_dict db1 = true) by (eapply is_dict_get; eauto).
    destruct (Re.search Patterns.settings_pattern text); [|exact G1].
    destruct (Json.loads _) as [[| | | | |e]|]; try exact G1.
    rewrite G1. now rewrite get_set_same.
  - intros k H. rewrite dict_get_update. now rewrite dict_get_rev_none.
  - intros k v H. rewrite dict_get_update. now rewrite H.
  - vm_compute. reflexivity.
  - unfold extract_other_data.
    match goal with |- context [assign_settings ?x text] => set (db1 := x) end.
    unfold assign_settings, parsed_settings.
    assert (G1 : get "settings" db1 = JObj d).
    { subst db1.
      repeat match goal with
             | |- context [match ?x with _ => _ end] => destruct x
             end; auto; try (now rewrite get_set_other).
      unfold extract_topics. rewrite fold_left_get; auto.
      intros. apply extract_topic_get. discriminate. }
    assert (D1 : is_dict db1 = true) by (eapply is_dict_get; eauto).
    destruct (Re.search Patterns.settings_pattern text); [|exact G1].
    destruct (Json.loads _) as [[| | | | |e]|]; try exact G1.
    now rewrite get_set_same.
Qed.

(** The merge at a sample database and text: one key kept, one
    overwritten, one added. *)
Lemma extract_objects_merges_settings_witness :
  get "settings"
    (extract_objects
       (JObj [("pages", JArr []); ("settings", JObj [("a", JInt 1); ("c", JInt 3)])])
       (lit "{`settings`: {`b`:2, `c`:4}}"))
  = JObj [("a", JInt 1); ("c", JInt 4); ("b", JInt 2)].
Proof.
  destruct (extract_objects_merges_settings
              (JObj [("pages", JArr []); ("settings", JObj [("a", JInt 1); ("c", JInt 3)])])
              (lit "{`settings`: {`b`:2, `c`:4}}")
              [("a", JInt 1); ("c", JInt 3)] eq_refl) as [H _].
  rewrite H. vm_compute. reflexivity.
Defined.

(** C6, the claim as stated fails: [extract_full_database] puts the
    settings object it finds in place of the settings it has.  With
    settings that hold the key a, the fragment with the key b leaves b
    alone; and within one call, a key that the per-object extraction of the
    same call has merged is lost when the settings step assigns what it
    parses. *)
Lemma settings_replaced_not_merged :
  (let db := extract_objects empty_database (lit "`settings`: {`a`:1}") in
   get "settings" db = JObj [("a", JInt 1)]
   /\ get "settings" (extract_full_database db (lit "`settings`: {`b`:2}"))
      = JObj [("b", JInt 2)]
   /\ get "settings" (extract_full_database db (lit "`settings`: {`b`:2}"))
      <> JObj [("a", JInt 1); ("b", JInt 2)])
  /\ (let text := lit "`settings`: {`a`: `', 'b': '`}" in
      get "settings" (extract_objects empty_database text)
      = JObj [("a", JStr ""); ("b", JStr "")]
      /\ get "settings" (extract_full_database empty_database text)
         = JObj [("a", JStr "', 'b': '")]).
Proof.
  cbv zeta. repeat split; try (vm_compute; reflexivity).
  vm_compute. discriminate.
Qed.

(** ** The matcher *)

Lemma drop_drop (a b : nat) (s : string) : drop a (drop b s) = drop (b + a) s.
Proof.
  revert s. induction b; intros s; simpl; auto.
  destruct s; simpl; auto. now destruct a.
Qed.

Lemma length_drop (n : nat) (s : string) :
  String.length (drop n s) = String.length s - n.
Proof.
  revert s. induction n; intros s; simpl; [lia|]. destruct s; simpl; auto.
Qed.

Section MatcherFacts.

Import Re.

Context {R : Type}.

Lemma reaches_trans (pos pos1 : nat) (rest rest1 : string) (k : @cont R) (x : R) :
  pos <= pos1 -> rest1 = drop (pos1 - pos) rest -> pos1 - pos <= String.length rest ->
  reaches pos1 rest1 k x -> reaches pos rest k x.
Proof.
  intros L E B (p & r & c & H & L' & E' & B').
  exists p, r, c. repeat split; auto; try lia.
  - subst. rewrite drop_drop. f_equal. lia.
  - subst rest1. rewrite length_drop in B'. lia.
Qed.

Lemma star_loop_reaches (body : @matcher R) (greedy : bool) (k : @cont R) :
  (forall pos rest caps k' x, body pos rest caps k' = Some x -> reaches pos rest k' x) ->
  forall fuel pos rest caps x,
    star_loop body greedy k fuel pos rest caps = Some x -> reaches pos rest k x.
Proof.
  intros Hb. induction fuel as [|fuel IH]; intros pos rest caps x H; simpl in H.
  - exists pos, rest, caps. rewrite Nat.sub_diag. simpl. repeat split; auto; lia.
  - assert (A : forall y,
               body pos rest caps
                 (fun pos' rest' caps' =>
                    if pos <? pos' then star_loop body greedy k fuel pos' rest' caps'
                    else None) = Some y -> reaches pos rest k y).
    { intros y Hy. apply Hb in Hy. destruct Hy as (p & r & c & Hy & L & E & B).
      destruct (pos <? p); [|discriminate].
      apply IH in Hy. eapply reaches_trans; eauto. }
    assert (B : forall y, k pos rest caps = Some y -> reaches pos rest k y).
    { intros y Hy. exists pos, rest, caps. rewrite Nat.sub_diag. simpl.
      repeat split; auto; lia. }
    destruct greedy.
    + destruct (body pos rest caps _) eqn:E; [inversion H; subst; auto|auto].
    + destruct (k pos rest caps) eqn:E; [inversion H; subst; auto|auto].
Qed.

Lemma rmatch_reaches (r : regex) :
  forall pos rest caps (k : @cont R) x,
    rmatch r pos rest caps k = Some x -> reaches pos rest k x.
Proof.
  induction r as [p| |a IHa b IHb|a IHa b IHb|g a IHa|n a IHa];
    intros pos rest caps k x H; simpl in H.
  - destruct rest as [|c t]; [discriminate|]. destruct (p c); [|discriminate].
    exists (S pos), t, caps. replace (S pos - pos) with 1 by lia.
    simpl. repeat split; auto; lia.
  - exists pos, rest, caps. rewrite Nat.sub_diag. simpl. repeat split; auto; lia.
  - apply IHa in H. destruct H as (p & r & c & H & L & E & B).
    apply IHb in H. eapply reaches_trans; eauto.
  - destruct (rmatch a pos rest caps k) eqn:E.
    + inversion H; subst. eauto.
    + eauto.
  - eapply star_loop_reaches; eauto.
  - apply IHa in H. destruct H as (p & r & c & H & L & E & B).
    exists p, r, ((n, (pos, p)) :: c). auto.
Qed.

(** A lazy run of any characters before a given character stops at the
    first occurrence of that character, when what follows cannot fail. *)
Lemma lazy_any_until (c : ascii) (k : @cont R) :
  (forall pos rest caps, k pos rest caps <> None) ->
  forall fuel t pos caps,
    String.length t <= fuel ->
    star_loop (rmatch any) false
      (fun pos1 rest1 caps1 => rmatch (ch c) pos1 rest1 caps1 k) fuel pos t caps
    = match find (String c EmptyString) t with
      | Some j => k (pos + j + 1) (drop (j + 1) t) caps
      | None => None
      end.
Proof.
  intros Hk. induction fuel as [|fuel IH]; intros t pos caps L.
  - destruct t; simpl in L; [|lia]. reflexivity.
  - destruct t as [|a t]; [reflexivity|].
    simpl in L. simpl star_loop. simpl find.
    destruct (Ascii.eqb c a) eqn:E; simpl.
    + replace (pos + 0 + 1) with (S pos) by lia.
      destruct (k (S pos) t caps) eqn:Ek; auto. now destruct (Hk (S pos) t caps).
    + assert (Lt : (pos <? S pos) = true) by (apply Nat.ltb_lt; lia).
      rewrite Lt. rewrite IH by lia.
      destruct (find (String c EmptyString) t) as [j|]; simpl; auto.
      f_equal. lia.
Qed.

End MatcherFacts.

(** [re.search] returns a match that starts somewhere in the text. *)
Lemma search_from_match (r : Re.regex) (rest : string) :
  forall pos m,
    Re.search_from r pos rest = Some m ->
    exists n, n <= String.length rest /\
              Re.match_at r (pos + n) (drop n rest) = Some m.
Proof.
  induction rest as [|c t IH]; intros pos m H; simpl in H.
  - destruct (Re.match_at r pos EmptyString) eqn:E; [|discriminate].
    inversion H; subst. exists 0. rewrite Nat.add_0_r. simpl. auto.
  - destruct (Re.match_at r pos (String c t)) eqn:E.
    + inversion H; subst. exists 0. rewrite Nat.add_0_r. simpl. split; auto. lia.
    + apply IH in H. destruct H as [n [L H]]. exists (S n). simpl.
      replace (pos + S n) with (S pos + n) by lia. split; auto. lia.
Qed.

(** ** The array sections *)

Lemma find_char_spec (c : ascii) (t : string) :
  forall j,
    find (String c EmptyString) t = Some j ->
    take (S j) t = (take j t ++ String c EmptyString)%string
    /\ contains (String c EmptyString) (take j t) = false
    /\ S j <= String.length t.
Proof.
  unfold contains.
  induction t as [|a t IH]; intros j H; simpl in H; [discriminate|].
  destruct (Ascii.eqb c a) eqn:E; simpl in H.
  - inversion H; subst. apply Ascii.eqb_eq in E. subst. simpl.
    repeat split; auto. lia.
  - destruct (find (String c EmptyString) t) as [j'|] eqn:F; [|discriminate].
    simpl in H. inversion H; subst. destruct (IH j' eq_refl) as (A & B & C).
    split; [|split].
    + change (take (S (S j')) (String a t)) with (String a (take (S j') t)).
      rewrite A. reflexivity.
    + simpl. rewrite E. simpl.
      destruct (find (String c EmptyString) (take j' t)); [discriminate|reflexivity].
    + simpl. lia.
Qed.

(** A match of the array pattern at [pos]: group 1 starts at a bracket and
    ends with the first closing bracket after it. *)
Lemma array_pattern_match (key : string) (pos : nat) (rest : string) (m : Re.found) :
  Re.match_at (Patterns.array_pattern key) pos rest = Some m ->
  exists a t j,
    pos <= a /\ drop (a - pos) rest = String "[" t /\
    find "]" t = Some j /\
    Re.cap_get 1 (Re.m_caps m) = Some (a, a + j + 2).
Proof.
  unfold Re.match_at, Patterns.array_pattern. cbn [Re.seq Re.rmatch].
  intros H. apply rmatch_reaches in H.
  destruct H as (p & r & c & H & L & E & B).
  cbn [Re.rmatch Re.ch] in H.
  destruct r as [|a t]; [discriminate|].
  destruct (Ascii.eqb "[" a) eqn:Ea; [|discriminate].
  apply Ascii.eqb_eq in Ea. subst a.
  unfold Re.lazy in H. cbn [Re.rmatch] in H.
  change (Re.star_loop (Re.rmatch Re.any) false
            (fun pos1 rest1 caps1 =>
               Re.rmatch (Re.ch "]") pos1 rest1 caps1
                 (fun pos' _ caps' =>
                    Some (Re.Found pos pos' ((1, (p, pos')) :: caps'))))
            (String.length t) (S p) t c = Some m) in H.
  rewrite (lazy_any_until "]"%char) in H; [|discriminate|lia].
  destruct (find "]" t) as [j|] eqn:F; [|discriminate].
  inversion H; subst m. exists p, t, j. simpl.
  repeat split; auto. f_equal. f_equal. lia.
Qed.

Lemma drop_nonempty (a : nat) (s t : string) (c : ascii) :
  drop a s = String c t -> a < String.length s.
Proof.
  revert s. induction a; intros s H; destruct s; simpl in *; try discriminate; try lia.
  apply IHa in H. lia.
Qed.

(** C5, as the code has it.  The array step of [extract_full_database]
    takes the span of group 1 of the pattern for the key: it starts at the
    opening bracket and ends with the first closing bracket after it, with
    no closing bracket in between, wherever that bracket stands.  The
    bracket scan that [extract_other_data] runs from the same opening
    bracket returns the end of the complete array, whenever the content
    of the array is balanced. *)
Theorem array_section_spans (key text : string) (m : Re.found) :
  Re.search (Patterns.array_pattern key) text = Some m ->
  exists a t j,
    Re.group_start 1 m = Some a /\ drop a text = String "[" t /\
    find "]" t = Some j /\
    Re.group 1 text m = String "[" (take j t ++ "]") /\
    contains "]" (take j t) = false /\
    (forall body rest,
        t = (body ++ String "]" rest)%string -> balanced "[" "]" body ->
        Scanner.scan_array text a = Scanner.Closed (a + String.length body + 1) /\
        slice a (a + String.length body + 1 + 1) text = String "[" (body ++ "]")).
Proof.
  intros H. apply search_from_match in H. destruct H as [n [Ln H]].
  apply array_pattern_match in H. destruct H as (a & t & j & L & E & F & C).
  simpl in L. rewrite drop_drop in E. simpl in E.
  replace (n + (a - n)) with a in E by lia.
  destruct (find_char_spec _ _ _ F) as (T1 & T2 & T3).
  exists a, t, j. repeat split; auto.
  - unfold Re.group_start. now rewrite C.
  - unfold Re.group, slice. rewrite C, E.
    replace (a + j + 2 - a) with (S (S j)) by lia.
    change (take (S (S j)) (String "[" t)) with (String "["%char (take (S j) t)).
    now rewrite T1.
  - pose proof (drop_nonempty _ _ _ _ E) as La.
    pose proof (take_drop a text) as TD. rewrite E, H in TD.
    assert (Lp : String.length (take a text) = a) by (apply length_take; lia).
    remember (take a text) as pre eqn:Ep. clear Ep.
    rewrite <- TD, <- Lp.
    apply scan_group; auto; try discriminate; split; discriminate.
  - unfold slice. rewrite E, H.
    replace (a + String.length body + 1 + 1 - a) with (S (String.length body + 1)) by lia.
    change (take (S (String.length body + 1)) (String "[" (body ++ String "]" rest)))
      with (String "["%char (take (String.length body + 1) (body ++ String "]" rest))).
    f_equal.
    change (body ++ String "]" rest)%string
      with (body ++ (String "]" EmptyString ++ rest))%string.
    rewrite <- append_assoc.
    replace (String.length body + 1) with (String.length (body ++ "]")).
    + apply take_append.
    + rewrite length_append. reflexivity.
Qed.

(** The spans at a sample text whose array has a closing bracket inside
    a string. *)
Lemma array_section_spans_witness :
  let text := lit "{`pages`: [{`id`:1, `url`: `a]b`, `title`: `t`}], " in
  let m := Re.Found 1 30 [(1, (10, 30))] in
  exists a t j,
    Re.group_start 1 m = Some a /\ drop a text = String "[" t /\
    find "]" t = Some j /\
    Re.group 1 text m = String "[" (take j t ++ "]") /\
    contains "]" (take j t) = false /\
    (forall body rest,
        t = (body ++ String "]" rest)%string -> balanced "[" "]" body ->
        Scanner.scan_array text a = Scanner.Closed (a + String.length body + 1) /\
        slice a (a + String.length body + 1 + 1) text = String "[" (body ++ "]")).
Proof.
  apply (array_section_spans "pages").
  vm_compute. reflexivity.
Defined.

(** C5, the claim as stated fails.  With a closing bracket inside a
    string value, or with a nested array, the span that the pages step of
    [extract_full_database] takes ends at that inner bracket, short of the
    complete array that the bracket scan delimits from the same place. *)
Lemma array_section_stops_at_inner_bracket :
  (let text := lit "{`pages`: [{`id`:1, `url`: `a]b`, `title`: `t`}], " in
   Json.loads text = None
   /\ option_map (Re.group 1 text) (Re.search Patterns.pages_pattern text)
      = Some (lit "[{`id`:1, `url`: `a]")
   /\ option_map (Re.group_start 1) (Re.search Patterns.pages_pattern text)
      = Some (Some 10)
   /\ Scanner.scan_array text 10 = Scanner.Closed 47
   /\ slice 10 48 text = lit "[{`id`:1, `url`: `a]b`, `title`: `t`}]"
   /\ option_map (Re.group 1 text) (Re.search Patterns.pages_pattern text)
      <> Some (slice 10 48 text))
  /\ (let text := lit "{`pages`: [{`id`:1, `url`: `u`, `tags`: [`x`]}], " in
      Json.loads text = None
      /\ option_map (Re.group 1 text) (Re.search Patterns.pages_pattern text)
         = Some (lit "[{`id`:1, `url`: `u`, `tags`: [`x`]")
      /\ Scanner.scan_array text 10 = Scanner.Closed 46
      /\ slice 10 47 text = lit "[{`id`:1, `url`: `u`, `tags`: [`x`]}]"
      /\ option_map (Re.group 1 text) (Re.search Patterns.pages_pattern text)
         <> Some (slice 10 47 text)).
Proof.
  cbv zeta. repeat split; try (vm_compute; reflexivity); vm_compute; discriminate.
Qed.

(** ** Admission of pages *)

Lemma pairwise_snoc {A : Type} (R : A -> A -> Prop) (l : list A) (x : A) :
  pairwise R l -> Forall (fun p => R p x) l -> pairwise R (l ++ [x]).
Proof.
  induction l as [|a l IH]; simpl; intros P F.
  - auto.
  - destruct P as [Pa Pl]. inversion F; subst. split; auto.
    apply Forall_app. auto.
Qed.

Lemma pairwise_map {A B : Type} (f : A -> B) (R : B -> B -> Prop) (l : list A) :
  pairwise (fun p q => R (f p) (f q)) l <-> pairwise R (map f l).
Proof.
  induction l as [|a l IH]; simpl; [tauto|].
  rewrite IH, Forall_map. tauto.
Qed.

Lemma url_distinct_same_urls (ps ps' : list json) :
  map (get "url") ps' = map (get "url") ps -> url_distinct ps -> url_distinct ps'.
Proof.
  unfold url_distinct. intros M U.
  apply (pairwise_map (get "url") (fun u v => eq u v = false)).
  rewrite M. now apply (pairwise_map (get "url") (fun u v => eq u v = false)).
Qed.

Lemma any_get_false (cond : json -> bool) (xs : list json) :
  any_get cond xs = Some false -> Forall (fun x => cond x = false) xs.
Proof.
  induction xs as [|x xs IH]; simpl; intros H; auto.
  destruct (is_dict x); [|discriminate].
  destruct (cond x) eqn:E; [discriminate|]. auto.
Qed.

Lemma pages_distinct_append (db : json) (ps : list json) (page : json) :
  is_dict db = true -> url_distinct ps ->
  Forall (fun p => eq (get "url" p) (get "url" page) = false) ps ->
  pages_distinct (set "pages" (JArr (ps ++ [page])) db).
Proof.
  intros D U F. split; [now rewrite is_dict_set|].
  exists (ps ++ [page]). rewrite get_set_same by assumption. split; auto.
  now apply pairwise_snoc.
Qed.

Lemma pages_distinct_set (k : string) (v db : json) :
  k <> "pages" -> pages_distinct db -> pages_distinct (set k v db).
Proof.
  intros H [D [ps [G U]]]. split; [now rewrite is_dict_set|].
  exists ps. now rewrite get_set_other by congruence.
Qed.

(** Each step of the per-object extraction keeps the urls distinct. *)
Lemma extract_page_distinct (db : json) (page_json : string) :
  pages_distinct db -> pages_distinct (extract_page db page_json).
Proof.
  intros I. unfold extract_page.
  destruct (_ || _); auto.
  destruct (Json.loads _) as [page_obj|]; auto.
  destruct (is_valid_page page_obj); auto.
  pose proof I as I0. destruct I as [D [ps [G U]]]. rewrite G.
  destruct (any_get _ ps) as [[|]|] eqn:A; try exact I0.
  apply pages_distinct_append; auto.
  apply any_get_false in A. eapply Forall_impl; [|exact A].
  intros p Hp. unfold same_page in Hp. now apply orb_false_elim in Hp.
Qed.

Lemma extract_topic_distinct (db : json) (topic_json : string) :
  pages_distinct db -> pages_distinct (extract_topic db topic_json).
Proof.
  intros I. unfold extract_topic.
  repeat match goal with
         | |- context [match ?x with _ => _ end] => destruct x
         end; auto; apply pages_distinct_set; auto; discriminate.
Qed.

Lemma fold_left_preserves {A : Type} (P : json -> Prop) (f : json -> A -> json)
  (l : list A) :
  (forall db x, P db -> P (f db x)) -> forall db, P db -> P (fold_left f l db).
Proof.
  intros H. induction l as [|x l IH]; intros db Hdb; simpl; auto.
Qed.

Lemma merge_settings_distinct (db : json) (text : string) :
  pages_distinct db -> pages_distinct (merge_settings db text).
Proof.
  intros I. unfold merge_settings.
  repeat match goal with
         | |- context [match ?x with _ => _ end] => destruct x
         end; auto; apply pages_distinct_set; auto; discriminate.
Qed.

Lemma assign_settings_distinct (db : json) (text : string) :
  pages_distinct db -> pages_distinct (assign_settings db text).
Proof.
  intros I. unfold assign_settings.
  repeat match goal with
         | |- context [match ?x with _ => _ end] => destruct x
         end; auto; apply pages_distinct_set; auto; discriminate.
Qed.

Lemma extract_objects_distinct (db : json) (text : string) :
  pages_distinct db -> pages_distinct (extract_objects db text).
Proof.
  intros I. unfold extract_objects. apply merge_settings_distinct.
  apply fold_left_preserves; [intros; now apply extract_topic_distinct|].
  apply fold_left_preserves; [intros; now apply extract_page_distinct|auto].
Qed.

Lemma extract_topics_distinct (db : json) (text : string) :
  pages_distinct db -> pages_distinct (extract_topics db text).
Proof.
  intros I. unfold extract_topics.
  apply fold_left_preserves; [intros; now apply extract_topic_distinct|auto].
Qed.

Lemma extract_other_data_distinct (db : json) (text : string) :
  pages_distinct db -> pages_distinct (extract_other_data db text).
Proof.
  intros I. unfold extract_other_data. apply assign_settings_distinct.
  repeat match goal with
         | |- context [match ?x with _ => _ end] => destruct x
         end; auto using extract_topics_distinct.
  apply pages_distinct_set; auto; discriminate.
Qed.

Lemma recover_page_distinct (now : nat -> string) (text : string) (db : json)
  (im : nat * Re.found) :
  pages_distinct db -> pages_distinct (recover_page now text db im).
Proof.
  intros I. unfold recover_page. destruct im as [i m].
  pose proof I as I0. destruct I as [D [ps [G U]]]. rewrite G.
  destruct (any_get _ ps) as [[|]|] eqn:A; try exact I0.
  apply pages_distinct_append; auto.
  apply any_get_false in A. exact A.
Qed.

Lemma recover_basic_pages_distinct (now : nat -> string) (db : json) (text : string) :
  pages_distinct db -> pages_distinct (recover_basic_pages now db text).
Proof.
  intros I. unfold recover_basic_pages.
  apply fold_left_preserves; [intros; now apply recover_page_distinct|auto].
Qed.

Lemma admit_object_distinct (db : json) (obj_text : string) :
  pages_distinct db -> pages_distinct (state_of (admit_object db obj_text)).
Proof.
  intros I. unfold admit_object.
  destruct (Json.loads _) as [page_obj|]; auto.
  destruct (is_valid_page page_obj); auto.
  pose proof I as I0. destruct I as [D [ps [G U]]]. rewrite G.
  destruct (any_get _ ps) as [[|]|] eqn:A; simpl; try exact I0.
  apply pages_distinct_append; auto.
  apply any_get_false in A. exact A.
Qed.

(** ** The strategies keep the urls distinct *)

Section Strategies.

Variable py_hash : json -> Z.
Variable now : nat -> string.

Lemma verify_distinct (db : json) :
  pages_distinct db ->
  pages_distinct (state_of (verify_and_fix_structure py_hash now db)).
Proof.
  intros [D [ps [G U]]]. rewrite verify_with_keys by assumption. cbv zeta.
  assert (Hp : has "pages" db = true).
  { destruct db; try discriminate. simpl in *. unfold dict_has.
    destruct (dict_get "pages" m); auto; discriminate G. }
  pose proof (with_keys_four db D) as K. rewrite (get_with_keys _ _ Hp), G.
  simpl iterate. cbv iota.
  destruct (fix_pages py_hash now 0 ps) as [ps' ok] eqn:F.
  assert (I : pages_distinct (set "pages" (JArr ps') (with_keys db))).
  { split; [rewrite is_dict_set; apply K|]. exists ps'.
    rewrite get_set_same by apply K. split; auto.
    apply (url_distinct_same_urls ps); [|assumption].
    exact (fix_pages_urls py_hash now ps 0 ps' ok F). }
  repeat match goal with
         | |- context [match ?x with _ => _ end] => destruct x
         | |- context [if ?x then _ else _] => destruct x
         end; simpl; auto; apply pages_distinct_set; auto; discriminate.
Qed.

Lemma print_stats_get (db db' : json) (k : string) :
  print_stats db = Some db' -> k <> "settings" ->
  get k db' = get k db /\ is_dict db' = true.
Proof.
  unfold print_stats. intros H Hk.
  destruct (is_dict db) eqn:D; simpl in H; [|discriminate].
  repeat match type of H with
         | context [match ?x with _ => _ end] => destruct x; try discriminate
         | context [if ?x then _ else _] => destruct x; try discriminate
         end; inversion H; subst; rewrite ?get_set_other, ?is_dict_set by assumption;
    auto.
Qed.

Lemma print_stats_distinct (db db' : json) :
  print_stats db = Some db' -> pages_distinct db -> pages_distinct db'.
Proof.
  intros H [D [ps [G U]]].
  destruct (print_stats_get _ _ "pages" H) as [G' D']; [discriminate|].
  split; auto. exists ps. split; congruence.
Qed.

Lemma finish_distinct (db : json) :
  pages_distinct db -> pages_distinct (state_of (finish py_hash now db)).
Proof.
  intros I. unfold finish. pose proof (verify_distinct db I) as V.
  destruct (verify_and_fix_structure py_hash now db) as [db1|db1]; simpl in *; auto.
  destruct (print_stats db1) as [db2|] eqn:P; simpl; auto.
  eapply print_stats_distinct; eauto.
Qed.

Lemma unstructured_chunks_distinct (fuel : nat) :
  forall rest buffer db,
    pages_distinct db ->
    pages_distinct (snd (unstructured_chunks fuel rest buffer db)).
Proof.
  induction fuel as [|fuel IH]; intros rest buffer db I; simpl; auto.
  destruct (read unstructured_chunk_size rest) as [chunk rest'].
  destruct (negb (nonempty chunk)); simpl; auto.
  apply IH. now apply extract_objects_distinct.
Qed.

Lemma process_unstructured_distinct (db : json) (file : string) :
  pages_distinct db ->
  pages_distinct (snd (process_unstructured_json py_hash now db file)).
Proof.
  intros I. unfold process_unstructured_json.
  pose proof (unstructured_chunks_distinct (S (String.length file)) file
                EmptyString db I) as C.
  destruct (unstructured_chunks _ _ _ _) as [buffer db1]. simpl in C.
  set (db2 := extract_objects db1 buffer).
  assert (I2 : pages_distinct db2) by now apply extract_objects_distinct.
  destruct (has_pages db2) as [b|]; simpl; auto.
  set (db3 := if b then db2 else recover_basic_pages now db2 buffer).
  assert (I3 : pages_distinct db3).
  { subst db3. destruct b; auto using recover_basic_pages_distinct. }
  destruct (has_pages db3) as [[|]|]; simpl; auto.
  pose proof (finish_distinct db3 I3) as Fn.
  destruct (finish py_hash now db3); simpl in *; auto.
Qed.

Lemma pages_loop_distinct (fuel : nat) :
  forall buffer db,
    pages_distinct db ->
    match pages_loop fuel buffer db with
    | NeedMore _ db' | ArrayClosed db' | Escaped db' => pages_distinct db'
    end.
Proof.
  induction fuel as [|fuel IH]; intros buffer db I; simpl; auto.
  destruct (find "{" buffer) as [obj_start|]; auto.
  destruct (Scanner.scan_object buffer obj_start) as [i|d].
  - pose proof (admit_object_distinct db (slice obj_start (i + 1) buffer) I) as A.
    destruct (admit_object db _) as [db'|db']; simpl in A; auto.
    match goal with
    | |- context [if ?x then _ else _] => destruct x
    end.
    + now apply extract_other_data_distinct.
    + now apply IH.
  - match goal with
    | |- context [if ?x then _ else _] => destruct x
    end; [assumption|now apply IH].
Qed.

Lemma structured_chunks_distinct (fuel : nat) :
  forall rest buffer in_pages_array db,
    pages_distinct db ->
    pages_distinct
      (state_of (structured_chunks fuel rest buffer in_pages_array db)).
Proof.
  induction fuel as [|fuel IH]; intros rest buffer inp db I; [exact I|].
  cbn [structured_chunks].
  destruct (read structured_chunk_size rest) as [chunk rest'].
  destruct (negb (nonempty chunk)); [exact I|].
  match goal with
  | |- context [let (_, _) := ?x in _] => destruct x as [buffer1 inp1]
  end.
  destruct inp1; [|exact I].
  pose proof (pages_loop_distinct (S (String.length buffer1)) buffer1 db I) as L.
  destruct (pages_loop (S (String.length buffer1)) buffer1 db)
    as [buffer2 db'|db'|db']; try exact L.
  apply IH. exact L.
Qed.

Lemma process_structured_distinct (db : json) (file : string) :
  pages_distinct db ->
  pages_distinct (snd (process_structured_json py_hash now db file)).
Proof.
  intros I. unfold process_structured_json.
  pose proof (structured_chunks_distinct (S (String.length file)) file
                EmptyString false db I) as C.
  destruct (structured_chunks _ _ _ _ _) as [db1|db1]; simpl in C;
    [|now apply process_unstructured_distinct].
  destruct (has_pages db1) as [[|]|]; try now apply process_unstructured_distinct.
  pose proof (finish_distinct db1 C) as Fn.
  destruct (finish py_hash now db1); simpl in *; auto.
  now apply process_unstructured_distinct.
Qed.

Lemma empty_database_distinct : pages_distinct empty_database.
Proof. split; [reflexivity|]. exists []. split; [reflexivity|exact I]. Qed.

(** C1, as the code has it.  Whatever the file, the strategies that take
    pages one object at a time (chunked streaming, per-object pattern
    extraction, salvage: all of [load_large_file]) leave a database in
    which no two pages have equal values of [get('url')], before and
    after the normalizer. *)
Theorem load_large_file_urls_distinct (file : string) :
  let db := snd (load_large_file py_hash now file) in
  is_dict db = true /\
  exists ps, get "pages" db = JArr ps /\ url_distinct ps.
Proof.
  cbv zeta. change (pages_distinct (snd (load_large_file py_hash now file))).
  unfold load_large_file.
  destruct (read start_chunk_size file) as [start_chunk rest].
  repeat match goal with
         | |- context [match ?x with _ => _ end] => destruct x
         | |- context [if ?x then _ else _] => destruct x
         end;
    first [ apply process_structured_distinct | apply process_unstructured_distinct ];
    apply empty_database_distinct.
Qed.

End Strategies.

(** A well-formed document with two pages of the same url and the same
    id is taken as it is by the whole-document parse, and the normalizer
    keeps both pages; the pages carry their ids, so [hash] is not called. *)
Lemma whole_document_parse_duplicates (py_hash : json -> Z) (now : nat -> string) :
  let text := lit "{`pages`: [{`id`: 7, `url`: `http://a`, `title`: `one`}, {`id`: 7, `url`: `http://a`, `title`: `two`}]}" in
  exists p q rest,
    load_file py_hash now (Some text)
    = (true, JObj (("pages", JArr [p; q]) :: rest))
    /\ get "url" p = JStr "http://a" /\ get "url" q = JStr "http://a"
    /\ get "id" p = JInt 7 /\ get "id" q = JInt 7
    /\ eq (get "url" p) (get "url" q) = true
    /\ eq (get "id" p) (get "id" q) = true
    /\ ~ url_distinct [p; q].
Proof.
  cbv zeta. eexists. eexists. eexists. split; [vm_compute; reflexivity|].
  repeat split; try reflexivity.
  intros [F _]. inversion F as [|x l H]. discriminate.
Qed.

(** C1, the claim as stated fails: after a successful ingestion through
    the whole-document parse, normalizer included, two pages share their
    url and their id. *)
Lemma whole_document_keeps_duplicates :
  let text := lit "{`pages`: [{`id`: 7, `url`: `http://a`, `title`: `one`}, {`id`: 7, `url`: `http://a`, `title`: `two`}]}" in
  exists p q rest,
    load_file sample_hash sample_clock (Some text)
    = (true, JObj (("pages", JArr [p; q]) :: rest))
    /\ get "url" p = JStr "http://a" /\ get "url" q = JStr "http://a"
    /\ get "id" p = JInt 7 /\ get "id" q = JInt 7
    /\ eq (get "url" p) (get "url" q) = true
    /\ eq (get "id" p) (get "id" q) = true
    /\ ~ url_distinct [p; q].
Proof. exact (whole_document_parse_duplicates sample_hash sample_clock). Qed.

(** ** What a successful ingestion leaves *)

Section Success.

Variable py_hash : json -> Z.
Variable now : nat -> string.

Lemma verify_titled (x db : json) :
  verify_and_fix_structure py_hash now x = Done db ->
  exists ps, iterate (get "pages" db) = Some ps /\ pages_titled ps.
Proof.
  intros H. destruct (is_dict x) eqn:D.
  - destruct (verify_done py_hash now x db D H)
      as (ps & ps' & ids & ts & valid & _ & F & P & _ & _ & G & _).
    exists ps'. split; auto.
    destruct (page_ids_spec _ _ P) as [A _].
    unfold pages_titled. rewrite Forall_forall in *. intros p' Hp'.
    split; [auto|].
    destruct (fix_pages_in py_hash now ps 0 ps' p' F Hp') as (p & j & _ & E).
    assert (Dp : is_dict p = true)
      by (rewrite <- (fix_page_dict py_hash now j p p' E); auto).
    exact (fix_page_title py_hash now j p p' E Dp).
  - unfold verify_and_fix_structure in H. rewrite D in H. simpl in H.
    inversion H; subst. exists []. split; [reflexivity|constructor].
Qed.

Lemma finish_titled (x db : json) :
  finish py_hash now x = Done db ->
  exists ps, iterate (get "pages" db) = Some ps /\ pages_titled ps.
Proof.
  unfold finish. intros H.
  destruct (verify_and_fix_structure py_hash now x) as [db1|db1] eqn:V;
    [|discriminate].
  destruct (print_stats db1) as [db2|] eqn:P; [|discriminate].
  inversion H; subst db2.
  destruct (verify_titled _ _ V) as [ps [I T]].
  destruct (print_stats_get _ _ "pages" P) as [G _]; [discriminate|].
  exists ps. now rewrite G.
Qed.

Lemma process_unstructured_success (db0 : json) (file : string) (db : json) :
  process_unstructured_json py_hash now db0 file = (true, db) ->
  exists x, finish py_hash now x = Done db.
Proof.
  unfold process_unstructured_json.
  destruct (unstructured_chunks _ _ _ _) as [buffer db1].
  destruct (has_pages _) as [b|]; [|discriminate].
  match goal with
  | |- context [has_pages ?y] => set (db3 := y)
  end.
  destruct (has_pages db3) as [[|]|]; try discriminate.
  destruct (finish py_hash now db3) as [db'|db'] eqn:F; [|discriminate].
  intros H. inversion H; subst. eauto.
Qed.

Lemma process_structured_success (db0 : json) (file : string) (db : json) :
  process_structured_json py_hash now db0 file = (true, db) ->
  exists x, finish py_hash now x = Done db.
Proof.
  unfold process_structured_json.
  destruct (structured_chunks _ _ _ _ _) as [db1|db1];
    [|apply process_unstructured_success].
  destruct (has_pages db1) as [[|]|]; try apply process_unstructured_success.
  destruct (finish py_hash now db1) as [db'|db'] eqn:F;
    [|apply process_unstructured_success].
  intros H. inversion H; subst. eauto.
Qed.

Lemma load_large_file_success (file : string) (db : json) :
  load_large_file py_hash now file = (true, db) ->
  exists x, finish py_hash now x = Done db.
Proof.
  unfold load_large_file.
  destruct (read start_chunk_size file) as [start_chunk rest].
  repeat match goal with
         | |- context [match ?x with _ => _ end] => destruct x
         | |- context [if ?x then _ else _] => destruct x
         end;
    first [ apply process_structured_success | apply process_unstructured_success ].
Qed.

Lemma load_file_success (file : option string) (db : json) :
  load_file py_hash now file = (true, db) ->
  exists x, finish py_hash now x = Done db.
Proof.
  unfold load_file. destruct file as [raw_data|]; [|discriminate].
  destruct (_ <? _)%N; [apply load_large_file_success|].
  destruct (Json.loads raw_data) as [doc|].
  - destruct (is_dict doc); [|apply load_large_file_success].
    destruct (py_len _); [|apply load_large_file_success].
    destruct (finish py_hash now doc) as [db'|db'] eqn:F;
      [|apply load_large_file_success].
    intros H. inversion H; subst. eauto.
  - destruct (py_len _) as [n|]; [|apply load_large_file_success].
    destruct (0 <? n); [|apply load_large_file_success].
    destruct (finish py_hash now _) as [db'|db'] eqn:F;
      [|apply load_large_file_success].
    intros H. inversion H; subst. eauto.
Qed.

(** The per-object paths admit a parsed object only when it passes
    [is_valid_page]. *)
Lemma extract_page_admits_valid (db : json) (page_json : string) (ps : list json) :
  get "pages" db = JArr ps ->
  get "pages" (extract_page db page_json) = JArr ps
  \/ exists page_obj,
      is_valid_page page_obj = true /\
      get "pages" (extract_page db page_json) = JArr (ps ++ [page_obj]).
Proof.
  intros G.
  assert (D : is_dict db = true) by (destruct db; simpl in *; auto; discriminate).
  unfold extract_page.
  destruct (_ || _); auto.
  destruct (Json.loads _) as [page_obj|]; auto.
  destruct (is_valid_page page_obj) eqn:V; auto.
  rewrite G. destruct (any_get _ ps) as [[|]|]; auto.
  right. exists page_obj. rewrite get_set_same; auto.
Qed.

Lemma admit_object_admits_valid (db : json) (obj_text : string) (ps : list json) :
  get "pages" db = JArr ps ->
  get "pages" (state_of (admit_object db obj_text)) = JArr ps
  \/ exists page_obj,
      is_valid_page page_obj = true /\
      get "pages" (state_of (admit_object db obj_text)) = JArr (ps ++ [page_obj]).
Proof.
  intros G.
  assert (D : is_dict db = true) by (destruct db; simpl in *; auto; discriminate).
  unfold admit_object.
  destruct (Json.loads _) as [page_obj|]; auto.
  destruct (is_valid_page page_obj) eqn:V; auto.
  rewrite G. destruct (any_get _ ps) as [[|]|]; auto.
  right. exists page_obj. simpl. rewrite get_set_same; auto.
Qed.

(** C7, as the code has it.  After a successful ingestion every entry of
    the pages is a dict with a title (the normalizer supplies the title),
    so it has one of the three keys; and the paths that take one object at
    a time, [extract_objects] and the streaming loop, append an object to
    the pages only when [is_valid_page] accepts it. *)
Theorem ingested_pages_have_title (file : option string) (db : json) :
  load_file py_hash now file = (true, db) ->
  (exists ps,
      iterate (get "pages" db) = Some ps /\
      Forall (fun p => has "title" p = true /\ is_valid_page p = true) ps)
  /\ (forall db0 page_json ps0,
         get "pages" db0 = JArr ps0 ->
         get "pages" (extract_page db0 page_json) = JArr ps0
         \/ exists page_obj,
             is_valid_page page_obj = true /\
             get "pages" (extract_page db0 page_json) = JArr (ps0 ++ [page_obj]))
  /\ (forall db0 obj_text ps0,
         get "pages" db0 = JArr ps0 ->
         get "pages" (state_of (admit_object db0 obj_text)) = JArr ps0
         \/ exists page_obj,
             is_valid_page page_obj = true /\
             get "pages" (state_of (admit_object db0 obj_text))
             = JArr (ps0 ++ [page_obj])).
Proof.
  intros H. split; [|split].
  - destruct (load_file_success _ _ H) as [x F].
    destruct (finish_titled _ _ F) as [ps [I T]]. exists ps. split; auto.
    unfold pages_titled in T. eapply Forall_impl; [|exact T].
    intros p [D Tp]. split; auto. unfold is_valid_page. rewrite D, Tp.
    now rewrite orb_true_r.
  - apply extract_page_admits_valid.
  - apply admit_object_admits_valid.
Qed.

End Success.

(** The pages left by the ingestion of the text that holds one url. *)
Lemma ingested_pages_have_title_witness :
  let db := snd (load_file sample_hash sample_clock
                   (Some (lit "`url`: `http://example.com/a`"))) in
  exists ps,
    iterate (get "pages" db) = Some ps /\
    Forall (fun p => has "title" p = true /\ is_valid_page p = true) ps.
Proof.
  cbv zeta.
  assert (H : load_file sample_hash sample_clock
                (Some (lit "`url`: `http://example.com/a`"))
              = (true, snd (load_file sample_hash sample_clock
                              (Some (lit "`url`: `http://example.com/a`")))))
    by (vm_compute; reflexivity).
  destruct (ingested_pages_have_title sample_hash sample_clock _ _ H) as [A _].
  exact A.
Defined.

(** C7, the claim as stated fails.  An object that has none of the keys
    url, title and id is admitted by the whole-document parse, and by the
    whole-array parse of the pattern extractor, neither of which consults
    [is_valid_page]; the ingestion succeeds and the object stays in the
    pages, where the normalizer gives it a title. *)
Lemma whole_parse_admits_keyless_object :
  let candidate := JObj [("x", JInt 1)] in
  let kept := JObj [("x", JInt 1); ("title", JStr "Untitled");
                    ("date_archived", JStr (sample_clock 0))] in
  let db := JObj [("pages", JArr [kept]); ("page_topics", JArr []);
                  ("settings", JObj []); ("crawl_queue", JArr [])] in
  is_valid_page candidate = false
  /\ Json.loads (lit "{`pages`: [{`x`: 1}]}") = Some (JObj [("pages", JArr [candidate])])
  /\ load_file sample_hash sample_clock (Some (lit "{`pages`: [{`x`: 1}]}")) = (true, db)
  /\ Json.loads (lit "`pages`: [{`x`: 1}]") = None
  /\ get "pages" (extract_full_database empty_database (lit "`pages`: [{`x`: 1}]"))
     = JArr [candidate]
  /\ load_file sample_hash sample_clock (Some (lit "`pages`: [{`x`: 1}]")) = (true, db).
Proof. cbv zeta. repeat split; vm_compute; reflexivity. Qed.

(** ** More on the bracket scanner *)

Lemma get_drop (n k : nat) (s : string) :
  String.get k (drop n s) = String.get (n + k) s.
Proof.
  revert s. induction n; intros s; simpl; auto.
  destruct s; simpl; auto.
Qed.

Lemma get_some_length (k : nat) (s : string) (c : ascii) :
  String.get k s = Some c -> k < String.length s.
Proof.
  revert k. induction s as [|a s IH]; intros k H; simpl in *; [discriminate|].
  destruct k; [lia|]. apply IH in H. lia.
Qed.

(** Where the loop closes, the character is the closer, outside the
    quotes and not escaped. *)
Lemma scan_loop_closed (opener closer : ascii) (s : string) :
  forall i f j,
    Scanner.scan_loop opener closer s i f = Scanner.Closed j ->
    i <= j /\ String.get (j - i) s = Some closer.
Proof.
  induction s as [|c s IH]; intros i f j H; simpl in H; [discriminate|].
  destruct (Scanner.step opener closer f c) as [f'|] eqn:E.
  - apply IH in H. destruct H as [L G]. split; [lia|].
    replace (j - i) with (S (j - S i)) by lia. exact G.
  - inversion H; subst. rewrite Nat.sub_diag. simpl. split; auto.
    unfold Scanner.step in E.
    repeat match type of E with
           | context [if ?b then _ else _] => destruct b eqn:?; try discriminate
           end.
    f_equal. now apply Ascii.eqb_eq.
Qed.

(** The scan of any buffer from any index: an index it returns lies in
    the buffer, at or after the start, and holds the closer; when the start
    holds the opener, the index lies after the start, and the span from the
    start to the index begins with the opener and ends with the closer. *)
Theorem scan_closed_index (opener closer : ascii) (buffer : string) (start j : nat) :
  Scanner.scan opener closer buffer start = Scanner.Closed j ->
  start <= j < String.length buffer
  /\ String.get j buffer = Some closer
  /\ (String.get start buffer = Some opener ->
      opener <> dquote -> opener <> backslash ->
      start < j
      /\ exists body,
          slice start (j + 1) buffer = String opener (body ++ String closer EmptyString)).
Proof.
  unfold Scanner.scan. intros H.
  pose proof (scan_loop_closed _ _ _ _ _ _ H) as [L G].
  rewrite get_drop in G. replace (start + (j - start)) with j in G by lia.
  pose proof (get_some_length _ _ _ G) as Lj.
  split; [lia|]. split; [exact G|].
  intros Ho Hq Hb.
  assert (D : drop start buffer = String opener (drop (S start) buffer)).
  { clear - Ho. revert buffer Ho. induction start; intros [|a s] Ho; simpl in *;
      try discriminate.
    - now inversion Ho.
    - now apply IHstart. }
  remember (drop (S start) buffer) as t eqn:Et. clear Et.
  rewrite D in H. simpl in H. unfold Scanner.step in H. simpl in H.
  rewrite (proj2 (Ascii.eqb_neq _ _) Hb), (proj2 (Ascii.eqb_neq _ _) Hq),
    Ascii.eqb_refl in H.
  apply scan_loop_closed in H. destruct H as [L' G'].
  split; [lia|].
  exists (take (j - S start) t).
  unfold slice. rewrite D.
  replace (j + 1 - start) with (S (S (j - S start))) by lia.
  change (take (S (S (j - S start))) (String opener t))
    with (String opener (take (S (j - S start)) t)).
  f_equal. clear - G'. revert G'.
  generalize (j - S start) as n. revert t.
  induction t as [|a s IH]; intros n G'; [simpl in G'; discriminate|].
  destruct n; simpl in *.
  - now inversion G'.
  - f_equal. now apply IH.
Qed.

Lemma scan_closed_index_witness :
  let buffer := lit "[{`a`:`}`}, {`b`:1}]" in
  1 <= 9 < String.length buffer
  /\ String.get 9 buffer = Some "}"%char
  /\ (String.get 1 buffer = Some "{"%char ->
      "{"%char <> dquote -> "{"%char <> backslash ->
      1 < 9
      /\ exists body,
          slice 1 (9 + 1) buffer = String "{" (body ++ String "}" EmptyString)).
Proof.
  apply (scan_closed_index "{" "}" (lit "[{`a`:`}`}, {`b`:1}]") 1 9).
  vm_compute. reflexivity.
Defined.

(** ** The loops of the streaming strategies *)

Lemma find_char_split (c : ascii) (s : string) (n : nat) :
  find (String c EmptyString) s = Some n ->
  s = (take n s ++ String c (drop (S n) s))%string
  /\ String.length (take n s) = n /\ n < String.length s.
Proof.
  intros H. destruct (find_char_spec _ _ _ H) as (A & _ & L).
  split; [|split; [apply length_take; lia|lia]].
  rewrite <- (take_drop (S n) s) at 1. rewrite A, append_assoc. reflexivity.
Qed.

(** The scan of an object that starts at the first brace of the buffer
    does not run out of text at depth 0. *)
Lemma scan_first_brace (buffer : string) (obj_start : nat) (d : Z) :
  find "{" buffer = Some obj_start ->
  Scanner.scan_object buffer obj_start = Scanner.Exhausted d -> d <> 0%Z.
Proof.
  intros F H. destruct (find_char_split _ _ _ F) as (E & L & _).
  remember (take obj_start buffer) as pre eqn:Ep.
  remember (drop (S obj_start) buffer) as post eqn:Eq.
  clear Ep Eq F. subst buffer obj_start.
  unfold Scanner.scan_object in H.
  rewrite scan_from_opener in H by (split; discriminate).
  apply scan_exhausted_depth in H; lia.
Qed.

(** The loop [while in_pages_array] ends: each turn stops or takes at
    least one character off the buffer, so the result does not depend on
    the bound, once the bound is above the length of the buffer. *)
Lemma pages_loop_fuel (fuel1 : nat) :
  forall fuel2 buffer db,
    String.length buffer < fuel1 -> String.length buffer < fuel2 ->
    pages_loop fuel1 buffer db = pages_loop fuel2 buffer db.
Proof.
  induction fuel1 as [|fuel1 IH]; intros fuel2 buffer db L1 L2; [lia|].
  destruct fuel2 as [|fuel2]; [lia|].
  cbn [pages_loop].
  destruct (find "{" buffer) as [obj_start|] eqn:F; auto.
  destruct (Scanner.scan_object buffer obj_start) as [i|d] eqn:S.
  - destruct (admit_object db _) as [db'|db']; auto.
    match goal with
    | |- context [if ?x then _ else _] => destruct x
    end; auto.
    apply IH; rewrite length_drop;
      destruct (find_char_split _ _ _ F) as (_ & _ & Lb); lia.
  - pose proof (scan_first_brace _ _ _ F S) as Hd.
    destruct (Z.eqb_spec d 0); [contradiction|]. reflexivity.
Qed.

(** What the loop leaves when it asks for more text: a tail of the
    buffer in which there is no brace, or in which the object at the first
    brace is not complete. *)
Lemma pages_loop_need_more (fuel : nat) :
  forall buffer db buffer' db',
    String.length buffer < fuel ->
    pages_loop fuel buffer db = NeedMore buffer' db' ->
    (exists n, buffer' = drop n buffer)
    /\ (find "{" buffer' = None
        \/ exists obj_start d,
            find "{" buffer' = Some obj_start /\
            Scanner.scan_object buffer' obj_start = Scanner.Exhausted d /\
            d <> 0%Z).
Proof.
  induction fuel as [|fuel IH]; intros buffer db buffer' db' L H; [lia|].
  cbn [pages_loop] in H.
  destruct (find "{" buffer) as [obj_start|] eqn:F.
  - destruct (Scanner.scan_object buffer obj_start) as [i|d] eqn:S.
    + destruct (admit_object db _) as [db1|db1]; [|discriminate].
      match type of H with
      | context [if ?x then _ else _] => destruct x
      end; [discriminate|].
      apply IH in H.
      * destruct H as [[n Hn] R]. split; auto.
        exists (i + 1 + n). now rewrite <- drop_drop.
      * rewrite length_drop.
        destruct (find_char_split _ _ _ F) as (_ & _ & Lb). lia.
    + pose proof (scan_first_brace _ _ _ F S) as Hd.
      destruct (Z.eqb_spec d 0); [contradiction|]. simpl in H.
      inversion H; subst. split; [exists 0; reflexivity|].
      right. exists obj_start, d. auto.
  - inversion H; subst. split; [exists 0; reflexivity|]. now left.
Qed.

(** The inner loop of the streaming strategy ends, and hands the buffer
    back only when no complete object is left at its front. *)
Theorem streaming_loop_takes_complete_objects (buffer : string) (db : json) :
  (forall fuel, String.length buffer < fuel ->
     pages_loop fuel buffer db = pages_loop (S (String.length buffer)) buffer db)
  /\ (forall buffer' db',
        pages_loop (S (String.length buffer)) buffer db = NeedMore buffer' db' ->
        (exists n, buffer' = drop n buffer)
        /\ (find "{" buffer' = None
            \/ exists obj_start d,
                find "{" buffer' = Some obj_start /\
                Scanner.scan_object buffer' obj_start = Scanner.Exhausted d /\
                d <> 0%Z)).
Proof.
  split.
  - intros fuel L. apply pages_loop_fuel; lia.
  - intros buffer' db' H. eapply pages_loop_need_more; eauto.
Qed.

Lemma read_spec (n : N) (s : string) :
  forall chunk rest',
    read n s = (chunk, rest') ->
    s = (chunk ++ rest')%string
    /\ (n <> 0%N -> s <> EmptyString ->
        nonempty chunk = true /\ String.length rest' < String.length s)
    /\ (s = EmptyString -> chunk = EmptyString).
Proof.
  revert n. induction s as [|c s IH]; intros n chunk rest' H; simpl in H.
  - inversion H; subst. split; [reflexivity|]. split; [|reflexivity].
    intros _ E. now destruct E.
  - destruct (N.eqb_spec n 0).
    + inversion H; subst. split; [reflexivity|]. split; [|discriminate].
      intros E. now destruct E.
    + destruct (read (N.pred n) s) as [a b] eqn:R. inversion H; subst.
      destruct (IH _ _ _ R) as (E & _ & _).
      split; [simpl; now rewrite <- E|]. split; [|discriminate].
      intros _ _. split; [reflexivity|].
      simpl. rewrite E, length_append. lia.
Qed.

Lemma drop_append_le (k : nat) (a b : string) :
  k <= String.length a -> drop k (a ++ b) = (drop k a ++ b)%string.
Proof.
  revert a. induction k; intros a L; simpl; auto.
  destruct a; simpl in *; [lia|]. apply IHk. lia.
Qed.

Lemma length_last_chars (n : N) (s : string) :
  (n <= len s)%N -> len (last_chars n s) = n.
Proof.
  unfold last_chars, len. intros L. rewrite length_drop. lia.
Qed.

Lemma last_chars_drop (n : N) (s : string) :
  exists k, k <= String.length s /\ last_chars n s = drop k s.
Proof.
  unfold last_chars, len. exists (N.to_nat (N.of_nat (String.length s) - n)).
  split; auto. lia.
Qed.

(** The loop over the chunks of [process_unstructured_json]. *)
Lemma unstructured_chunks_fuel (fuel1 : nat) :
  forall fuel2 rest buffer db,
    String.length rest < fuel1 -> String.length rest < fuel2 ->
    unstructured_chunks fuel1 rest buffer db = unstructured_chunks fuel2 rest buffer db.
Proof.
  induction fuel1 as [|fuel1 IH]; intros fuel2 rest buffer db L1 L2; [lia|].
  destruct fuel2 as [|fuel2]; [lia|].
  cbn [unstructured_chunks].
  destruct (read unstructured_chunk_size rest) as [chunk rest'] eqn:R.
  destruct (read_spec _ _ _ _ R) as (E & P & Z).
  destruct (nonempty chunk) eqn:C; simpl; auto.
  destruct rest as [|c r]; [rewrite (Z eq_refl) in C; discriminate|].
  destruct P as [_ Lr]; [discriminate|discriminate|].
  apply IH; lia.
Qed.

Lemma unstructured_chunks_buffer (fuel : nat) :
  forall rest buffer db,
    (len buffer <= unstructured_buffer_keep)%N ->
    let out := fst (unstructured_chunks fuel rest buffer db) in
    (len out <= unstructured_buffer_keep)%N
    /\ (String.length rest < fuel ->
        exists k, k <= String.length (buffer ++ rest)
                  /\ out = drop k (buffer ++ rest)
                  /\ ((len (buffer ++ rest) <= unstructured_buffer_keep)%N -> k = 0)).
Proof.
  induction fuel as [|fuel IH]; intros rest buffer db Lb; cbv zeta.
  - simpl. split; auto. intros; lia.
  - cbn [unstructured_chunks].
    destruct (read unstructured_chunk_size rest) as [chunk rest'] eqn:R.
    destruct (read_spec _ _ _ _ R) as (E & P & Z).
    destruct (nonempty chunk) eqn:C; simpl negb; cbv iota.
    + set (buffer1 := (buffer ++ chunk)%string).
      set (buffer2 := if (unstructured_buffer_keep <? len buffer1)%N
                      then last_chars unstructured_buffer_keep buffer1 else buffer1).
      assert (L2 : (len buffer2 <= unstructured_buffer_keep)%N).
      { subst buffer2. destruct (N.ltb_spec unstructured_buffer_keep (len buffer1)).
        - rewrite length_last_chars; lia.
        - lia. }
      assert (D2 : exists k, k <= String.length buffer1 /\ buffer2 = drop k buffer1
                             /\ ((len buffer1 <= unstructured_buffer_keep)%N -> k = 0)).
      { subst buffer2. destruct (N.ltb_spec unstructured_buffer_keep (len buffer1)).
        - destruct (last_chars_drop unstructured_buffer_keep buffer1) as [k [Lk Ek]].
          exists k. repeat split; auto. lia.
        - exists 0. repeat split; auto. lia. }
      destruct (IH rest' buffer2 (extract_objects db buffer1) L2) as [A B].
      split; [exact A|]. intros Lf.
      destruct rest as [|c r]; [rewrite (Z eq_refl) in C; discriminate|].
      destruct P as [_ Lr]; [discriminate|discriminate|].
      destruct B as (k & Lk & Ek & Zk); [lia|].
      destruct D2 as (k2 & Lk2 & Ek2 & Zk2).
      exists (k2 + k). rewrite E, <- append_assoc. fold buffer1.
      rewrite Ek, Ek2, <- drop_append_le, drop_drop by assumption.
      repeat split; auto.
      * rewrite Ek2, <- drop_append_le, length_drop in Lk by assumption.
        rewrite length_append in *. lia.
      * intros Ls.
        assert (Z2 : k2 = 0).
        { apply Zk2. unfold len in *. rewrite length_append in Ls. lia. }
        subst k2. simpl. apply Zk. rewrite Ek2. exact Ls.
    + simpl. split; auto. intros _. exists 0.
      assert (chunk = EmptyString) by (destruct chunk; auto; discriminate). subst chunk.
      destruct rest as [|c r].
      * rewrite append_nil_r. simpl. repeat split; auto. lia.
      * destruct P as [N _]; [discriminate|discriminate|discriminate].
Qed.

(** The loop over the chunks in [process_unstructured_json] ends; the
    buffer it leaves for the last pass and for the salvage is a tail of the
    file of at most 20000 characters, and the whole file when the file is
    no longer than that. *)
Theorem unstructured_buffer_is_bounded_tail (file : string) (db : json) :
  let buffer := fst (unstructured_chunks (S (String.length file)) file EmptyString db) in
  (forall fuel, String.length file < fuel ->
     unstructured_chunks fuel file EmptyString db
     = unstructured_chunks (S (String.length file)) file EmptyString db)
  /\ (len buffer <= 20000)%N
  /\ (exists k, k <= String.length file /\ buffer = drop k file)
  /\ ((len file <= 20000)%N -> buffer = file).
Proof.
  cbv zeta.
  destruct (unstructured_chunks_buffer (S (String.length file)) file EmptyString db)
    as [A B]; [unfold len; simpl; lia|].
  destruct B as (k & Lk & Ek & Zk); [lia|].
  change (EmptyString ++ file)%string with file in *.
  split; [intros fuel L; apply unstructured_chunks_fuel; lia|].
  split; [exact A|]. split; [eauto|].
  intros Ls. rewrite Ek, (Zk Ls). reflexivity.
Qed.

(** ** The salvage numbers its pages *)

Lemma recover_pages_fold (now : nat -> string) (text : string) (l : list Re.found) :
  forall i db ps,
    get "pages" db = JArr ps ->
    exists idxs new,
      get "pages" (fold_left (recover_page now text) (enumerate i l) db)
      = JArr (ps ++ new)
      /\ pairwise lt idxs
      /\ Forall (fun k => i <= k < i + List.length l) idxs
      /\ Forall2 (salvaged_page now) idxs new.
Proof.
  induction l as [|m l IH]; intros i db ps G.
  - simpl. exists [], []. rewrite app_nil_r. repeat split; auto.
  - assert (D : is_dict db = true) by (destruct db; simpl in *; auto; discriminate).
    cbn [enumerate fold_left List.length].
    remember (recover_page now text db (i, m)) as db1 eqn:E1.
    unfold recover_page in E1. rewrite G in E1.
    assert (K : db1 = db \/
                exists page, salvaged_page now i page /\
                             db1 = set "pages" (JArr (ps ++ [page])) db).
    { destruct (any_get _ ps) as [[|]|]; auto.
      right. eexists. split; [|exact E1]. unfold salvaged_page. eauto. }
    clear E1. destruct K as [->|[page [Sp ->]]].
    + destruct (IH (S i) db ps G) as (idxs & new & A & B & C & E).
      exists idxs, new. repeat split; auto.
      eapply Forall_impl; [|exact C]. simpl. intros; lia.
    + destruct (IH (S i) (set "pages" (JArr (ps ++ [page])) db) (ps ++ [page]))
        as (idxs & new & A & B & C & E).
      { now rewrite get_set_same. }
      exists (i :: idxs), (page :: new). rewrite A, <- app_assoc. simpl.
      repeat split; auto.
      * eapply Forall_impl; [|exact C]. simpl. intros; lia.
      * constructor; [lia|]. eapply Forall_impl; [|exact C]. simpl. intros; lia.
Qed.

Lemma salvaged_ids_distinct (now : nat -> string) (idxs : list nat) :
  forall ps,
    pairwise lt idxs -> Forall2 (salvaged_page now) idxs ps ->
    pairwise (fun p q => eq (get "id" p) (get "id" q) = false) ps.
Proof.
  induction idxs as [|k idxs IH]; intros ps P F; inversion F; subst; simpl; auto.
  destruct P as [Pk P]. split; [|now apply IH].
  match goal with
  | H : salvaged_page now k ?y |- _ => destruct H as (u & t & d & ->)
  end.
  match goal with
  | H : Forall2 _ idxs ?l |- _ => revert H; generalize l
  end.
  clear - Pk. induction idxs as [|j idxs IH]; intros l F; inversion F; subst; auto.
  inversion Pk; subst. constructor; [|now apply IH].
  match goal with
  | H : salvaged_page now j ?y |- _ => destruct H as (u' & t' & d' & ->)
  end.
  simpl. apply Z.eqb_neq. lia.
Qed.

(** Started on a database without pages, [recover_basic_pages] leaves
    pages of the five salvage keys, in the order of the matches they come
    from, each with the id one more than the number of its match; so the
    ids are distinct, and so are the urls. *)
Theorem salvage_numbers_pages (now : nat -> string) (db : json) (text : string) :
  get "pages" db = JArr [] ->
  exists idxs ps,
    get "pages" (recover_basic_pages now db text) = JArr ps
    /\ pairwise lt idxs
    /\ Forall (fun k => k < List.length (Re.finditer (Patterns.string_field "url") text))
         idxs
    /\ Forall2 (salvaged_page now) idxs ps
    /\ pairwise (fun p q => eq (get "id" p) (get "id" q) = false) ps
    /\ url_distinct ps.
Proof.
  intros G. unfold recover_basic_pages.
  destruct (recover_pages_fold now text
              (Re.finditer (Patterns.string_field "url") text) 0 db [] G)
    as (idxs & new & A & B & C & E).
  simpl in A. exists idxs, new. repeat split; auto.
  - eapply Forall_impl; [|exact C]. simpl. intros; lia.
  - eapply salvaged_ids_distinct; eauto.
  - assert (I : pages_distinct db).
    { split; [destruct db; simpl in *; auto; discriminate|].
      exists []. split; [exact G|exact Logic.I]. }
    destruct (recover_basic_pages_distinct now db text I) as [_ [ps' [G' U]]].
    unfold recover_basic_pages in G'. rewrite A in G'. inversion G'; subst. exact U.
Qed.

Lemma salvage_numbers_pages_witness :
  let text := lit "`url`: `http://a`, junk `url`: `http://a` , `url` : `http://b`" in
  exists idxs ps,
    get "pages" (recover_basic_pages sample_clock empty_database text) = JArr ps
    /\ pairwise lt idxs
    /\ Forall (fun k => k < List.length (Re.finditer (Patterns.string_field "url") text))
         idxs
    /\ Forall2 (salvaged_page sample_clock) idxs ps
    /\ pairwise (fun p q => eq (get "id" p) (get "id" q) = false) ps
    /\ url_distinct ps.
Proof.
  apply (salvage_numbers_pages sample_clock empty_database). reflexivity.
Defined.

(** On that text the second match repeats the first url and is skipped:
    the pages get the ids 1 and 3. *)
Example salvage_skips_repeated_url :
  map (get "id")
    match get "pages"
            (recover_basic_pages sample_clock empty_database
               (lit "`url`: `http://a`, junk `url`: `http://a` , `url` : `http://b`"))
    with JArr ps => ps | _ => [] end
  = [JInt 1; JInt 3].
Proof. vm_compute. reflexivity. Qed.

(** ** The statistics *)

Lemma get_default_set_other (k k' : string) (d v x : json) :
  k <> k' -> get_default k d (set k' v x) = get_default k d x.
Proof.
  intros H. destruct x; auto. simpl. now rewrite dict_get_set_other.
Qed.

Lemma get_default_set_same (k : string) (d v x : json) :
  is_dict x = true -> get_default k d (set k v x) = v.
Proof.
  destruct x; try discriminate. intros _. simpl. now rewrite dict_get_set_same.
Qed.

Lemma get_get_default (k k' : string) (x : json) :
  get k (get_default k' (JObj []) x) = get k (get k' x).
Proof.
  destruct x; auto. simpl. destruct (dict_get k' m); auto.
Qed.

(** What [print_stats] changes, when it returns: nothing, or the entry
    total_size_raw of the settings, which it sets to the positive sum of
    the lengths of the contents when the settings have no truthy value for
    it. *)
Lemma print_stats_cases (db db' : json) :
  print_stats db = Some db' ->
  is_dict db = true /\
  (db' = db \/
   exists ps total,
     iterate (get_default "pages" (JArr []) db) = Some ps /\
     content_size ps = Some total /\ 0 < total /\
     truthy (get "total_size_raw" (get "settings" db)) = false /\
     is_dict (get_default "settings" (JObj []) db) = true /\
     db' = set "settings"
             (set "total_size_raw" (JInt (Z.of_nat total))
                (get_default "settings" (JObj []) db)) db).
Proof.
  unfold print_stats. intros H.
  destruct (is_dict db) eqn:D; simpl in H; [|discriminate]. split; auto.
  destruct (iterate (get_default "page_topics" (JArr []) db)) as [ts|]; [|discriminate].
  destruct (iterate (get_default "pages" (JArr []) db)) as [ps|]; [|discriminate].
  destruct (py_len (get_default "pages" (JArr []) db)); [|discriminate].
  destruct (py_len (get_default "crawl_queue" (JArr []) db)); [|discriminate].
  destruct (forallb topic_rel_ok ts && forallb page_topics_ok ps); [|discriminate].
  destruct (is_dict (get_default "settings" (JObj []) db)) eqn:S; simpl in H;
    [|discriminate].
  destruct (truthy (get "total_size_raw" (get_default "settings" (JObj []) db))) eqn:T.
  - inversion H; auto.
  - destruct (content_size ps) as [total|] eqn:C; [|discriminate].
    destruct (Nat.ltb_spec 0 total); inversion H; auto.
    right. exists ps, total. rewrite <- get_get_default. repeat split; auto.
Qed.

(** Run on the database it has left, [print_stats] changes nothing. *)
Lemma print_stats_again (db db' : json) :
  print_stats db = Some db' -> print_stats db' = Some db'.
Proof.
  intros H. destruct (print_stats_cases _ _ H) as [D [->|C]]; [exact H|].
  destruct C as (ps & total & I & Cs & Lt & T & S & ->).
  set (settings := get_default "settings" (JObj []) db) in *.
  set (settings' := set "total_size_raw" (JInt (Z.of_nat total)) settings).
  revert H. unfold print_stats. rewrite D, is_dict_set, D. simpl negb. cbv iota.
  rewrite !get_default_set_other by discriminate.
  rewrite get_default_set_same by assumption. fold settings.
  destruct (iterate (get_default "page_topics" (JArr []) db)); [|discriminate].
  rewrite I.
  destruct (py_len (get_default "pages" (JArr []) db)); [|discriminate].
  destruct (py_len (get_default "crawl_queue" (JArr []) db)); [|discriminate].
  destruct (forallb topic_rel_ok l && forallb page_topics_ok ps); [|discriminate].
  intros _.
  assert (S' : is_dict settings' = true) by (subst settings'; now rewrite is_dict_set).
  rewrite S'. simpl negb. cbv iota.
  assert (T' : truthy (get "total_size_raw" settings') = true).
  { subst settings'. rewrite get_set_same by assumption. simpl.
    destruct (Z.eqb_spec (Z.of_nat total) 0); [lia|reflexivity]. }
  now rewrite T'.
Qed.

(** [print_stats] writes into the settings only, and only the entry
    total_size_raw; it leaves a database in which that entry is set alone,
    and run again it changes nothing. *)
Theorem print_stats_only_sets_total_size (db db' : json) :
  print_stats db = Some db' ->
  (forall k, k <> "settings" -> get k db' = get k db /\ has k db' = has k db)
  /\ (forall k, k <> "total_size_raw" ->
        get k (get "settings" db') = get k (get "settings" db))
  /\ (truthy (get "total_size_raw" (get "settings" db)) = true -> db' = db)
  /\ print_stats db' = Some db'.
Proof.
  intros H. destruct (print_stats_cases _ _ H) as [D [->|C]].
  { repeat split; auto. }
  destruct C as (ps & total & I & Cs & Lt & T & S & ->).
  set (settings := get_default "settings" (JObj []) db) in *.
  set (settings' := set "total_size_raw" (JInt (Z.of_nat total)) settings).
  split; [|split; [|split]].
  - intros k Hk. now rewrite get_set_other, has_set_other.
  - intros k Hk. rewrite get_set_same by assumption. subst settings'.
    rewrite get_set_other by assumption. subst settings. apply get_get_default.
  - intros T'. congruence.
  - exact (print_stats_again _ _ H).
Qed.

Lemma print_stats_only_sets_total_size_witness :
  let db := JObj [("pages", JArr [JObj [("url", JStr "u"); ("html_content", JStr "<p>hi</p>")]]);
                  ("page_topics", JArr []);
                  ("settings", JObj [("last_crawl_date", JStr "2024")]);
                  ("crawl_queue", JArr [])] in
  let db' := set "settings"
               (JObj [("last_crawl_date", JStr "2024"); ("total_size_raw", JInt 9)]) db in
  (forall k, k <> "settings" -> get k db' = get k db /\ has k db' = has k db)
  /\ (forall k, k <> "total_size_raw" ->
        get k (get "settings" db') = get k (get "settings" db))
  /\ (truthy (get "total_size_raw" (get "settings" db)) = true -> db' = db)
  /\ print_stats db' = Some db'.
Proof.
  apply print_stats_only_sets_total_size. vm_compute. reflexivity.
Defined.

(** ** The normalizer and the statistics together *)

Section Finish.

Variable py_hash : json -> Z.

(** What the normalizer leaves behind when it returns. *)
Lemma verify_done_shape (now : nat -> string) (db db1 : json) :
  verify_and_fix_structure py_hash now db = Done db1 ->
  exists ps' ids valid,
    four_keys db1 /\ iterate (get "pages" db1) = Some ps' /\
    (forall now', fix_pages py_hash now' 0 ps' = (ps', true)) /\
    page_ids ps' = Some ids /\
    get "page_topics" db1 = JArr valid /\
    valid_topics ids valid = Some valid.
Proof.
  intros H. destruct (is_dict db) eqn:D.
  - destruct (verify_done py_hash now db db1 D H)
      as (ps & ps' & ids & ts & valid & _ & F & P & _ & V & G & T & K & _).
    exists ps', ids, valid. repeat split; auto; try apply K.
    + intros now'. exact (fix_pages_again py_hash now now' ps 0 0 ps' true F).
    + eapply valid_topics_again; eauto.
  - unfold verify_and_fix_structure in H. rewrite D in H. simpl in H.
    inversion H; subst. exists [], [], []. repeat split; reflexivity.
Qed.

(** A database of that shape is left as it is by the normalizer. *)
Lemma verify_fixed_point (now : nat -> string) (s : json)
  (ps' ids valid : list json) :
  four_keys s -> iterate (get "pages" s) = Some ps' ->
  fix_pages py_hash now 0 ps' = (ps', true) ->
  page_ids ps' = Some ids ->
  get "page_topics" s = JArr valid ->
  valid_topics ids valid = Some valid ->
  verify_and_fix_structure py_hash now s = Done s.
Proof.
  intros K I F P T V.
  rewrite verify_with_keys by apply K. rewrite (with_keys_id s K). cbv zeta.
  rewrite I, F. simpl negb. cbv iota.
  assert (S : match get "pages" s with
              | JArr _ => set "pages" (JArr ps') s
              | _ => s
              end = s).
  { destruct (get "pages" s) eqn:E; auto.
    replace (JArr ps') with (get "pages" s) by (simpl in I; congruence).
    apply set_same_value. apply K. }
  rewrite S, P, T. simpl iterate. cbv iota. rewrite V.
  f_equal. rewrite <- T. apply set_same_value. apply K.
Qed.

(** The end of a successful strategy, normalizer and statistics, leaves a
    database that the same two steps leave as it is, whatever the clock
    shows then. *)
Theorem finish_fixed_point (now now' : nat -> string) (db db' : json) :
  finish py_hash now db = Done db' ->
  verify_and_fix_structure py_hash now' db' = Done db'
  /\ print_stats db' = Some db'
  /\ finish py_hash now' db' = Done db'.
Proof.
  unfold finish. intros H.
  destruct (verify_and_fix_structure py_hash now db) as [db1|db1] eqn:V;
    [|discriminate].
  destruct (print_stats db1) as [db2|] eqn:P; [|discriminate].
  inversion H; subst db2. clear H.
  destruct (verify_done_shape _ _ _ V) as (ps' & ids & valid & K & I & F & Pi & T & Vt).
  assert (V' : verify_and_fix_structure py_hash now' db' = Done db').
  { destruct (print_stats_cases _ _ P) as [_ [->|C]].
    - eapply verify_fixed_point; eauto.
    - destruct C as (ps & total & _ & _ & _ & _ & _ & ->).
      apply (verify_fixed_point now' _ ps' ids valid); auto using four_keys_set.
      + now rewrite get_set_other by discriminate.
      + now rewrite get_set_other by discriminate. }
  pose proof (print_stats_again _ _ P) as P'.
  repeat split; auto. now rewrite V', P'.
Qed.

End Finish.

Lemma finish_fixed_point_witness :
  let db' := state_of (finish sample_hash sample_clock sample_db) in
  verify_and_fix_structure sample_hash (fun _ => "later") db' = Done db'
  /\ print_stats db' = Some db'
  /\ finish sample_hash (fun _ => "later") db' = Done db'.
Proof.
  apply (finish_fixed_point sample_hash sample_clock (fun _ => "later") sample_db).
  vm_compute. reflexivity.
Defined.

(** ** What the normalizer adds *)

Section NormalizerAdds.

Variable py_hash : json -> Z.
Variable now : nat -> string.

Lemma has_set_cases (k k0 : string) (v x : json) :
  has k (set k0 v x) = true -> k = k0 \/ has k x = true.
Proof.
  destruct (String.eqb_spec k k0) as [->|N]; auto.
  rewrite has_set_other by assumption. auto.
Qed.

(** The body of the page loop writes a key only when the page lacks it. *)
Lemma fix_page_steps (i : nat) (p p' : json) :
  fix_page py_hash now i p = Some p' -> is_dict p = true ->
  exists p1 p2,
    (p1 = p \/ (has "id" p = false /\ has "url" p = true /\
                p1 = set "id" (JInt (py_hash (get "url" p) mod 10000000)) p))
    /\ (p2 = p1 \/ (has "title" p1 = false /\ p2 = set "title" (JStr "Untitled") p1))
    /\ (p' = p2 \/ (has "date_archived" p2 = false /\
                    p' = set "date_archived" (JStr (now i)) p2))
    /\ (has "id" p = false -> has "url" p = true ->
        p1 = set "id" (JInt (py_hash (get "url" p) mod 10000000)) p).
Proof.
  unfold fix_page. intros H D. rewrite D in H. simpl in H.
  destruct (has "id" p) eqn:I; simpl in H.
  - exists p, (if has "title" p then p else set "title" (JStr "Untitled") p).
    inversion H; subst; clear H. repeat split; auto; try discriminate.
    + destruct (has "title" p) eqn:T; auto.
    + destruct (has "date_archived" _) eqn:A; auto.
  - destruct (has "url" p) eqn:U.
    + destruct (hashable (get "url" p)); [|discriminate].
      set (p1 := set "id" _ p) in *.
      exists p1, (if has "title" p1 then p1 else set "title" (JStr "Untitled") p1).
      inversion H; subst; clear H. repeat split; auto.
      * destruct (has "title" p1) eqn:T; auto.
      * destruct (has "date_archived" _) eqn:A; auto.
    + exists p, (if has "title" p then p else set "title" (JStr "Untitled") p).
      inversion H; subst; clear H. repeat split; auto; try discriminate.
      * destruct (has "title" p) eqn:T; auto.
      * destruct (has "date_archived" _) eqn:A; auto.
Qed.

Lemma set_absent_keeps (k k0 : string) (v x : json) :
  has k0 x = false -> has k x = true ->
  get k (set k0 v x) = get k x /\ has k (set k0 v x) = true.
Proof.
  intros A H. assert (N : k <> k0) by congruence.
  now rewrite get_set_other, has_set_other.
Qed.

Lemma fix_page_keeps (i : nat) (p p' : json) (k : string) :
  fix_page py_hash now i p = Some p' -> has k p = true ->
  get k p' = get k p /\ has k p' = true.
Proof.
  intros H Hk. assert (D : is_dict p = true) by (destruct p; auto; discriminate).
  destruct (fix_page_steps i p p' H D) as (p1 & p2 & S1 & S2 & S3 & _).
  assert (K1 : get k p1 = get k p /\ has k p1 = true).
  { destruct S1 as [->|(A & _ & ->)]; auto using set_absent_keeps. }
  assert (K2 : get k p2 = get k p /\ has k p2 = true).
  { destruct K1 as [G1 H1]. rewrite <- G1.
    destruct S2 as [->|(A & ->)]; auto using set_absent_keeps. }
  destruct K2 as [G2 H2]. rewrite <- G2.
  destruct S3 as [->|(A & ->)]; auto using set_absent_keeps.
Qed.

Lemma fix_page_new_keys (i : nat) (p p' : json) (k : string) :
  fix_page py_hash now i p = Some p' -> has k p' = true ->
  has k p = true \/ k = "id" \/ k = "title" \/ k = "date_archived".
Proof.
  intros H Hk. destruct (is_dict p) eqn:D.
  - destruct (fix_page_steps i p p' H D) as (p1 & p2 & S1 & S2 & S3 & _).
    assert (K2 : has k p2 = true \/ k = "date_archived").
    { destruct S3 as [->|(_ & ->)]; auto.
      apply has_set_cases in Hk. tauto. }
    destruct K2 as [K2|]; auto.
    assert (K1 : has k p1 = true \/ k = "title").
    { destruct S2 as [->|(_ & ->)]; auto.
      apply has_set_cases in K2. tauto. }
    destruct K1 as [K1|]; auto.
    destruct S1 as [->|(_ & _ & ->)]; auto.
    apply has_set_cases in K1. tauto.
  - unfold fix_page in H. rewrite D in H. simpl in H. inversion H; subst. auto.
Qed.

Lemma fix_page_dated (i : nat) (p p' : json) :
  fix_page py_hash now i p = Some p' -> is_dict p = true ->
  has "date_archived" p' = true.
Proof.
  intros H D. destruct (fix_page_steps i p p' H D) as (p1 & p2 & S1 & S2 & S3 & _).
  assert (D2 : is_dict p2 = true).
  { assert (D1 : is_dict p1 = true).
    { destruct S1 as [->|(_ & _ & ->)]; rewrite ?is_dict_set; auto. }
    destruct S2 as [->|(_ & ->)]; rewrite ?is_dict_set; auto. }
  destruct S3 as [->|(A & ->)].
  - unfold fix_page in H. rewrite D in H. simpl in H.
    destruct (has "date_archived" p2) eqn:E; auto.
    exfalso.
    destruct (negb (has "id" p) && has "url" p);
      [destruct (hashable (get "url" p)); [|discriminate]|];
      inversion H as [H1]; clear H;
      match type of H1 with
      | (if ?b then _ else set _ _ ?x) = _ =>
          destruct b eqn:B; [congruence|];
          rewrite <- H1 in E; rewrite has_set_same in E;
          [discriminate|]
      end;
      repeat match goal with
             | |- context [if ?b then _ else _] => destruct b
             end; rewrite ?is_dict_set; auto.
  - now apply has_set_same.
Qed.

Lemma fix_page_new_id (i : nat) (p p' : json) :
  fix_page py_hash now i p = Some p' ->
  has "id" p = false -> has "url" p = true ->
  get "id" p' = JInt (py_hash (get "url" p) mod 10000000).
Proof.
  intros H I U. assert (D : is_dict p = true) by (destruct p; auto; discriminate).
  destruct (fix_page_steps i p p' H D) as (p1 & p2 & S1 & S2 & S3 & S4).
  specialize (S4 I U).
  assert (G1 : get "id" p1 = JInt (py_hash (get "url" p) mod 10000000)).
  { subst p1. now apply get_set_same. }
  assert (G2 : get "id" p2 = get "id" p1).
  { destruct S2 as [->|(_ & ->)]; auto. now rewrite get_set_other by discriminate. }
  rewrite <- G1, <- G2.
  destruct S3 as [->|(_ & ->)]; auto. now rewrite get_set_other by discriminate.
Qed.

Lemma fix_pages_length (ps : list json) :
  forall i ps' ok, fix_pages py_hash now i ps = (ps', ok) ->
                   List.length ps' = List.length ps.
Proof.
  induction ps as [|p ps IH]; simpl; intros i ps' ok H.
  - now inversion H.
  - destruct (fix_page py_hash now i p); [|now inversion H].
    destruct (fix_pages py_hash now (S i) ps) as [r ok'] eqn:F.
    inversion H; subst. simpl. f_equal. eauto.
Qed.

(** The normalizer keeps the pages in their number and order, changes no
    value that a page has, and adds to a page no key but id, title and
    date_archived, the last two to every page; an id it adds is the hash
    of the url reduced below ten million.  At the top of the database it
    changes no key but pages and page_topics. *)
Theorem normalizer_only_adds (db db' : json) (ps : list json) :
  verify_and_fix_structure py_hash now db = Done db' ->
  get "pages" db = JArr ps ->
  (forall key, key <> "pages" -> key <> "page_topics" -> has key db = true ->
               get key db' = get key db)
  /\ exists ps',
      get "pages" db' = JArr ps' /\ List.length ps' = List.length ps /\
      forall k p,
        nth_error ps k = Some p ->
        exists p',
          nth_error ps' k = Some p'
          /\ (forall key, has key p = true -> get key p' = get key p)
          /\ (forall key, has key p' = true ->
                has key p = true \/ key = "id" \/ key = "title"
                \/ key = "date_archived")
          /\ has "title" p' = true /\ has "date_archived" p' = true
          /\ (has "id" p = false -> has "url" p = true ->
              exists z, get "id" p' = JInt z /\ (0 <= z < 10000000)%Z).
Proof.
  intros H G.
  assert (D : is_dict db = true) by (destruct db; try discriminate; auto).
  assert (Hp : has "pages" db = true).
  { destruct db; try discriminate. simpl in *. unfold dict_has.
    destruct (dict_get "pages" m); auto; discriminate G. }
  pose proof H as H0.
  rewrite verify_with_keys in H0 by assumption. cbv zeta in H0.
  destruct (verify_done py_hash now db db' D H)
    as (ps0 & ps' & ids & ts & valid & It & F & P & _ & V & _ & T & _ & L).
  rewrite (get_with_keys _ _ Hp), G in It, L, H0. simpl in It. inversion It; subst ps0.
  simpl iterate in H0. cbv iota in H0. rewrite F in H0. simpl negb in H0.
  cbv iota in H0. rewrite P in H0.
  split.
  - intros key K1 K2 Hk.
    destruct (iterate _) in H0; [|discriminate].
    destruct (valid_topics ids l) in H0; [|discriminate].
    inversion H0; subst db'.
    rewrite !get_set_other by assumption. now apply get_with_keys.
  - exists ps'. split; [eapply L; eauto|].
    split; [eapply fix_pages_length; eauto|].
    intros k p N.
    destruct (fix_pages_nth py_hash now ps 0 ps' k p F N) as [p' [N' E]].
    simpl in E. exists p'. split; auto.
    assert (Dp' : is_dict p' = true).
    { destruct (page_ids_spec _ _ P) as [A _]. rewrite Forall_forall in A.
      apply A. eapply nth_error_In; eauto. }
    assert (Dp : is_dict p = true) by (rewrite <- (fix_page_dict _ _ _ _ _ E); auto).
    split; [intros key Hk; eapply fix_page_keeps; eauto|].
    split; [intros key Hk; eapply fix_page_new_keys; eauto|].
    split; [eapply fix_page_title; eauto|].
    split; [eapply fix_page_dated; eauto|].
    intros I U. eexists. split; [eapply fix_page_new_id; eauto|].
    apply Z.mod_pos_bound. lia.
Qed.

End NormalizerAdds.

Lemma normalizer_only_adds_witness :
  let db' := state_of (verify_and_fix_structure sample_hash sample_clock sample_db) in
  let ps := [JObj [("id", JInt 1); ("url", JStr "http://a")];
             JObj [("title", JStr "no url")]] in
  (forall key, key <> "pages" -> key <> "page_topics" -> has key sample_db = true ->
               get key db' = get key sample_db)
  /\ exists ps',
      get "pages" db' = JArr ps' /\ List.length ps' = List.length ps /\
      forall k p,
        nth_error ps k = Some p ->
        exists p',
          nth_error ps' k = Some p'
          /\ (forall key, has key p = true -> get key p' = get key p)
          /\ (forall key, has key p' = true ->
                has key p = true \/ key = "id" \/ key = "title"
                \/ key = "date_archived")
          /\ has "title" p' = true /\ has "date_archived" p' = true
          /\ (has "id" p = false -> has "url" p = true ->
              exists z, get "id" p' = JInt z /\ (0 <= z < 10000000)%Z).
Proof.
  apply (normalizer_only_adds sample_hash sample_clock sample_db).
  - vm_compute. reflexivity.
  - reflexivity.
Defined.

(** ** The database after a successful ingestion *)

Section SuccessShape.

Variable py_hash : json -> Z.
Variable now : nat -> string.

Lemma print_stats_checks (db db' : json) :
  print_stats db = Some db' ->
  is_dict (get_default "settings" (JObj []) db) = true
  /\ py_len (get_default "crawl_queue" (JArr []) db) <> None.
Proof.
  unfold print_stats. intros H.
  destruct (is_dict db); simpl in H; [|discriminate].
  destruct (iterate (get_default "page_topics" (JArr []) db)); [|discriminate].
  destruct (iterate (get_default "pages" (JArr []) db)); [|discriminate].
  destruct (py_len (get_default "pages" (JArr []) db)); [|discriminate].
  destruct (py_len (get_default "crawl_queue" (JArr []) db)); [|discriminate].
  destruct (forallb topic_rel_ok l && forallb page_topics_ok l0); [|discriminate].
  destruct (is_dict (get_default "settings" (JObj []) db)); [|discriminate].
  split; [reflexivity|discriminate].
Qed.

Lemma get_default_has (k : string) (d x : json) :
  has k x = true -> get_default k d x = get k x.
Proof.
  destruct x; try discriminate. simpl. unfold dict_has.
  destruct (dict_get k m); auto; discriminate.
Qed.

Lemma finish_shape (x db : json) :
  finish py_hash now x = Done db ->
  four_keys db
  /\ (exists ps,
        iterate (get "pages" db) = Some ps /\
        Forall (fun p => is_dict p = true /\ has "title" p = true
                         /\ has "date_archived" p = true) ps)
  /\ (exists ts,
        get "page_topics" db = JArr ts /\
        Forall (fun t => is_dict t = true /\ has "topic" t = true
                         /\ has "page_id" t = true) ts)
  /\ is_dict (get "settings" db) = true
  /\ py_len (get "crawl_queue" db) <> None.
Proof.
  unfold finish. intros H.
  destruct (verify_and_fix_structure py_hash now x) as [db1|db1] eqn:V;
    [|discriminate].
  destruct (print_stats db1) as [db2|] eqn:P; [|discriminate].
  inversion H; subst db2. clear H.
  destruct (verify_done_shape _ _ _ _ V) as (ps' & ids & valid & K & I & F & Pi & T & Vt).
  destruct (print_stats_checks _ _ P) as [Sd Cq].
  rewrite get_default_has in Sd, Cq by apply K.
  assert (Pg : Forall (fun p => is_dict p = true /\ has "title" p = true
                                /\ has "date_archived" p = true) ps').
  { destruct (page_ids_spec _ _ Pi) as [A _]. rewrite Forall_forall in *.
    intros p Hp. specialize (A p Hp).
    destruct (In_nth_error _ _ Hp) as [k Nk].
    destruct (fix_pages_nth py_hash now ps' 0 ps' k p (F now) Nk) as [p' [N' E]].
    assert (p' = p) by congruence. subst p'.
    repeat split; auto.
    - eapply fix_page_title; eauto.
    - eapply fix_page_dated; eauto. }
  assert (Tp : Forall (fun t => is_dict t = true /\ has "topic" t = true
                                /\ has "page_id" t = true) valid).
  { rewrite Forall_forall. intros t Ht.
    destruct (valid_topics_spec py_hash _ _ _ Vt t Ht) as (_ & A & B & C & _). auto. }
  destruct (print_stats_cases _ _ P) as [_ [->|C]].
  - split; [exact K|]. split; [now exists ps'|]. split; [now exists valid|].
    now split.
  - destruct C as (ps & total & _ & _ & _ & _ & Sd' & ->).
    split; [now apply four_keys_set|].
    rewrite (get_set_other "pages"), (get_set_other "page_topics"),
      (get_set_other "crawl_queue") by discriminate.
    rewrite get_set_same by apply K.
    split; [now exists ps'|]. split; [now exists valid|].
    split; [|exact Cq]. now rewrite is_dict_set.
Qed.

(** After a successful ingestion the database is a dict with the four
    keys; the pages are dicts with a title and a date_archived; page_topics
    is a list of dicts that each have a topic and a page_id; the settings
    are a dict and the crawl queue has a length. *)
Theorem ingestion_success_shape (file : option string) (db : json) :
  load_file py_hash now file = (true, db) ->
  four_keys db
  /\ (exists ps,
        iterate (get "pages" db) = Some ps /\
        Forall (fun p => is_dict p = true /\ has "title" p = true
                         /\ has "date_archived" p = true) ps)
  /\ (exists ts,
        get "page_topics" db = JArr ts /\
        Forall (fun t => is_dict t = true /\ has "topic" t = true
                         /\ has "page_id" t = true) ts)
  /\ is_dict (get "settings" db) = true
  /\ py_len (get "crawl_queue" db) <> None.
Proof.
  intros H. destruct (load_file_success _ _ _ _ H) as [x F].
  exact (finish_shape _ _ F).
Qed.

(** The normalizer and the statistics leave as many pages as they find. *)
Lemma finish_keeps_pages (x db : json) :
  finish py_hash now x = Done db ->
  has_pages x = Some true ->
  exists p ps, get "pages" db = JArr (p :: ps).
Proof.
  unfold finish. intros H Hp.
  destruct (verify_and_fix_structure py_hash now x) as [db1|db1] eqn:V;
    [|discriminate].
  destruct (print_stats db1) as [db2|] eqn:P; [|discriminate].
  inversion H; subst db2. clear H.
  assert (D : is_dict x = true).
  { unfold has_pages in Hp. destruct x; auto; discriminate. }
  assert (Hk : has "pages" x = true).
  { unfold has_pages in Hp. destruct x; try discriminate. simpl in *.
    unfold dict_has. destruct (dict_get "pages" m); auto; discriminate. }
  destruct (verify_done py_hash now x db1 D V)
    as (ps & ps' & ids & ts & valid & It & F & Pi & _ & _ & _ & _ & _ & L).
  rewrite (get_with_keys _ _ Hk) in It, L.
  pose proof (fix_pages_length py_hash now ps 0 ps' true F) as Len.
  destruct (page_ids_spec _ _ Pi) as [A _].
  assert (G1 : exists p ps1, get "pages" db1 = JArr (p :: ps1)).
  { unfold has_pages in Hp. destruct (get "pages" x) as [| | |s|l|m] eqn:E;
      try discriminate.
    - exfalso. simpl in It. inversion It; subst ps.
      rewrite (fix_pages_not_dict py_hash now (chars s)) in F.
      + inversion F; subst ps'. destruct s; [discriminate|].
        simpl in A. inversion A. discriminate.
      + clear. induction s; simpl; auto.
    - simpl in It. inversion It; subst ps. rewrite (L l eq_refl).
      destruct ps' as [|p ps1]; eauto.
      destruct l; [discriminate|discriminate].
    - exfalso. simpl in It. inversion It; subst ps.
      rewrite (fix_pages_not_dict py_hash now) in F.
      + inversion F; subst ps'. destruct m; [discriminate|].
        simpl in A. inversion A. discriminate.
      + clear. induction m; simpl; auto. }
  destruct G1 as (p & ps1 & G1).
  destruct (print_stats_get _ _ "pages" P) as [G _]; [discriminate|].
  exists p, ps1. congruence.
Qed.

Lemma process_unstructured_pages (db0 : json) (file : string) (db : json) :
  process_unstructured_json py_hash now db0 file = (true, db) ->
  exists p ps, get "pages" db = JArr (p :: ps).
Proof.
  unfold process_unstructured_json.
  destruct (unstructured_chunks _ _ _ _) as [buffer db1].
  destruct (has_pages _) as [b|]; [|discriminate].
  match goal with
  | |- context [has_pages ?y] => set (db3 := y)
  end.
  destruct (has_pages db3) as [[|]|] eqn:Hp; try discriminate.
  destruct (finish py_hash now db3) as [db'|db'] eqn:F; [|discriminate].
  intros H. inversion H; subst. eapply finish_keeps_pages; eauto.
Qed.

Lemma process_structured_pages (db0 : json) (file : string) (db : json) :
  process_structured_json py_hash now db0 file = (true, db) ->
  exists p ps, get "pages" db = JArr (p :: ps).
Proof.
  unfold process_structured_json.
  destruct (structured_chunks _ _ _ _ _) as [db1|db1];
    [|apply process_unstructured_pages].
  destruct (has_pages db1) as [[|]|] eqn:Hp; try apply process_unstructured_pages.
  destruct (finish py_hash now db1) as [db'|db'] eqn:F;
    [|apply process_unstructured_pages].
  intros H. inversion H; subst. eapply finish_keeps_pages; eauto.
Qed.

Lemma load_large_file_pages (file : string) (db : json) :
  load_large_file py_hash now file = (true, db) ->
  exists p ps, get "pages" db = JArr (p :: ps).
Proof.
  unfold load_large_file.
  destruct (read start_chunk_size file) as [start_chunk rest].
  repeat match goal with
         | |- context [match ?x with _ => _ end] => destruct x
         | |- context [if ?x then _ else _] => destruct x
         end;
    first [ apply process_structured_pages | apply process_unstructured_pages ].
Qed.

(** A recovery never reports success without a page: when the text does
    not parse as one document, or the file is too large to try, a
    successful [load_file] leaves at least one page. *)
Theorem recovery_success_has_pages (raw_data : string) (db : json) :
  load_file py_hash now (Some raw_data) = (true, db) ->
  Json.loads raw_data = None \/ (large_file_bytes < len raw_data)%N ->
  exists p ps, get "pages" db = JArr (p :: ps).
Proof.
  unfold load_file. intros H C.
  destruct (large_file_bytes <? len raw_data)%N eqn:L.
  - exact (load_large_file_pages _ _ H).
  - destruct C as [C|C]; [|apply N.ltb_lt in C; congruence]. rewrite C in H.
    destruct (py_len _) as [n|] eqn:Pl; [|exact (load_large_file_pages _ _ H)].
    destruct (0 <? n) eqn:Z; [|exact (load_large_file_pages _ _ H)].
    destruct (finish py_hash now _) as [db'|db'] eqn:F;
      [|exact (load_large_file_pages _ _ H)].
    inversion H; subst. eapply finish_keeps_pages; eauto.
    unfold has_pages.
    match goal with
    | |- option_map _ (py_len (get "pages" ?y)) = _ => set (d := y) in *
    end.
    assert (E : get_default "pages" (JArr []) d = get "pages" d \/
                get_default "pages" (JArr []) d = JArr []).
    { destruct d; simpl; auto. destruct (dict_get "pages" m); auto. }
    destruct E as [E|E]; rewrite E in Pl.
    + rewrite Pl. simpl. now rewrite Z.
    + simpl in Pl. inversion Pl; subst. discriminate.
Qed.

End SuccessShape.

Lemma ingestion_success_shape_witness :
  let db := snd (load_file sample_hash sample_clock
                   (Some (lit "{`pages`: [{`url`: `u`, `id`: 4}], `page_topics`: [{`topic`: `t`, `page_id`: 4}, 7]}"))) in
  four_keys db
  /\ (exists ps,
        iterate (get "pages" db) = Some ps /\
        Forall (fun p => is_dict p = true /\ has "title" p = true
                         /\ has "date_archived" p = true) ps)
  /\ (exists ts,
        get "page_topics" db = JArr ts /\
        Forall (fun t => is_dict t = true /\ has "topic" t = true
                         /\ has "page_id" t = true) ts)
  /\ is_dict (get "settings" db) = true
  /\ py_len (get "crawl_queue" db) <> None.
Proof.
  apply (ingestion_success_shape sample_hash sample_clock
           (Some (lit "{`pages`: [{`url`: `u`, `id`: 4}], `page_topics`: [{`topic`: `t`, `page_id`: 4}, 7]}"))).
  vm_compute. reflexivity.
Defined.

Lemma recovery_success_has_pages_witness :
  exists p ps,
    get "pages" (snd (load_file sample_hash sample_clock
                        (Some (lit "`url`: `http://example.com/a`"))))
    = JArr (p :: ps).
Proof.
  apply (recovery_success_has_pages sample_hash sample_clock
           (lit "`url`: `http://example.com/a`")).
  - vm_compute. reflexivity.
  - left. vm_compute. reflexivity.
Defined.

(** The whole-document parse is the one path that reports success
    without a page. *)
Example whole_document_success_without_pages :
  load_file sample_hash sample_clock (Some (lit "{`pages`: []}"))
  = (true, JObj [("pages", JArr []); ("page_topics", JArr []);
                 ("settings", JObj []); ("crawl_queue", JArr [])]).
Proof. vm_compute. reflexivity. Qed.

(** ** The per-object extractor only appends *)

Lemma extract_page_step (db : json) (page_json : string) (ps : list json) :
  get "pages" db = JArr ps ->
  get "pages" (extract_page db page_json) = JArr ps
  \/ exists page_obj,
      Json.loads (cleanup_json page_json) = Some page_obj /\
      is_valid_page page_obj = true /\
      Forall (fun p => same_page page_obj p = false) ps /\
      get "pages" (extract_page db page_json) = JArr (ps ++ [page_obj]).
Proof.
  intros G.
  assert (D : is_dict db = true) by (destruct db; simpl in *; auto; discriminate).
  unfold extract_page.
  destruct (_ || _); auto.
  destruct (Json.loads _) as [page_obj|]; auto.
  destruct (is_valid_page page_obj) eqn:V; auto.
  rewrite G.
  destruct (any_get (same_page page_obj) ps) as [[|]|] eqn:A; auto.
  right. exists page_obj. repeat split; auto.
  - now apply any_get_false.
  - now apply get_set_same.
Qed.

Lemma extract_topic_step (db : json) (topic_json : string) (ts : list json) :
  get "page_topics" db = JArr ts ->
  get "page_topics" (extract_topic db topic_json) = JArr ts
  \/ exists topic_obj,
      Json.loads (cleanup_json topic_json) = Some topic_obj /\
      has "topic" topic_obj = true /\ has "page_id" topic_obj = true /\
      Forall (fun t => same_topic topic_obj t = false) ts /\
      get "page_topics" (extract_topic db topic_json) = JArr (ts ++ [topic_obj]).
Proof.
  intros G.
  assert (D : is_dict db = true) by (destruct db; simpl in *; auto; discriminate).
  unfold extract_topic.
  destruct (_ && _); auto.
  destruct (Json.loads _) as [topic_obj|]; auto.
  destruct (has "topic" topic_obj) eqn:T; auto.
  destruct (has "page_id" topic_obj) eqn:P; auto. simpl.
  rewrite G.
  destruct (any_get (same_topic topic_obj) ts) as [[|]|] eqn:A; auto.
  right. exists topic_obj. repeat split; auto.
  - now apply any_get_false.
  - now apply get_set_same.
Qed.

Lemma fold_extract_page (ms : list string) :
  forall (ok : json -> Prop) db ps,
    (forall m p, In m ms -> Json.loads (cleanup_json m) = Some p ->
                 is_valid_page p = true -> ok p) ->
    get "pages" db = JArr ps ->
    exists added,
      get "pages" (fold_left extract_page ms db) = JArr (ps ++ added)
      /\ added_after ok same_page ps added.
Proof.
  induction ms as [|m ms IH]; intros ok db ps Hok G; simpl.
  - exists []. now rewrite app_nil_r.
  - destruct (extract_page_step db m ps G) as [E|(p & L & V & F & E)].
    + apply IH; auto. intros; eapply Hok; eauto. now right.
    + destruct (IH ok _ _ (fun m' p' H => Hok m' p' (or_intror H)) E)
        as (added & A & B).
      exists (p :: added). rewrite A, <- app_assoc. split; auto.
      simpl. repeat split; auto. eapply Hok; eauto. now left.
Qed.

Lemma fold_extract_topic (ms : list string) :
  forall (ok : json -> Prop) db ts,
    (forall m t, In m ms -> Json.loads (cleanup_json m) = Some t ->
                 has "topic" t = true -> has "page_id" t = true -> ok t) ->
    get "page_topics" db = JArr ts ->
    exists added,
      get "page_topics" (fold_left extract_topic ms db) = JArr (ts ++ added)
      /\ added_after ok same_topic ts added.
Proof.
  induction ms as [|m ms IH]; intros ok db ts Hok G; simpl.
  - exists []. now rewrite app_nil_r.
  - destruct (extract_topic_step db m ts G) as [E|(t & L & T & P & F & E)].
    + apply IH; auto. intros; eapply Hok; eauto. now right.
    + destruct (IH ok _ _ (fun m' t' H => Hok m' t' (or_intror H)) E)
        as (added & A & B).
      exists (t :: added). rewrite A, <- app_assoc. split; auto.
      simpl. repeat split; auto. eapply Hok; eauto. now left.
Qed.

Lemma merge_settings_get (k : string) (db : json) (text : string) :
  k <> "settings" -> get k (merge_settings db text) = get k db.
Proof.
  intros H. unfold merge_settings.
  repeat match goal with
         | |- context [match ?x with _ => _ end] => destruct x
         end; auto; now rewrite get_set_other.
Qed.

(** [extract_objects] takes nothing away.  On a database whose pages and
    page_topics are lists it leaves both as they were with new elements
    behind them.  A new page is the parse of a cleaned match of the page
    pattern, is a dict with a url, a title or an id, and has the url and
    the truthy id of no page before it; a new relation is the parse of a
    cleaned match of the topic pattern, has a topic and a page_id, and
    repeats the pair of no relation before it.  Every key other than
    pages, page_topics and settings keeps its value. *)
Theorem extract_objects_only_appends (db : json) (text : string)
  (ps ts : list json) :
  get "pages" db = JArr ps ->
  get "page_topics" db = JArr ts ->
  (exists added,
     get "pages" (extract_objects db text) = JArr (ps ++ added) /\
     added_after
       (fun p => is_valid_page p = true /\
                 exists m, In m (matches Patterns.page_pattern text) /\
                           Json.loads (cleanup_json m) = Some p)
       same_page ps added)
  /\ (exists added,
        get "page_topics" (extract_objects db text) = JArr (ts ++ added) /\
        added_after
          (fun t => has "topic" t = true /\ has "page_id" t = true /\
                    exists m, In m (matches Patterns.topic_pattern text) /\
                              Json.loads (cleanup_json m) = Some t)
          same_topic ts added)
  /\ forall k, k <> "pages" -> k <> "page_topics" -> k <> "settings" ->
               get k (extract_objects db text) = get k db.
Proof.
  intros Gp Gt. unfold extract_objects. split; [|split].
  - rewrite merge_settings_get by discriminate.
    rewrite fold_left_get by (intros; apply extract_topic_get; discriminate).
    apply fold_extract_page; auto. intros m p I L V. split; eauto.
  - rewrite merge_settings_get by discriminate.
    apply fold_extract_topic.
    + intros m t I L T P. repeat split; eauto.
    + rewrite fold_left_get by (intros; apply extract_page_get; discriminate).
      exact Gt.
  - intros k K1 K2 K3. rewrite merge_settings_get by assumption.
    rewrite fold_left_get by (intros; now apply extract_topic_get).
    now rewrite fold_left_get by (intros; now apply extract_page_get).
Qed.

Lemma extract_objects_only_appends_witness :
  let db := set "pages" (JArr [JObj [("url", JStr "a")]]) empty_database in
  let text := lit "{`url`: `a`, `title`: `A`} {`url`: `b`, `title`: `B`} {`topic`: `t`, `page_id`: 1}" in
  (exists added,
     get "pages" (extract_objects db text)
     = JArr ([JObj [("url", JStr "a")]] ++ added) /\
     added_after
       (fun p => is_valid_page p = true /\
                 exists m, In m (matches Patterns.page_pattern text) /\
                           Json.loads (cleanup_json m) = Some p)
       same_page [JObj [("url", JStr "a")]] added)
  /\ (exists added,
        get "page_topics" (extract_objects db text) = JArr ([] ++ added) /\
        added_after
          (fun t => has "topic" t = true /\ has "page_id" t = true /\
                    exists m, In m (matches Patterns.topic_pattern text) /\
                              Json.loads (cleanup_json m) = Some t)
          same_topic [] added)
  /\ forall k, k <> "pages" -> k <> "page_topics" -> k <> "settings" ->
               get k (extract_objects db text) = get k db.
Proof.
  apply (extract_objects_only_appends
           (set "pages" (JArr [JObj [("url", JStr "a")]]) empty_database)
           (lit "{`url`: `a`, `title`: `A`} {`url`: `b`, `title`: `B`} {`topic`: `t`, `page_id`: 1}")
           [JObj [("url", JStr "a")]] []); reflexivity.
Defined.

(** On a sample: the page held is kept, the repeated url is not
    taken again, the new page and the relation are appended. *)
Example extract_objects_appends_sample :
  let db := set "pages" (JArr [JObj [("url", JStr "a")]]) empty_database in
  let db' := extract_objects db
               (lit "{`url`: `a`, `title`: `A`} {`url`: `b`, `title`: `B`} {`topic`: `t`, `page_id`: 1}") in
  get "pages" db' = JArr [JObj [("url", JStr "a")];
                          JObj [("url", JStr "b"); ("title", JStr "B")]]
  /\ get "page_topics" db' = JArr [JObj [("topic", JStr "t"); ("page_id", JInt 1)]].
Proof. vm_compute. split; reflexivity. Qed.

(** ** The pages of results *)

Lemma In_enumerate {A : Type} (l : list A) :
  forall i j x,
    In (j, x) (enumerate i l) <-> exists k, j = i + k /\ nth_error l k = Some x.
Proof.
  induction l as [|a l IH]; simpl; intros i j x.
  - split; [intros []|intros (k & _ & H); destruct k; discriminate].
  - split.
    + intros [E|H].
      * inversion E; subst. exists 0. split; [lia|reflexivity].
      * apply IH in H. destruct H as (k & -> & N). exists (S k).
        split; [lia|exact N].
    + intros (k & -> & N). destruct k as [|k].
      * left. simpl in N. inversion N. f_equal. lia.
      * right. apply IH. exists k. split; [lia|exact N].
Qed.

Lemma enumerate_length {A : Type} (l : list A) :
  forall i, List.length (enumerate i l) = List.length l.
Proof. induction l; simpl; intros; auto. Qed.

(** The entries of page [c]: the results at the positions from
    [10 (c - 1)] up to [10 c], each under its position plus one. *)
Lemma page_entries_In (results : list json) (c idx : Z) (page : json) :
  (1 <= c)%Z ->
  In (idx, page) (page_entries results c) <->
  exists k, idx = (Z.of_nat k + 1)%Z /\ nth_error results k = Some page /\
            ((c - 1) * 10 <= Z.of_nat k < c * 10)%Z.
Proof.
  intros Hc. unfold page_entries, py_slice, results_per_page.
  set (n := Z.of_nat (List.length results)).
  set (start := ((c - 1) * 10)%Z).
  set (stop := Z.min (start + 10) n).
  assert (Hn : (0 <= n)%Z) by (subst n; lia).
  assert (Hs : (0 <= start)%Z) by (subst start; lia).
  assert (Hstop : (0 <= stop)%Z) by (subst stop; lia).
  destruct (Z.ltb_spec start 0) as [|_]; [lia|].
  destruct (Z.ltb_spec stop 0) as [|_]; [lia|].
  set (b := Z.to_nat (Z.min start n)).
  set (a := Z.to_nat (Z.min stop n - Z.min start n)).
  rewrite in_map_iff. split.
  - intros ([j x] & E & H). simpl in E. inversion E; subst idx x. clear E.
    apply In_enumerate in H. destruct H as (k & -> & N).
    rewrite nth_error_firstn in N.
    destruct (Nat.ltb_spec k a) as [K|K]; [|discriminate].
    rewrite nth_error_skipn in N.
    assert (L : b + k < List.length results).
    { apply nth_error_Some. now rewrite N. }
    exists (b + k). split; [|split]; auto; subst a b stop n; lia.
  - intros (k & -> & N & R).
    assert (L : k < List.length results).
    { apply nth_error_Some. now rewrite N. }
    exists (1 + (k - b), page). split.
    + simpl fst. simpl snd. f_equal. subst b start n. lia.
    + apply In_enumerate. exists (k - b). split; auto.
      rewrite nth_error_firstn.
      destruct (Nat.ltb_spec (k - b) a) as [K|K].
      * rewrite nth_error_skipn. rewrite <- N. f_equal. subst b start n. lia.
      * exfalso. subst a b stop start n. lia.
Qed.

Lemma page_entries_length (results : list json) (c : Z) :
  List.length (page_entries results c) <= 10.
Proof.
  unfold page_entries, py_slice, results_per_page.
  rewrite length_map, enumerate_length, length_firstn.
  set (n := Z.of_nat (List.length results)).
  set (start := ((c - 1) * 10)%Z).
  destruct (Z.ltb_spec start 0); destruct (Z.ltb_spec (Z.min (start + 10) n) 0);
    lia.
Qed.

Lemma view_page_nth (results : list json) (k : nat) (page : json) :
  nth_error results k = Some page ->
  view_page results (Z.of_nat k + 1) = Some page.
Proof.
  intros N.
  assert (L : k < List.length results).
  { apply nth_error_Some. now rewrite N. }
  unfold view_page. destruct results as [|r results']; [destruct k; discriminate|].
  destruct (Z.ltb_spec (Z.of_nat k + 1) 1); [lia|].
  destruct (Z.ltb_spec (Z.of_nat (List.length (r :: results'))) (Z.of_nat k + 1));
    [lia|].
  simpl orb. cbv iota.
  replace (Z.to_nat (Z.of_nat k + 1 - 1)) with k by lia. exact N.
Qed.

Lemma total_pages_bounds (results : list json) :
  (10 * (total_pages results - 1) < Z.of_nat (List.length results)
   <= 10 * total_pages results)%Z.
Proof.
  unfold total_pages, results_per_page.
  set (n := Z.of_nat (List.length results)).
  pose proof (Z.div_mod (n + 10 - 1) 10 ltac:(lia)) as D.
  pose proof (Z.mod_pos_bound (n + 10 - 1) 10 ltac:(lia)) as M.
  lia.
Qed.

Lemma print_entries_all (db : json) (entries : list (Z * json)) :
  Forall (fun e => is_dict (snd e) = true /\ date_prints (snd e) = true /\
                   exists ts, get_page_topics db (snd e) = Some ts /\
                              forallb is_str ts = true) entries ->
  print_entries db entries = (entries, true).
Proof.
  induction 1 as [|[idx page] rest (D & P & ts & G & S) _ IH]; simpl; auto.
  simpl in D, P, G. rewrite D, G, P, S, IH. reflexivity.
Qed.

(** The pages of [display_results] between them list every result once,
    and under the number that [view_page] takes for it.  The result at
    position [k] stands on page [k / 10 + 1] under [k + 1]; what a page
    lists under a number is the result that [view_page] shows for the
    number, and the numbers of page [c] lie above [10 (c - 1)] and not
    above [10 c]; a page from 1 to [total_pages] lists between one and
    ten results.  When every result is a dict whose date is falsy or a
    string and whose topics are found and are strings, [display_results]
    prints the whole page and returns. *)
Theorem pagination_covers_results (db : json) (results : list json) :
  results <> [] ->
  (forall k page,
      nth_error results k = Some page ->
      let c := (Z.of_nat k / results_per_page + 1)%Z in
      (1 <= c <= total_pages results)%Z
      /\ In ((Z.of_nat k + 1)%Z, page) (page_entries results c)
      /\ view_page results (Z.of_nat k + 1) = Some page)
  /\ (forall c idx page,
         (1 <= c)%Z -> In (idx, page) (page_entries results c) ->
         ((c - 1) * 10 < idx <= c * 10)%Z
         /\ view_page results idx = Some page)
  /\ (forall c,
         (1 <= c <= total_pages results)%Z ->
         1 <= List.length (page_entries results c) <= 10)
  /\ (Forall (fun p => is_dict p = true /\ date_prints p = true /\
                       exists ts, get_page_topics db p = Some ts /\
                                  forallb is_str ts = true) results ->
      forall c, (1 <= c)%Z ->
                display_results db results c = (page_entries results c, true)).
Proof.
  intros NE. pose proof (total_pages_bounds results) as B.
  split; [|split; [|split]].
  - intros k page N c.
    assert (L : k < List.length results).
    { apply nth_error_Some. now rewrite N. }
    assert (Hc : (1 <= c <= total_pages results)%Z
                 /\ ((c - 1) * 10 <= Z.of_nat k < c * 10)%Z).
    { subst c. unfold results_per_page.
      pose proof (Z.div_mod (Z.of_nat k) 10 ltac:(lia)) as D.
      pose proof (Z.mod_pos_bound (Z.of_nat k) 10 ltac:(lia)) as M.
      lia. }
    destruct Hc as [Hc Hk]. split; [exact Hc|]. split.
    + apply page_entries_In; [lia|]. exists k. auto.
    + now apply view_page_nth.
  - intros c idx page Hc I. apply page_entries_In in I; [|exact Hc].
    destruct I as (k & -> & N & R). split; [lia|]. now apply view_page_nth.
  - intros c Hc. split; [|apply page_entries_length].
    destruct (nth_error results (Z.to_nat ((c - 1) * 10))) as [page|] eqn:N.
    + assert (I : In ((Z.of_nat (Z.to_nat ((c - 1) * 10)) + 1)%Z, page)
                     (page_entries results c)).
      { apply page_entries_In; [lia|]. eexists. split; [reflexivity|].
        split; [exact N|lia]. }
      destruct (page_entries results c); [destruct I|simpl; lia].
    + apply nth_error_None in N. lia.
  - intros F c Hc. unfold display_results.
    destruct results as [|r results']; [now destruct NE|].
    apply print_entries_all. apply Forall_forall. intros [idx page] I.
    apply page_entries_In in I; [|exact Hc]. destruct I as (k & _ & N & _).
    simpl. rewrite Forall_forall in F. apply F. eapply nth_error_In; eauto.
Qed.

Lemma pagination_covers_results_witness :
  let results := map (fun z => JObj [("id", JInt z)])
                   [1; 2; 3; 4; 5; 6; 7; 8; 9; 10; 11; 12]%Z in
  (forall k page,
      nth_error results k = Some page ->
      let c := (Z.of_nat k / results_per_page + 1)%Z in
      (1 <= c <= total_pages results)%Z
      /\ In ((Z.of_nat k + 1)%Z, page) (page_entries results c)
      /\ view_page results (Z.of_nat k + 1) = Some page)
  /\ (forall c idx page,
         (1 <= c)%Z -> In (idx, page) (page_entries results c) ->
         ((c - 1) * 10 < idx <= c * 10)%Z
         /\ view_page results idx = Some page)
  /\ (forall c,
         (1 <= c <= total_pages results)%Z ->
         1 <= List.length (page_entries results c) <= 10)
  /\ (Forall (fun p => is_dict p = true /\ date_prints p = true /\
                       exists ts, get_page_topics empty_database p = Some ts /\
                                  forallb is_str ts = true) results ->
      forall c, (1 <= c)%Z ->
                display_results empty_database results c
                = (page_entries results c, true)).
Proof.
  apply (pagination_covers_results empty_database
           (map (fun z => JObj [("id", JInt z)])
              [1; 2; 3; 4; 5; 6; 7; 8; 9; 10; 11; 12]%Z)).
  discriminate.
Defined.

(** Twelve results make two pages; the second lists the last two, and a
    result that is no dict stops the listing before its title line. *)
Example second_page_of_twelve :
  let results := map (fun z => JObj [("id", JInt z)])
                   [1; 2; 3; 4; 5; 6; 7; 8; 9; 10; 11; 12]%Z in
  total_pages results = 2%Z
  /\ display_results empty_database results 2
     = ([(11%Z, JObj [("id", JInt 11)]); (12%Z, JObj [("id", JInt 12)])], true)
  /\ view_page results 11 = Some (JObj [("id", JInt 11)])
  /\ view_page results 13 = None
  /\ display_results empty_database [JObj []; JInt 2; JObj []] 1
     = ([(1%Z, JObj [])], false).
Proof. vm_compute. repeat split; reflexivity. Qed.

(** The page turns of [search_menu] start at page 1, where [search]
    leaves [current_page], and never leave the pages that exist: after any
    turns the current page is between 1 and [total_pages] and lists at
    least one result; every such page is reached by turning forward. *)
Theorem page_turns_stay_in_range (results : list json) (turns : list turn) :
  results <> [] ->
  (let c := fold_left (turn_page results) turns 1%Z in
   (1 <= c <= total_pages results)%Z /\ page_entries results c <> [])
  /\ forall c, (1 <= c <= total_pages results)%Z ->
               fold_left (turn_page results)
                 (repeat NextPage (Z.to_nat (c - 1))) 1%Z = c.
Proof.
  intros NE. pose proof (total_pages_bounds results) as B.
  assert (L : 0 < List.length results) by (destruct results; simpl; [easy|lia]).
  assert (I : forall ts c, (1 <= c <= total_pages results)%Z ->
              (1 <= fold_left (turn_page results) ts c <= total_pages results)%Z).
  { induction ts as [|t ts IH]; intros c Hc; simpl; auto.
    apply IH. destruct t; simpl.
    - destruct (Z.ltb_spec c (total_pages results)); lia.
    - destruct (Z.ltb_spec 1 c); lia. }
  split.
  - cbv zeta. assert (R := I turns 1%Z ltac:(lia)). split; [exact R|].
    set (c := fold_left (turn_page results) turns 1%Z) in *.
    destruct (nth_error results (Z.to_nat ((c - 1) * 10))) as [page|] eqn:N.
    + assert (J : In ((Z.of_nat (Z.to_nat ((c - 1) * 10)) + 1)%Z, page)
                     (page_entries results c)).
      { apply page_entries_In; [lia|]. eexists. split; [reflexivity|].
        split; [exact N|lia]. }
      intros E. rewrite E in J. destruct J.
    + apply nth_error_None in N. lia.
  - intros c Hc.
    assert (G : forall m a, (1 <= a)%Z -> (a + Z.of_nat m <= total_pages results)%Z ->
                  fold_left (turn_page results) (repeat NextPage m) a
                  = (a + Z.of_nat m)%Z).
    { induction m as [|m IH]; intros a Ha Hm; simpl; [lia|].
      destruct (Z.ltb_spec a (total_pages results)); [|lia].
      rewrite IH; lia. }
    rewrite G; lia.
Qed.

Lemma page_turns_stay_in_range_witness :
  let results := map JInt [1; 2; 3; 4; 5; 6; 7; 8; 9; 10; 11; 12]%Z in
  let turns := [NextPage; NextPage; PreviousPage; NextPage; NextPage] in
  (let c := fold_left (turn_page results) turns 1%Z in
   (1 <= c <= total_pages results)%Z /\ page_entries results c <> [])
  /\ forall c, (1 <= c <= total_pages results)%Z ->
               fold_left (turn_page results)
                 (repeat NextPage (Z.to_nat (c - 1))) 1%Z = c.
Proof.
  apply (page_turns_stay_in_range
           (map JInt [1; 2; 3; 4; 5; 6; 7; 8; 9; 10; 11; 12]%Z)
           [NextPage; NextPage; PreviousPage; NextPage; NextPage]).
  discriminate.
Defined.

(** ** Search *)

Lemma str_lt_irrefl (s : string) : str_lt s s = false.
Proof. induction s as [|a s IH]; simpl; auto. now rewrite Nat.ltb_irrefl. Qed.

Lemma str_lt_asym (s : string) :
  forall t, str_lt s t = true -> str_lt t s = false.
Proof.
  induction s as [|a s IH]; intros [|b t]; simpl; auto; try discriminate.
  repeat match goal with
         | |- context [Nat.ltb ?x ?y] => destruct (Nat.ltb_spec x y)
         end; auto; try lia; discriminate.
Qed.

Lemma str_ge_trans (x : string) :
  forall y z, str_lt x y = false -> str_lt y z = false -> str_lt x z = false.
Proof.
  induction x as [|a x IH]; intros [|b y] [|c z]; simpl; auto; try discriminate.
  repeat match goal with
         | |- context [Nat.ltb ?x ?y] => destruct (Nat.ltb_spec x y)
         end; auto; try lia; try discriminate. apply IH.
Qed.

Lemma filter_opt_spec {A : Type} (f : A -> option bool) (l : list A) :
  forall r, filter_opt f l = Some r ->
            r = filter (fun x => match f x with Some true => true | _ => false end) l.
Proof.
  induction l as [|x l IH]; simpl; intros r H.
  - now inversion H.
  - destruct (f x) as [b|]; [|discriminate].
    destruct (filter_opt f l) as [r'|]; [|discriminate].
    simpl in H. inversion H; subst. rewrite (IH r' eq_refl). now destruct b.
Qed.

Lemma filter_twice {A : Type} (f g : A -> bool) (l : list A) :
  filter g (filter f l) = filter (fun x => f x && g x) l.
Proof.
  induction l as [|x l IH]; simpl; auto.
  destruct (f x); simpl; [destruct (g x)|]; now rewrite IH.
Qed.

Lemma date_keys_spec (l : list json) :
  forall keyed, date_keys l = Some keyed ->
                keyed = map (fun p => (date_of p, p)) l
                /\ Forall (fun p => is_dict p = true) l.
Proof.
  induction l as [|p l IH]; simpl; intros keyed H.
  - inversion H. auto.
  - destruct (is_dict p) eqn:D; [|discriminate].
    destruct (date_keys l) as [k|]; [|discriminate].
    simpl in H. inversion H; subst. destruct (IH k eq_refl) as [-> F]. auto.
Qed.

Lemma insert_desc_perm (x : json * json) (l : list (json * json)) :
  Permutation (insert_desc x l) (x :: l).
Proof.
  induction l as [|y l IH]; simpl; auto.
  destruct (py_lt (fst x) (fst y)) as [[|]|]; auto.
  rewrite IH. apply perm_swap.
Qed.

Lemma sort_desc_perm (l : list (json * json)) :
  Permutation (fold_right insert_desc [] l) l.
Proof.
  induction l as [|x l IH]; simpl; auto.
  rewrite insert_desc_perm. now constructor.
Qed.

(** Items with one date keep their order. *)
Lemma insert_desc_stable (s : string) (x : json * json) (l : list (json * json)) :
  fst x = date_of (snd x) ->
  Forall (fun y => fst y = date_of (snd y)) l ->
  filter (fun y => dated s (snd y)) (insert_desc x l)
  = filter (fun y => dated s (snd y)) (x :: l).
Proof.
  intros Hx. induction 1 as [|y l Hy _ IH]; auto.
  cbn [insert_desc].
  destruct (py_lt (fst x) (fst y)) as [[|]|] eqn:L; auto.
  cbn [filter] in *. rewrite IH.
  destruct (dated s (snd x)) eqn:Dx; auto.
  destruct (dated s (snd y)) eqn:Dy; auto.
  exfalso. unfold dated in Dx, Dy. rewrite <- Hx in Dx. rewrite <- Hy in Dy.
  destruct (fst x) as [| | |a| |]; try discriminate.
  destruct (fst y) as [| | |b| |]; try discriminate.
  apply String.eqb_eq in Dx, Dy. subst a b. simpl in L.
  rewrite str_lt_irrefl in L. discriminate.
Qed.

Lemma sort_desc_stable (s : string) (l : list (json * json)) :
  Forall (fun y => fst y = date_of (snd y)) l ->
  filter (fun y => dated s (snd y)) (fold_right insert_desc [] l)
  = filter (fun y => dated s (snd y)) l.
Proof.
  induction 1 as [|x l Hx F IH]; auto.
  cbn [fold_right]. rewrite insert_desc_stable; auto.
  - cbn [filter]. now rewrite IH.
  - eapply Permutation_Forall; [|exact F]. symmetry. apply sort_desc_perm.
Qed.

(** With string keys the later items are never newer. *)
Lemma insert_desc_sorted (x : json * json) (l : list (json * json)) :
  is_str (fst x) = true ->
  Forall (fun y => is_str (fst y) = true) l ->
  pairwise (fun a b => py_lt (fst a) (fst b) = Some false) l ->
  pairwise (fun a b => py_lt (fst a) (fst b) = Some false) (insert_desc x l).
Proof.
  intros Sx. induction 1 as [|y l Sy F IH]; intros P.
  - simpl. auto.
  - cbn [insert_desc]. destruct P as [Py Pl].
    assert (exists a, fst x = JStr a) as [a Ex]
        by (destruct (fst x); try discriminate; eauto).
    assert (exists b, fst y = JStr b) as [b Ey]
        by (destruct (fst y); try discriminate; eauto).
    assert (Lxy : py_lt (fst x) (fst y) = Some (str_lt a b))
        by (rewrite Ex, Ey; reflexivity).
    rewrite Lxy. destruct (str_lt a b) eqn:L.
    + cbn [pairwise]. split; [|now apply IH].
      eapply Permutation_Forall; [symmetry; apply insert_desc_perm|].
      constructor; auto. rewrite Ex, Ey. cbn [py_lt]. f_equal.
      now apply str_lt_asym.
    + cbn [pairwise]. split; [|split; auto].
      constructor.
      * now rewrite Lxy.
      * rewrite Forall_forall in *. intros z Hz.
        specialize (Py z Hz). specialize (F z Hz).
        destruct (fst z) as [| | |c| |]; try discriminate.
        rewrite Ex. rewrite Ey in Py. cbn [py_lt] in *. f_equal.
        apply (str_ge_trans a b c L). congruence.
Qed.

Lemma sort_desc_sorted (l : list (json * json)) :
  Forall (fun y => is_str (fst y) = true) l ->
  pairwise (fun a b => py_lt (fst a) (fst b) = Some false)
    (fold_right insert_desc [] l).
Proof.
  induction 1 as [|x l Sx F IH]; simpl; auto.
  apply insert_desc_sorted; auto.
  eapply Permutation_Forall; [|exact F]. symmetry. apply sort_desc_perm.
Qed.

Lemma comparable_str (k : json) (s : string) :
  comparable (JStr s) k = true \/ comparable k (JStr s) = true -> is_str k = true.
Proof. destruct k; simpl; intros [H|H]; auto; discriminate. Qed.

(** Keys that can all be compared are all strings or none is. *)
Lemma all_pairs_str (keys : list json) :
  all_pairs comparable keys = true ->
  Forall (fun k => is_str k = true) keys \/ Forall (fun k => is_str k = false) keys.
Proof.
  induction keys as [|k keys IH]; simpl; auto.
  intros H. apply andb_prop in H. destruct H as [F A].
  rewrite forallb_forall in F.
  destruct (is_str k) eqn:S.
  - left. constructor; auto. apply Forall_forall. intros z Hz.
    destruct k; try discriminate. eapply comparable_str. left. eauto.
  - destruct (IH A) as [G|G].
    + destruct keys as [|z keys']; [right; auto|].
      exfalso. inversion G; subst. specialize (F z (or_introl eq_refl)).
      destruct z; try discriminate.
      rewrite (comparable_str k s) in S; [discriminate|]. now right.
    + right. auto.
Qed.

Lemma pairwise_all {A : Type} (R : A -> A -> Prop) (l : list A) :
  (forall a b, In a l -> In b l -> R a b) -> pairwise R l.
Proof.
  induction l as [|x l IH]; simpl; intros H; auto. split.
  - apply Forall_forall. intros b Hb. apply H; auto.
  - apply IH. intros a b Ha Hb. apply H; auto.
Qed.

Lemma pairwise_impl {A : Type} (R S : A -> A -> Prop) (l : list A) :
  (forall a b, R a b -> S a b) -> pairwise R l -> pairwise S l.
Proof.
  intros H. induction l as [|x l IH]; simpl; auto. intros [F P]. split; auto.
  eapply Forall_impl; [|exact F]. auto.
Qed.

(** What [sort_desc] gives for the results [l] under their dates. *)
Lemma sort_desc_spec (l results : list json) :
  sort_desc (map (fun p => (date_of p, p)) l) = Some results ->
  Permutation results l
  /\ (forall s, filter (dated s) results = filter (dated s) l)
  /\ pairwise (fun r1 r2 => forall s t, date_of r1 = JStr s -> date_of r2 = JStr t ->
                                        str_lt s t = false) results.
Proof.
  unfold sort_desc. set (keyed := map (fun p => (date_of p, p)) l).
  assert (K : Forall (fun y => fst y = date_of (snd y)) keyed).
  { subst keyed. apply Forall_forall. intros y Hy. apply in_map_iff in Hy.
    destruct Hy as (p & <- & _). reflexivity. }
  assert (Sl : map snd keyed = l).
  { subst keyed. rewrite map_map. simpl. apply map_id. }
  clearbody keyed.
  destruct (all_pairs comparable (map fst keyed)) eqn:C; [|discriminate].
  intros H. injection H as <-. rewrite <- Sl. clear Sl l.
  split; [|split].
  - apply Permutation_map, sort_desc_perm.
  - intros s. rewrite !filter_map_swap. f_equal.
    now apply sort_desc_stable.
  - apply (proj1 (pairwise_map snd
                    (fun r1 r2 => forall s t,
                         date_of r1 = JStr s -> date_of r2 = JStr t ->
                         str_lt s t = false)
                    (fold_right insert_desc [] keyed))).
    assert (K' : Forall (fun y => fst y = date_of (snd y))
                   (fold_right insert_desc [] keyed)).
    { eapply Permutation_Forall; [|exact K]. symmetry. apply sort_desc_perm. }
    destruct (all_pairs_str _ C) as [S|S]; rewrite Forall_map in S.
    + assert (P := sort_desc_sorted keyed S).
      revert P K'. generalize (fold_right insert_desc [] keyed) as srt. clear.
      induction srt as [|x srt IH]; simpl; auto. intros [F Q] K.
      inversion K as [|? ? Hx Hs]; subst. split; auto.
      rewrite Forall_forall in *. intros y Hy s t Es Et.
      specialize (F y Hy). specialize (Hs y Hy).
      rewrite Hx, Hs, Es, Et in F. simpl in F. now inversion F.
    + apply pairwise_all. intros a b Ha _ s t Es _.
      assert (Ia : In a keyed).
      { eapply Permutation_in; [apply sort_desc_perm|exact Ha]. }
      rewrite Forall_forall in S, K. specialize (S a Ia). specialize (K a Ia).
      rewrite K, Es in S. discriminate.
Qed.

Lemma field_has_true (q f : string) (page : json) :
  field_has q f page = Some true ->
  exists s, get f page = JStr s /\ contains q (lower s) = true.
Proof.
  unfold field_has. destruct (truthy (get f page)); [|discriminate].
  destruct (get f page); try discriminate. intros H. inversion H. eauto.
Qed.

Lemma text_match_true (q : string) (page : json) :
  text_match q page = Some true ->
  is_dict page = true /\
  exists f s, (f = "title" \/ f = "url" \/ f = "description") /\
              get f page = JStr s /\ contains q (lower s) = true.
Proof.
  unfold text_match. destruct (is_dict page); [|discriminate].
  intros H. split; auto.
  destruct (field_has q "title" page) as [[|]|] eqn:T; try discriminate.
  - destruct (field_has_true _ _ _ T) as (s & G & C). exists "title", s. auto.
  - destruct (field_has q "url" page) as [[|]|] eqn:U; try discriminate.
    + destruct (field_has_true _ _ _ U) as (s & G & C). exists "url", s. auto.
    + destruct (field_has_true _ _ _ H) as (s & G & C).
      exists "description", s. auto.
Qed.

Lemma has_topics_true (db : json) (active_topics : list json) (page : json) :
  has_topics db active_topics page = Some true ->
  exists topics,
    get_page_topics db page = Some topics /\
    forall t, In t active_topics -> exists x, In x topics /\ eq x t = true.
Proof.
  unfold has_topics. destruct (is_dict page); [|discriminate].
  destruct (get_page_topics db page) as [topics|]; [|discriminate].
  simpl. intros H.
  assert (F : forallb (fun topic => existsb (fun t => eq t topic) topics)
                active_topics = true) by congruence.
  clear H. exists topics. split; auto.
  rewrite forallb_forall in F. intros t Ht. specialize (F t Ht).
  apply existsb_exists in F. exact F.
Qed.

(** What [search] leaves in [filtered_results] when it returns: the pages
    that pass the two filters, each as often as the database holds it,
    ordered so that a result with a date string never stands before one
    with a greater date string, and with the results of one date in the
    order of the database.  A result is a dict; with a query, one of its
    title, url and description is a string that holds the query, both in
    lower case; its topics hold every active topic. *)
Theorem search_filters_and_orders (db : json) (active_topics : list json)
  (search_query : string) (results : list json) :
  search db active_topics search_query = Some results ->
  exists ps,
    iterate (get_default "pages" (JArr []) db) = Some ps
    /\ Permutation results (filter (passes db active_topics search_query) ps)
    /\ (forall s, filter (dated s) results
                  = filter (dated s)
                      (filter (passes db active_topics search_query) ps))
    /\ pairwise (fun r1 r2 => forall s t,
                     date_of r1 = JStr s -> date_of r2 = JStr t ->
                     str_lt s t = false) results
    /\ forall r, In r results ->
         In r ps /\ is_dict r = true
         /\ (nonempty search_query = true ->
             exists f s, (f = "title" \/ f = "url" \/ f = "description") /\
                         get f r = JStr s /\
                         contains (lower search_query) (lower s) = true)
         /\ forall t, In t active_topics ->
              exists topics x,
                get_page_topics db r = Some topics /\ In x topics /\
                eq x t = true.
Proof.
  unfold search. intros H.
  destruct (is_dict db) eqn:Ddb; [|discriminate].
  set (pages := get_default "pages" (JArr []) db) in *.
  assert (exists ps, iterate pages = Some ps /\
            match (match active_topics with
                   | [] => Some (ps, is_str pages)
                   | _ :: _ => option_map (fun r => (r, false))
                                 (filter_opt (has_topics db active_topics) ps)
                   end) with
            | Some (results0, still_str) =>
                match (if nonempty search_query
                       then option_map (fun r => (r, false))
                              (filter_opt (text_match (lower search_query)) results0)
                       else Some (results0, still_str)) with
                | Some (results1, still_str1) =>
                    if still_str1 then None
                    else match date_keys results1 with
                         | Some keyed => sort_desc keyed
                         | None => None
                         end
                | None => None
                end
            | None => None
            end = Some results) as (ps & It & H').
  { destruct pages; try discriminate; simpl iterate in *; eauto. }
  clear H. exists ps. split; [exact It|].
  set (f1 := fun p => match active_topics with
                      | [] => true
                      | _ :: _ => match has_topics db active_topics p with
                                  | Some true => true | _ => false end
                      end).
  set (f2 := fun p => if nonempty search_query then
                        match text_match (lower search_query) p with
                        | Some true => true | _ => false end
                      else true).
  assert (E : exists l, l = filter f2 (filter f1 ps) /\
                        date_keys l <> None /\
                        match date_keys l with
                        | Some keyed => sort_desc keyed
                        | None => None
                        end = Some results).
  { destruct active_topics as [|t0 ts0].
    - assert (F1 : filter f1 ps = ps).
      { subst f1. simpl. clear. induction ps; simpl; congruence. }
      rewrite F1. destruct (nonempty search_query) eqn:Q.
      + destruct (filter_opt _ ps) as [r|] eqn:Fo; [|discriminate].
        simpl in H'. exists r. split.
        * subst f2. simpl. now apply filter_opt_spec.
        * split; auto. destruct (date_keys r); [discriminate|discriminate].
      + destruct (is_str pages); [discriminate|].
        exists ps. split.
        * subst f2. simpl. clear. induction ps; simpl; congruence.
        * split; auto. destruct (date_keys ps); [discriminate|discriminate].
    - destruct (filter_opt (has_topics db (t0 :: ts0)) ps) as [r0|] eqn:Fo0;
        [|discriminate].
      simpl in H'. apply filter_opt_spec in Fo0.
      assert (F1 : filter f1 ps = r0) by (subst f1; now rewrite Fo0).
      rewrite F1. destruct (nonempty search_query) eqn:Q.
      + destruct (filter_opt _ r0) as [r|] eqn:Fo; [|discriminate].
        simpl in H'. exists r. split.
        * subst f2. simpl. now apply filter_opt_spec.
        * split; auto. destruct (date_keys r); [discriminate|discriminate].
      + exists r0. split.
        * subst f2. simpl. clear. induction r0; simpl; congruence.
        * split; auto. destruct (date_keys r0); [discriminate|discriminate]. }
  destruct E as (l & El & Dk & Hs).
  destruct (date_keys l) as [keyed|] eqn:K; [|now destruct Dk].
  destruct (date_keys_spec _ _ K) as [-> Dl].
  destruct (sort_desc_spec _ _ Hs) as (P & St & So).
  assert (Ef : l = filter (passes db active_topics search_query) ps).
  { rewrite El, filter_twice. reflexivity. }
  rewrite <- Ef. split; [exact P|]. split; [exact St|]. split; [exact So|].
  intros r Hr. assert (Il : In r l) by (eapply Permutation_in; eauto).
  rewrite Forall_forall in Dl. pose proof (Dl r Il) as Dr.
  rewrite El in Il. apply filter_In in Il. destruct Il as [Il F2].
  apply filter_In in Il. destruct Il as [Ip F1].
  split; [exact Ip|]. split; [exact Dr|]. split.
  - intros Q. subst f2. simpl in F2. rewrite Q in F2.
    destruct (text_match (lower search_query) r) as [[|]|] eqn:T; try discriminate.
    now destruct (text_match_true _ _ T).
  - subst f1. simpl in F1. intros t Ht.
    destruct active_topics as [|t0 ts0]; [destruct Ht|].
    destruct (has_topics db (t0 :: ts0) r) as [[|]|] eqn:T; try discriminate.
    destruct (has_topics_true _ _ _ T) as (topics & G & A).
    destruct (A t Ht) as (x & Ix & Ex). exists topics, x. auto.
Qed.

Lemma search_filters_and_orders_witness :
  exists ps,
    iterate (get_default "pages" (JArr []) sample_archive) = Some ps
    /\ Permutation
         [JObj [("url", JStr "http://alpha.example");
                ("date_archived", JStr "2021-01-01"); ("id", JInt 7)];
          JObj [("title", JStr "Alpha"); ("date_archived", JStr "2020-05-01");
                ("topics", JStr "news, science")]]
         (filter (passes sample_archive [JStr "news"] "ALPHA") ps)
    /\ (forall s,
          filter (dated s)
            [JObj [("url", JStr "http://alpha.example");
                   ("date_archived", JStr "2021-01-01"); ("id", JInt 7)];
             JObj [("title", JStr "Alpha"); ("date_archived", JStr "2020-05-01");
                   ("topics", JStr "news, science")]]
          = filter (dated s)
              (filter (passes sample_archive [JStr "news"] "ALPHA") ps))
    /\ pairwise (fun r1 r2 => forall s t,
                     date_of r1 = JStr s -> date_of r2 = JStr t ->
                     str_lt s t = false)
         [JObj [("url", JStr "http://alpha.example");
                ("date_archived", JStr "2021-01-01"); ("id", JInt 7)];
          JObj [("title", JStr "Alpha"); ("date_archived", JStr "2020-05-01");
                ("topics", JStr "news, science")]]
    /\ forall r,
         In r [JObj [("url", JStr "http://alpha.example");
                     ("date_archived", JStr "2021-01-01"); ("id", JInt 7)];
               JObj [("title", JStr "Alpha"); ("date_archived", JStr "2020-05-01");
                     ("topics", JStr "news, science")]] ->
         In r ps /\ is_dict r = true
         /\ (nonempty "ALPHA" = true ->
             exists f s, (f = "title" \/ f = "url" \/ f = "description") /\
                         get f r = JStr s /\
                         contains (lower "ALPHA") (lower s) = true)
         /\ forall t, In t [JStr "news"] ->
              exists topics x,
                get_page_topics sample_archive r = Some topics /\ In x topics /\
                eq x t = true.
Proof.
  apply (search_filters_and_orders sample_archive [JStr "news"] "ALPHA").
  vm_compute. reflexivity.
Defined.

(** Dates of two kinds cannot be ordered, and inline topics that are a
    list have no [split]: [search] raises on such pages. *)
Example search_raises :
  search (JObj [("pages", JArr [JObj [("date_archived", JStr "2020")];
                                JObj [("date_archived", JInt 2021)]])]) [] ""
  = None
  /\ search (JObj [("pages", JArr [JObj [("topics", JArr [JStr "a"])]])])
       [JStr "a"] ""
     = None
  /\ search (JObj [("pages", JArr [JObj [("topics", JArr [JStr "a"])]])]) [] ""
     = Some [JObj [("topics", JArr [JStr "a"])]].
Proof. vm_compute. repeat split; reflexivity. Qed.

(** ** The list of topics *)

Lemma str_lt_trans (x : string) :
  forall y z, str_lt x y = true -> str_lt y z = true -> str_lt x z = true.
Proof.
  induction x as [|a x IH]; intros [|b y] [|c z]; simpl; auto; try discriminate.
  repeat match goal with
         | |- context [Nat.ltb ?x ?y] => destruct (Nat.ltb_spec x y)
         end; auto; try lia; try discriminate. apply IH.
Qed.

Lemma str_lt_total (s : string) :
  forall t, str_lt s t = false -> str_lt t s = false -> s = t.
Proof.
  induction s as [|a s IH]; intros [|b t]; simpl; auto; try discriminate.
  destruct (Nat.ltb_spec (nat_of_ascii a) (nat_of_ascii b)); [discriminate|].
  destruct (Nat.ltb_spec (nat_of_ascii b) (nat_of_ascii a)); [discriminate|].
  intros H1 H2. f_equal; auto.
  rewrite <- (ascii_nat_embedding a), <- (ascii_nat_embedding b). f_equal. lia.
Qed.

Lemma flat_lt_trans (a b c : json) :
  hashable b = true ->
  py_lt a b = Some true -> py_lt b c = Some true -> py_lt a c = Some true.
Proof.
  intros Hb Lab Lbc.
  destruct a as [|x|x|x|x|x]; destruct b as [|y|y|y|y|y]; try discriminate;
    destruct c as [|z|z|z|z|z]; try discriminate; simpl in *;
    injection Lab as Lab; injection Lbc as Lbc; f_equal;
    try (eapply str_lt_trans; eassumption);
    apply Z.ltb_lt in Lab, Lbc; apply Z.ltb_lt; lia.
Qed.

Lemma flat_trichotomy (a b : json) :
  hashable a = true -> hashable b = true ->
  comparable a b = true -> eq a b = false ->
  py_lt a b = Some true \/ py_lt b a = Some true.
Proof.
  intros Ha Hb C E.
  destruct a as [|x|x|x|x|x]; destruct b as [|y|y|y|y|y]; try discriminate;
    simpl in *.
  - destruct x, y; simpl in *; auto; discriminate.
  - destruct (Z.ltb_spec (Z.b2z x) y); auto. destruct (Z.ltb_spec y (Z.b2z x)); auto.
    apply Z.eqb_neq in E. lia.
  - destruct (Z.ltb_spec x (Z.b2z y)); auto. destruct (Z.ltb_spec (Z.b2z y) x); auto.
    apply Z.eqb_neq in E. lia.
  - destruct (Z.ltb_spec x y); auto. destruct (Z.ltb_spec y x); auto.
    apply Z.eqb_neq in E. lia.
  - destruct (str_lt x y) eqn:L1; auto. destruct (str_lt y x) eqn:L2; auto.
    rewrite (str_lt_total _ _ L1 L2), String.eqb_refl in E. discriminate.
Qed.

Lemma eq_refl_hashable (x : json) : hashable x = true -> eq x x = true.
Proof.
  destruct x; simpl; try discriminate; intros _; auto.
  - now destruct b.
  - apply Z.eqb_refl.
  - apply String.eqb_refl.
Qed.

Lemma eq_str_r (t : json) (u : string) : eq t (JStr u) = true -> t = JStr u.
Proof.
  destruct t; simpl; try discriminate. intros H. f_equal.
  now apply String.eqb_eq.
Qed.

Lemma insert_asc_perm (x : json * json) (l : list (json * json)) :
  Permutation (insert_asc x l) (x :: l).
Proof.
  induction l as [|y l IH]; simpl; auto.
  destruct (py_lt (fst y) (fst x)) as [[|]|]; auto.
  rewrite IH. apply perm_swap.
Qed.

Lemma sort_asc_perm (l : list (json * json)) :
  Permutation (fold_right insert_asc [] l) l.
Proof.
  induction l as [|x l IH]; simpl; auto.
  rewrite insert_asc_perm. now constructor.
Qed.

(** An item that differs from the sorted ones and can be compared with
    them goes to its place. *)
Lemma insert_asc_sorted (x : json * json) (l : list (json * json)) :
  hashable (fst x) = true ->
  Forall (fun y => hashable (fst y) = true /\ comparable (fst x) (fst y) = true
                   /\ eq (fst x) (fst y) = false) l ->
  pairwise (fun a b => py_lt (fst a) (fst b) = Some true) l ->
  pairwise (fun a b => py_lt (fst a) (fst b) = Some true) (insert_asc x l).
Proof.
  intros Hx. induction 1 as [|y l (Hy & C & E) F IH]; intros P.
  - simpl. auto.
  - cbn [insert_asc]. destruct P as [Py Pl].
    destruct (py_lt (fst y) (fst x)) as [[|]|] eqn:L.
    + cbn [pairwise]. split; [|now apply IH].
      eapply Permutation_Forall; [symmetry; apply insert_asc_perm|].
      constructor; auto.
    + assert (Lx : py_lt (fst x) (fst y) = Some true).
      { destruct (flat_trichotomy _ _ Hx Hy C E) as [A|A]; congruence. }
      cbn [pairwise]. split; [|split; auto]. constructor; auto.
      rewrite Forall_forall in *. intros z Hz.
      eapply flat_lt_trans; eauto.
    + assert (Lx : py_lt (fst x) (fst y) = Some true).
      { destruct (flat_trichotomy _ _ Hx Hy C E) as [A|A]; congruence. }
      cbn [pairwise]. split; [|split; auto]. constructor; auto.
      rewrite Forall_forall in *. intros z Hz.
      eapply flat_lt_trans; eauto.
Qed.

(** [sorted] on hashable items no two of which are equal. *)
Lemma sorted_spec (items : list json) :
  forall topics,
    sorted items = Some topics ->
    Forall (fun x => hashable x = true) items ->
    pairwise (fun a b => eq a b = false) items ->
    Permutation topics items
    /\ pairwise (fun a b => py_lt a b = Some true) topics.
Proof.
  unfold sorted. intros topics H Hh Pn.
  destruct (all_pairs comparable items) eqn:C; [|discriminate].
  injection H as <-.
  set (dup := fun x : json => (x, x)).
  assert (Sl : forall l : list (json * json),
             Forall (fun y => fst y = snd y) l -> map snd l = map fst l).
  { induction 1 as [|y l Hy _ IH]; simpl; congruence. }
  assert (D : Forall (fun y => fst y = snd y) (fold_right insert_asc [] (map dup items))).
  { eapply Permutation_Forall; [symmetry; apply sort_asc_perm|].
    apply Forall_forall. intros y Hy. apply in_map_iff in Hy.
    destruct Hy as (x & <- & _). reflexivity. }
  split.
  - transitivity (map snd (map dup items)).
    + apply Permutation_map, sort_asc_perm.
    + rewrite map_map. simpl. now rewrite map_id.
  - rewrite (Sl _ D). apply pairwise_map. clear D Sl.
    induction items as [|x items IH]; [simpl; auto|].
    simpl in C. apply andb_prop in C. destruct C as [Cx C].
    inversion Hh as [|? ? Hx Hh']; subst. destruct Pn as [Nx Pn].
    cbn [map fold_right]. apply insert_asc_sorted; auto.
    eapply Permutation_Forall; [symmetry; apply sort_asc_perm|].
    rewrite forallb_forall in Cx. rewrite Forall_forall in *.
    intros y Hy. apply in_map_iff in Hy. destruct Hy as (z & <- & Hz).
    simpl. auto.
Qed.

Lemma set_of_spec (xs : list json) :
  forall seen,
    Forall (fun x => hashable x = true) xs ->
    pairwise (fun a b => eq a b = false) seen ->
    (exists more, set_of seen xs = seen ++ more)
    /\ pairwise (fun a b => eq a b = false) (set_of seen xs)
    /\ (forall t, In t (set_of seen xs) -> In t seen \/ In t xs)
    /\ (forall x, In x xs -> exists t, In t (set_of seen xs) /\ eq t x = true).
Proof.
  induction xs as [|x xs IH]; intros seen Hh P; cbn [set_of].
  - split; [exists []; now rewrite app_nil_r|]. split; auto. split; auto.
    intros x [].
  - inversion Hh as [|? ? Hx Hh']; subst.
    destruct (existsb (fun y => eq y x) seen) eqn:E.
    + destruct (IH seen Hh' P) as ((more & Em) & Pw & Sub & Cov).
      split; [eauto|]. split; auto. split.
      * intros t Ht. destruct (Sub t Ht); simpl; auto.
      * intros z [Ez|Hz]; [subst z|auto].
        apply existsb_exists in E. destruct E as (y & Iy & Ey).
        exists y. split; auto. rewrite Em. apply in_or_app. now left.
    + assert (P' : pairwise (fun a b => eq a b = false) (seen ++ [x])).
      { apply pairwise_snoc; auto. apply Forall_forall. intros y Hy.
        destruct (eq y x) eqn:Ey; auto.
        assert (existsb (fun y => eq y x) seen = true)
          by (apply existsb_exists; eauto).
        congruence. }
      destruct (IH (seen ++ [x]) Hh' P') as ((more & Em) & Pw & Sub & Cov).
      split; [exists (x :: more); now rewrite Em, <- app_assoc|].
      split; auto. split.
      * intros t Ht. destruct (Sub t Ht) as [I|I]; simpl; auto.
        apply in_app_or in I. destruct I as [I|[<-|[]]]; auto.
      * intros z [Ez|Hz]; [subst z|auto].
        exists x. split; [|now apply eq_refl_hashable].
        rewrite Em. apply in_or_app. left. apply in_or_app. right. now left.
Qed.

Lemma inline_topics_spec (ps : list json) :
  forall inline,
    inline_topics ps = Some inline ->
    Forall (fun x => hashable x = true) inline
    /\ forall t, In t inline <->
                 exists p s u, In p ps /\ get "topics" p = JStr s /\
                               In u (split_topics s) /\ t = JStr u.
Proof.
  induction ps as [|p ps IH]; cbn [inline_topics]; intros inline H.
  - injection H as <-. split; auto. intros t. split; [intros []|].
    intros (p & s & u & [] & _).
  - destruct (is_dict p); [|discriminate].
    destruct (truthy (get "topics" p)) eqn:T.
    + destruct (get "topics" p) as [| | |s| |] eqn:G; try discriminate.
      destruct (inline_topics ps) as [r|]; [|discriminate].
      simpl in H. injection H as <-. destruct (IH r eq_refl) as [Hh M].
      split.
      * apply Forall_app. split; auto. apply Forall_forall. intros x Hx.
        apply in_map_iff in Hx. destruct Hx as (u & <- & _). reflexivity.
      * intros t. rewrite in_app_iff, M, in_map_iff. split.
        -- intros [(u & <- & Hu)|(q & s' & u & Hq & Gq & Hu & ->)].
           ++ exists p, s, u. simpl. auto.
           ++ exists q, s', u. simpl. auto.
        -- intros (q & s' & u & [<-|Hq] & Gq & Hu & ->).
           ++ left. exists u. split; auto. congruence.
           ++ right. exists q, s', u. auto.
    + destruct (IH inline H) as [Hh M]. split; auto.
      intros t. rewrite M. split.
      * intros (q & s' & u & Hq & Gq & Hu & ->). exists q, s', u. simpl. auto.
      * intros (q & s' & u & [<-|Hq] & Gq & Hu & ->).
        -- exfalso. rewrite Gq in T. destruct s'; [destruct Hu|discriminate].
        -- exists q, s', u. auto.
Qed.

Lemma relation_topics_spec (ts : list json) :
  forall rels,
    relation_topics ts = Some rels ->
    Forall (fun x => hashable x = true) rels
    /\ forall t, In t rels <->
                 exists r, In r ts /\ truthy (get "topic" r) = true /\
                           t = get "topic" r.
Proof.
  induction ts as [|r ts IH]; cbn [relation_topics]; intros rels H.
  - injection H as <-. split; auto. intros t. split; [intros []|].
    intros (r & [] & _).
  - destruct (is_dict r); [|discriminate].
    destruct (truthy (get "topic" r)) eqn:T.
    + destruct (hashable (get "topic" r)) eqn:Hr; [|discriminate].
      destruct (relation_topics ts) as [rs|]; [|discriminate].
      simpl in H. injection H as <-. destruct (IH rs eq_refl) as [Hh M].
      split; auto. intros t. simpl. rewrite M. split.
      * intros [<-|(q & Hq & Tq & ->)]; eauto.
      * intros (q & [<-|Hq] & Tq & ->); eauto.
    + destruct (IH rels H) as [Hh M]. split; auto.
      intros t. rewrite M. split.
      * intros (q & Hq & Tq & ->). exists q. simpl. auto.
      * intros (q & [<-|Hq] & Tq & ->); [congruence|eauto].
Qed.

(** The topics that [get_unique_topics] returns stand in strictly
    ascending order, so none is listed twice.  Each is a piece of the
    inline topics of a page or the truthy topic of a relation; every such
    piece is in the list, and so is a value equal to every such topic of a
    relation. *)
Theorem unique_topics_sorted (db : json) (topics : list json) :
  get_unique_topics db = Some topics ->
  pairwise (fun a b => py_lt a b = Some true) topics
  /\ exists ps ts,
       iterate (get_default "pages" (JArr []) db) = Some ps
       /\ iterate (get_default "page_topics" (JArr []) db) = Some ts
       /\ (forall t, In t topics ->
             (exists p s u, In p ps /\ get "topics" p = JStr s /\
                            In u (split_topics s) /\ t = JStr u)
             \/ (exists r, In r ts /\ truthy (get "topic" r) = true /\
                           t = get "topic" r))
       /\ (forall p s u, In p ps -> get "topics" p = JStr s ->
                         In u (split_topics s) -> In (JStr u) topics)
       /\ (forall r, In r ts -> truthy (get "topic" r) = true ->
                     exists t, In t topics /\ eq t (get "topic" r) = true).
Proof.
  unfold get_unique_topics. intros H.
  destruct (is_dict db); [|discriminate].
  destruct (iterate (get_default "pages" (JArr []) db)) as [ps|]; [|discriminate].
  destruct (inline_topics ps) as [inline|] eqn:Ei; [|discriminate].
  destruct (iterate (get_default "page_topics" (JArr []) db)) as [ts|];
    [|discriminate].
  destruct (relation_topics ts) as [rels|] eqn:R; [|discriminate].
  destruct (inline_topics_spec _ _ Ei) as [Hi Mi].
  destruct (relation_topics_spec _ _ R) as [Hr Mr].
  assert (Hh : Forall (fun x => hashable x = true) (inline ++ rels))
    by (apply Forall_app; auto).
  destruct (set_of_spec (inline ++ rels) [] Hh Logic.I) as (_ & Pw & Sub & Cov).
  assert (Hs : Forall (fun x => hashable x = true) (set_of [] (inline ++ rels))).
  { rewrite Forall_forall in *. intros t Ht.
    destruct (Sub t Ht) as [[]|J]. auto. }
  destruct (sorted_spec _ _ H Hs Pw) as [P S].
  split; [exact S|]. exists ps, ts. split; auto. split; auto. split; [|split].
  - intros t Ht. apply (Permutation_in _ P) in Ht.
    destruct (Sub t Ht) as [[]|J]. apply in_app_or in J.
    destruct J as [J|J]; [left; now apply Mi|right; now apply Mr].
  - intros p s u Hp G Hu.
    destruct (Cov (JStr u)) as (t & It & Et).
    { apply in_or_app. left. apply Mi. exists p, s, u. auto. }
    apply eq_str_r in Et. subst t.
    eapply Permutation_in; [symmetry; exact P|exact It].
  - intros r Hr' T.
    destruct (Cov (get "topic" r)) as (t & It & Et).
    { apply in_or_app. right. apply Mr. eauto. }
    exists t. split; auto.
    eapply Permutation_in; [symmetry; exact P|exact It].
Qed.

Lemma unique_topics_sorted_witness :
  pairwise (fun a b => py_lt a b = Some true) [JStr "news"; JStr "science"]
  /\ exists ps ts,
       iterate (get_default "pages" (JArr []) sample_archive) = Some ps
       /\ iterate (get_default "page_topics" (JArr []) sample_archive) = Some ts
       /\ (forall t, In t [JStr "news"; JStr "science"] ->
             (exists p s u, In p ps /\ get "topics" p = JStr s /\
                            In u (split_topics s) /\ t = JStr u)
             \/ (exists r, In r ts /\ truthy (get "topic" r) = true /\
                           t = get "topic" r))
       /\ (forall p s u, In p ps -> get "topics" p = JStr s ->
                         In u (split_topics s) ->
                         In (JStr u) [JStr "news"; JStr "science"])
       /\ (forall r, In r ts -> truthy (get "topic" r) = true ->
                     exists t, In t [JStr "news"; JStr "science"] /\
                               eq t (get "topic" r) = true).
Proof.
  apply (unique_topics_sorted sample_archive [JStr "news"; JStr "science"]).
  vm_compute. reflexivity.
Defined.

(** Topics of two kinds cannot be sorted, and a topic that is a list
    cannot enter the set: [get_unique_topics] raises. *)
Example get_unique_topics_raises :
  get_unique_topics
    (JObj [("page_topics", JArr [JObj [("topic", JStr "a")];
                                 JObj [("topic", JInt 3)]])]) = None
  /\ get_unique_topics
       (JObj [("page_topics", JArr [JObj [("topic", JArr [JStr "a"])]])]) = None
  /\ get_unique_topics
       (JObj [("page_topics", JArr [JObj [("topic", JInt 1)];
                                    JObj [("topic", JBool true)];
                                    JObj [("topic", JInt 0)]])])
     = Some [JInt 1].
Proof. vm_compute. repeat split; reflexivity. Qed.

(** ** A sound archive loads whole *)

Section SoundArchive.

Variable py_hash : json -> Z.
Variable now : nat -> string.











End SoundArchive.


Lemma get_page_topics_relations_witness :
  get_page_topics sample_archive
    (JObj [("url", JStr "http://alpha.example");
           ("date_archived", JStr "2021-01-01"); ("id", JInt 7)])
  = Some (if truthy (get "id" (JObj [("url", JStr "http://alpha.example");
                                     ("date_archived", JStr "2021-01-01");
                                     ("id", JInt 7)]))
          then map (get "topic")
                 (filter (fun t =>
                            eq (get "page_id" t)
                              (get "id" (JObj [("url", JStr "http://alpha.example");
                                               ("date_archived", JStr "2021-01-01");
                                               ("id", JInt 7)]))
                            && truthy (get "topic" t))
                    [JObj [("topic", JStr "news"); ("page_id", JInt 7)]])
          else []).
Proof.
  apply (get_page_topics_relations sample_archive
           (JObj [("url", JStr "http://alpha.example");
                  ("date_archived", JStr "2021-01-01"); ("id", JInt 7)])
           [JObj [("topic", JStr "news"); ("page_id", JInt 7)]]).
  - reflexivity.
  - reflexivity.
  - repeat constructor.
Defined.

(** ** What the cleaning and the extractors leave alone *)

Lemma all_chars_app (P : ascii -> bool) (a b : string) :
  all_chars P (a ++ b) = all_chars P a && all_chars P b.
Proof.
  induction a as [|c a IH]; simpl; auto. now rewrite IH, andb_assoc.
Qed.

Lemma all_chars_take (P : ascii -> bool) (s : string) :
  forall n, all_chars P s = true -> all_chars P (take n s) = true.
Proof.
  induction s as [|c s IH]; intros [|n]; simpl; auto.
  intros H. apply andb_prop in H. destruct H as [Hc Hs].
  now rewrite Hc, IH.
Qed.

Lemma all_chars_drop (P : ascii -> bool) (s : string) :
  forall n, all_chars P s = true -> all_chars P (drop n s) = true.
Proof.
  induction s as [|c s IH]; intros [|n]; simpl; auto.
  intros H. apply andb_prop in H. destruct H as [Hc Hs]. auto.
Qed.

Lemma all_chars_slice (P : ascii -> bool) (s : string) (a b : nat) :
  all_chars P s = true -> all_chars P (slice a b s) = true.
Proof. intros H. unfold slice. now apply all_chars_take, all_chars_drop. Qed.

Lemma all_chars_group (P : ascii -> bool) (s : string) (n : nat) (m : Re.found) :
  all_chars P s = true -> all_chars P (Re.group n s m) = true.
Proof.
  intros H. unfold Re.group. destruct (Re.cap_get n (Re.m_caps m)) as [[a b]|]; auto.
  now apply all_chars_slice.
Qed.

(** A substitution whose template keeps to [P] keeps a text in [P]. *)
Lemma all_chars_sub (P : ascii -> bool) (r : Re.regex)
  (template : string -> Re.found -> string) (text : string) :
  all_chars P text = true ->
  (forall m, all_chars P (template text m) = true) ->
  all_chars P (Re.sub r template text) = true.
Proof.
  intros Ht Hf. unfold Re.sub.
  generalize (Re.finditer r text) as ms.
  assert (G : forall ms out last,
             all_chars P out = true ->
             all_chars P
               (let '(out', last') :=
                  fold_left
                    (fun (acc : string * nat) m =>
                       let '(o, l) := acc in
                       ((o ++ slice l (Re.m_start m) text ++ template text m)%string,
                        Re.m_end m)) ms (out, last) in
                (out' ++ drop last' text)%string) = true).
  { induction ms as [|m ms IH]; intros out last Ho; cbn [fold_left].
    - rewrite all_chars_app, Ho. simpl. now apply all_chars_drop.
    - apply IH. rewrite !all_chars_app, Ho, Hf. simpl.
      rewrite andb_true_r. now apply all_chars_slice. }
  intros ms. apply G. reflexivity.
Qed.

(** No single quote comes out of [cleanup_json]: each one is turned into
    a double quote, also inside a string value, before anything else. *)
Theorem cleanup_json_no_single_quote (json_str : string) :
  all_chars (fun c => negb (Ascii.eqb c squote)) (cleanup_json json_str) = true.
Proof.
  set (P := fun c => negb (Ascii.eqb c squote)).
  assert (H1 : all_chars P (replace_char squote dquote json_str) = true).
  { induction json_str as [|c s IH]; simpl; auto. rewrite IH, andb_true_r.
    subst P. simpl. destruct (Ascii.eqb c squote) eqn:E; auto.
    now rewrite E. }
  unfold cleanup_json.
  set (s2 := Re.sub Patterns.trailing_comma _ _).
  assert (H2 : all_chars P s2 = true).
  { subst s2. apply all_chars_sub; auto. intros m. now apply all_chars_group. }
  apply all_chars_sub; auto.
  intros m. rewrite !all_chars_app. simpl. rewrite ?all_chars_app. simpl.
  now rewrite !all_chars_group by exact H2.
Qed.

(** An apostrophe in a title ends the string early: the object no
    longer parses and the page is not taken. *)
Example apostrophe_loses_page :
  cleanup_json (lit "{`url`: `u`, `title`: `it's`}")
  = lit "{`url`: `u`, `title`: `it`s`}"
  /\ get "pages"
       (extract_objects empty_database (lit "{`url`: `u`, `title`: `it's`}"))
     = JArr []
  /\ get "pages"
       (extract_objects empty_database (lit "{`url`: `u`, `title`: `its`}"))
     = JArr [JObj [("url", JStr "u"); ("title", JStr "its")]].
Proof. vm_compute. repeat split; reflexivity. Qed.

Lemma assign_settings_get (k : string) (db : json) (text : string) :
  k <> "settings" -> get k (assign_settings db text) = get k db.
Proof.
  intros H. unfold assign_settings.
  repeat match goal with
         | |- context [match ?x with _ => _ end] => destruct x
         end; auto; now rewrite get_set_other.
Qed.

Lemma recover_page_get (now : nat -> string) (k : string) (text : string)
  (db : json) (im : nat * Re.found) :
  k <> "pages" -> get k (recover_page now text db im) = get k db.
Proof.
  intros H. unfold recover_page. destruct im as [i m].
  repeat match goal with
         | |- context [match ?x with _ => _ end] => destruct x
         end; auto; now rewrite get_set_other.
Qed.

(** The extractors write pages, page_topics and settings and nothing
    else: every other key of the database, the crawl queue among them,
    keeps its value through [extract_topics], [extract_other_data] and
    [recover_basic_pages], and through [extract_full_database] unless it
    replaces the database by a whole object it has parsed. *)
Theorem extractors_keep_other_keys (now : nat -> string) (db : json)
  (text k : string) :
  k <> "pages" -> k <> "page_topics" -> k <> "settings" ->
  get k (extract_topics db text) = get k db
  /\ get k (extract_other_data db text) = get k db
  /\ get k (recover_basic_pages now db text) = get k db
  /\ (get k (extract_full_database db text) = get k db
      \/ exists m db_obj,
           Re.search Patterns.db_pattern text = Some m /\
           Json.loads (Re.group0 text m) = Some db_obj /\
           is_dict db_obj = true /\ has "pages" db_obj = true /\
           extract_full_database db text = db_obj).
Proof.
  intros K1 K2 K3.
  assert (Et : forall d t, get k (extract_topics d t) = get k d).
  { intros d t. unfold extract_topics.
    apply fold_left_get. intros. now apply extract_topic_get. }
  assert (Eo : forall d t, get k (extract_objects d t) = get k d).
  { intros d t. unfold extract_objects. rewrite merge_settings_get by assumption.
    rewrite fold_left_get by (intros; now apply extract_topic_get).
    apply fold_left_get. intros. now apply extract_page_get. }
  split; [apply Et|]. split; [|split].
  - unfold extract_other_data. rewrite assign_settings_get by assumption.
    repeat match goal with
           | |- context [match ?x with _ => _ end] => destruct x
           end; repeat (rewrite ?get_set_other by assumption; rewrite ?Et, ?Eo); auto.
  - unfold recover_basic_pages. apply fold_left_get.
    intros. now apply recover_page_get.
  - unfold extract_full_database.
    destruct (Re.search Patterns.db_pattern text) as [m|] eqn:S.
    + destruct (Json.loads (Re.group0 text m)) as [db_obj|] eqn:L.
      * destruct (is_dict db_obj && has "pages" db_obj) eqn:C.
        -- right. apply andb_prop in C. destruct C. exists m, db_obj. auto.
        -- left. rewrite assign_settings_get by assumption.
           repeat match goal with
                  | |- context [match ?x with _ => _ end] => destruct x
                  end; repeat (rewrite ?get_set_other by assumption; rewrite ?Et, ?Eo); auto.
      * left. rewrite assign_settings_get by assumption.
        repeat match goal with
               | |- context [match ?x with _ => _ end] => destruct x
               end; repeat (rewrite ?get_set_other by assumption; rewrite ?Et, ?Eo); auto.
    + left. rewrite assign_settings_get by assumption.
      repeat match goal with
             | |- context [match ?x with _ => _ end] => destruct x
             end; repeat (rewrite ?get_set_other by assumption; rewrite ?Et, ?Eo); auto.
Qed.

Lemma extractors_keep_other_keys_witness :
  let db := set "crawl_queue" (JArr [JStr "http://next.example"]) empty_database in
  let text := lit "{`pages`: [{`url`: `u`, `title`: `T`}], `settings`: {`a`: 1}" in
  get "crawl_queue" (extract_topics db text) = get "crawl_queue" db
  /\ get "crawl_queue" (extract_other_data db text) = get "crawl_queue" db
  /\ get "crawl_queue" (recover_basic_pages sample_clock db text)
     = get "crawl_queue" db
  /\ (get "crawl_queue" (extract_full_database db text) = get "crawl_queue" db
      \/ exists m db_obj,
           Re.search Patterns.db_pattern text = Some m /\
           Json.loads (Re.group0 text m) = Some db_obj /\
           is_dict db_obj = true /\ has "pages" db_obj = true /\
           extract_full_database db text = db_obj).
Proof.
  apply (extractors_keep_other_keys sample_clock
           (set "crawl_queue" (JArr [JStr "http://next.example"]) empty_database)
           (lit "{`pages`: [{`url`: `u`, `title`: `T`}], `settings`: {`a`: 1}")
           "crawl_queue"); discriminate.
Defined.
